(** * rmbloat: job supervision (FfmpegMon, JobHandler, ProbeCache)

    A shallow embedding of the process monitor [FfmpegMon], of the progress
    interpreter, failure classifier and retry ladder of [JobHandler], and of
    the read-through entry point of [ProbeCache], with the properties the
    specification states about them. *)

From Stdlib Require Import ZArith NArith QArith List Bool Lia.
From Stdlib Require Import Strings.String Strings.Ascii Strings.Byte.
From stdpp Require Import base option list gmap strings.

Local Open Scope Z_scope.
Local Open Scope list_scope.

(** ** Python values used by the program *)

Module Py.

(** [bytes] is a list of bytes; [str] is a list of Unicode code points. *)
Abbreviation bytes := (list byte).
Abbreviation str := (list N).

(** A [bytes] literal [b"..."] and a [str] literal of ASCII text. *)
Definition blit (s : string) : bytes := list_byte_of_string s.
Definition lit (s : string) : str := map N_of_ascii (list_ascii_of_string s).

Definition bytes_eqb (x y : bytes) : bool :=
  bool_decide (map Byte.to_N x = map Byte.to_N y).

Definition str_eqb (x y : str) : bool := bool_decide (x = y).

(** Exceptions the modelled code can raise, and the result of a call
    that may raise. *)
Inductive exn : Type :=
  | RuntimeError
  | AttributeError
  | IndexError
  | TypeError
  | ValueError
  | OSError.

Inductive res (A : Type) : Type :=
  | Ok (a : A)
  | Raise (e : exn).
Arguments Ok {A} a.
Arguments Raise {A} e.

Definition bind {A B : Type} (r : res A) (k : A -> res B) : res B :=
  match r with
  | Ok a => k a
  | Raise e => Raise e
  end.

(** *** Sequences *)

(** [l[-1]] raises [IndexError] on the empty list. *)
Definition last_item {A : Type} (l : list A) : res A :=
  match last l with
  | Some a => Ok a
  | None => Raise IndexError
  end.

Fixpoint drop_while {A : Type} (p : A -> bool) (l : list A) : list A :=
  match l with
  | [] => []
  | a :: tl => if p a then drop_while p tl else l
  end.

Definition strip_with {A : Type} (p : A -> bool) (l : list A) : list A :=
  rev (drop_while p (rev (drop_while p l))).

Fixpoint starts_with (pre s : str) : bool :=
  match pre, s with
  | [], _ => true
  | _ :: _, [] => false
  | a :: pre', c :: s' => N.eqb a c && starts_with pre' s'
  end.

(** [sub in s] on [str]. *)
Fixpoint contains (sub s : str) : bool :=
  starts_with sub s ||
  match s with
  | [] => false
  | _ :: s' => contains sub s'
  end.

(** *** bytes *)

(** ASCII whitespace, the set [bytes.strip()] removes. *)
Definition is_bspace (c : byte) : bool :=
  let n := Byte.to_N c in
  ((9 <=? n) && (n <=? 13) || (n =? 32))%N.

Definition bytes_strip (x : bytes) : bytes := strip_with is_bspace x.

Definition NL : byte := "010"%byte.
Definition EQ : byte := "="%byte.

(** [data.split(sep)]: never empty, [k] separators give [k+1] fragments. *)
Fixpoint bytes_split (sep : byte) (data : bytes) : list bytes :=
  match data with
  | [] => [[]]
  | c :: tl =>
      if Byte.eqb c sep then [] :: bytes_split sep tl
      else match bytes_split sep tl with
           | f :: fs => (c :: f) :: fs
           | [] => [[c]]
           end
  end.

(** [line.split(sep, 1)] when [sep in line]: the text before the first
    separator and the text after it; [None] when there is no separator. *)
Fixpoint bytes_split_once (sep : byte) (line : bytes) : option (bytes * bytes) :=
  match line with
  | [] => None
  | c :: tl =>
      if Byte.eqb c sep then Some ([], tl)
      else match bytes_split_once sep tl with
           | Some (k, v) => Some (c :: k, v)
           | None => None
           end
  end.

(** [bytes.decode('utf-8', errors='ignore')]: CPython's decoder; an invalid
    start byte drops one byte, an invalid continuation drops the bytes read
    so far of the sequence and resumes at the offending byte, a sequence
    cut by the end of the data is dropped. *)
Definition is_cont (c : N) : bool := ((128 <=? c) && (c <? 192))%N.

Definition cp2 (c1 c2 : N) : N :=
  N.lor (N.shiftl (N.land c1 31) 6) (N.land c2 63).
Definition cp3 (c1 c2 c3 : N) : N :=
  N.lor (N.shiftl (N.land c1 15) 12)
        (N.lor (N.shiftl (N.land c2 63) 6) (N.land c3 63)).
Definition cp4 (c1 c2 c3 c4 : N) : N :=
  N.lor (N.shiftl (N.land c1 7) 18)
        (N.lor (N.shiftl (N.land c2 63) 12)
               (N.lor (N.shiftl (N.land c3 63) 6) (N.land c4 63))).

Fixpoint decode_ignore (bs : bytes) : str :=
  match bs with
  | [] => []
  | b1 :: r1 =>
    let c1 := Byte.to_N b1 in
    if (c1 <? 128)%N then c1 :: decode_ignore r1
    else if (c1 <? 194)%N then decode_ignore r1
    else if (c1 <? 224)%N then
      match r1 with
      | [] => []
      | b2 :: r2 =>
        let c2 := Byte.to_N b2 in
        if is_cont c2 then cp2 c1 c2 :: decode_ignore r2
        else decode_ignore r1
      end
    else if (c1 <? 240)%N then
      match r1 with
      | [] => []
      | b2 :: r2 =>
        let c2 := Byte.to_N b2 in
        if negb (is_cont c2)
           || ((c1 =? 224) && (c2 <? 160))%N
           || ((c1 =? 237) && (160 <=? c2))%N
        then decode_ignore r1
        else match r2 with
             | [] => []
             | b3 :: r3 =>
               let c3 := Byte.to_N b3 in
               if is_cont c3 then cp3 c1 c2 c3 :: decode_ignore r3
               else decode_ignore r2
             end
      end
    else if (c1 <? 245)%N then
      match r1 with
      | [] => []
      | b2 :: r2 =>
        let c2 := Byte.to_N b2 in
        if negb (is_cont c2)
           || ((c1 =? 240) && (c2 <? 144))%N
           || ((c1 =? 244) && (144 <=? c2))%N
        then decode_ignore r1
        else match r2 with
             | [] => []
             | b3 :: r3 =>
               let c3 := Byte.to_N b3 in
               if negb (is_cont c3) then decode_ignore r2
               else match r3 with
                    | [] => []
                    | b4 :: r4 =>
                      let c4 := Byte.to_N b4 in
                      if is_cont c4 then cp4 c1 c2 c3 c4 :: decode_ignore r4
                      else decode_ignore r3
                    end
             end
      end
    else decode_ignore r1
  end.

(** *** str *)

(** The code points [str.isspace()] accepts, which [str.strip()] removes
    and the pattern class [\s] matches. *)
Definition is_space (c : N) : bool :=
  ((9 <=? c) && (c <=? 13) || (28 <=? c) && (c <=? 32)
   || (c =? 133) || (c =? 160) || (c =? 5760)
   || (8192 <=? c) && (c <=? 8202)
   || (c =? 8232) || (c =? 8233) || (c =? 8239) || (c =? 8287)
   || (c =? 12288))%N.

Definition str_strip (s : str) : str := strip_with is_space s.

(** ASCII decimal digits. *)
Definition is_digit (c : N) : bool := ((48 <=? c) && (c <=? 57))%N.

(** [int(s)] on a run of ASCII digits; [ValueError] otherwise. *)
Fixpoint digits_value (acc : Z) (s : str) : option Z :=
  match s with
  | [] => Some acc
  | c :: s' =>
      if is_digit c then digits_value (10 * acc + Z.of_N (c - 48)) s'
      else None
  end.

Definition int_of_str (s : str) : res Z :=
  match s with
  | [] => Raise ValueError
  | _ => match digits_value 0 s with
         | Some z => Ok z
         | None => Raise ValueError
         end
  end.

(** [str(n)] for an integer. *)
Definition digit_char (d : Z) : N := Z.to_N (48 + d).

Fixpoint nat_digits (fuel : nat) (n : Z) (acc : str) : str :=
  match fuel with
  | O => acc
  | S fuel' =>
      if n <? 10 then digit_char n :: acc
      else nat_digits fuel' (n / 10) (digit_char (n mod 10) :: acc)
  end.

Definition str_of_int (n : Z) : str :=
  if n <? 0 then 45%N :: nat_digits (S (Z.to_nat (Z.log2 (- n)))) (- n) []
  else nat_digits (S (Z.to_nat (Z.log2 n))) n [].

(** [l[i]], which raises [IndexError] past the end. *)
Definition item {A : Type} (l : list A) (i : nat) : res A :=
  match l !! i with
  | Some a => Ok a
  | None => Raise IndexError
  end.

(** [s.split(sep)] for a separator of one character: never empty, [k]
    separators give [k+1] parts. *)
Fixpoint str_split (sep : N) (s : str) : list str :=
  match s with
  | [] => [[]]
  | c :: tl =>
      if N.eqb c sep then [] :: str_split sep tl
      else match str_split sep tl with
           | f :: fs => (c :: f) :: fs
           | [] => [[c]]
           end
  end.

(** [sep.join(parts)] *)
Fixpoint str_join (sep : str) (parts : list str) : str :=
  match parts with
  | [] => []
  | p :: rest =>
      match rest with
      | [] => p
      | _ :: _ => p ++ sep ++ str_join sep rest
      end
  end.

Definition COMMA : N := 44%N.

(** *** Character properties *)

(** The properties of the interpreter's Unicode database that
    [str.isdigit] and the pattern classes [\d] and [\w] consult. Below
    U+0080 they are fixed: the letters are A-Z and a-z, and the decimal,
    digit and numeric characters are 0-9. Beyond, they are what the database
    of the running interpreter says, with the value of a decimal digit. *)
Record ucd : Type := {
  ucd_alpha : N -> bool;
  ucd_decimal : N -> bool;
  ucd_digit : N -> bool;
  ucd_numeric : N -> bool;
  ucd_decimal_value : N -> Z
}.

Definition is_ascii_alpha (c : N) : bool :=
  ((65 <=? c) && (c <=? 90) || (97 <=? c) && (c <=? 122))%N.

Definition isalpha (U : ucd) (c : N) : bool :=
  if (c <? 128)%N then is_ascii_alpha c else ucd_alpha U c.

(** The class [\d]. *)
Definition isdecimal (U : ucd) (c : N) : bool :=
  if (c <? 128)%N then is_digit c else ucd_decimal U c.

Definition isdigit_char (U : ucd) (c : N) : bool :=
  if (c <? 128)%N then is_digit c else ucd_digit U c.

Definition isnumeric (U : ucd) (c : N) : bool :=
  if (c <? 128)%N then is_digit c else ucd_numeric U c.

(** The class [\w]: alphanumeric characters and the underscore. *)
Definition is_word (U : ucd) (c : N) : bool :=
  isalpha U c || isdecimal U c || isdigit_char U c || isnumeric U c
  || (c =? 95)%N.

(** [s.isdigit()]: at least one character, all of them digits. *)
Definition isdigit (U : ucd) (s : str) : bool :=
  match s with
  | [] => false
  | _ :: _ => forallb (isdigit_char U) s
  end.

(** [int(c)] of one character of the class [\d]. *)
Definition decimal_value (U : ucd) (c : N) : Z :=
  if (c <? 128)%N then Z.of_N (c - 48) else ucd_decimal_value U c.

(** A database without any character of these properties beyond ASCII. *)
Definition ascii_ucd : ucd :=
  {| ucd_alpha := fun _ => false; ucd_decimal := fun _ => false;
     ucd_digit := fun _ => false; ucd_numeric := fun _ => false;
     ucd_decimal_value := fun _ => 0 |}.

End Py.

(** ** The process monitor (FfmpegMon.py) *)

Module FfmpegMon.
Import Py.

(** The child process as the monitor sees it. Each entry of [stderr] is
    one coming non-blocking [stderr.read()]: the bytes it returns ([None] for
    a read that would block or fails) and whether the [process.poll()] that
    follows it sees that the child has exited. Past the last entry the child
    has exited and a read returns no data. [exited] is what [process.poll()]
    sees now. *)
Record Popen : Type := {
  stderr : list (option bytes * bool);
  exited : bool;
  returncode : Z
}.

Definition stderr_read (p : Popen) : option bytes * Popen :=
  match stderr p with
  | [] =>
      (None, {| stderr := []; exited := true; returncode := returncode p |})
  | (chunk, seen) :: rest =>
      (chunk, {| stderr := rest; exited := seen; returncode := returncode p |})
  end.

(** [process.poll()]. *)
Definition popen_poll (p : Popen) : option Z :=
  if exited p then Some (returncode p) else None.

(** The reads of a child that runs while its output is read: every read
    sees it running, but that the last one sees the exit when
    [exit_with_last]; else a later read does. *)
Fixpoint running (reads : list (option bytes)) (exit_with_last : bool)
    : list (option bytes * bool) :=
  match reads with
  | [] => []
  | chunk :: rest =>
      match rest with
      | [] => [(chunk, exit_with_last)]
      | _ :: _ => (chunk, false) :: running rest exit_with_last
      end
  end.

Definition child (reads : list (option bytes)) (exit_with_last : bool)
    (code : Z) : Popen :=
  {| stderr := running reads exit_with_last; exited := false;
     returncode := code |}.

(** The file system and the children the monitor has terminated.
    [os.unlink] raises [OSError] on a path of [protected]. *)
Record world : Type := {
  files : gset string;
  protected : gset string;
  terminated : list Popen
}.

(** What [poll] returns: [None], a text line or the integer exit code. *)
Inductive event : Type :=
  | NoEvent
  | Line (s : str)
  | Code (c : Z).

Record t : Type := {
  process : option Popen;
  partial_line : bytes;
  output_queue : list str;
  return_code : option Z;
  temp_file : option string;
  progress_buffer : gmap str str
}.

(** [FfmpegMon()]. *)
Definition init : t := {|
  process := None;
  partial_line := [];
  output_queue := [];
  return_code := None;
  temp_file := None;
  progress_buffer := ∅
|}.

(** The outcome of [subprocess.Popen] and of the [fcntl] calls after it. *)
Inductive launch : Type :=
  | Launched (p : Popen)
  | PopenFailed
  | FcntlFailed (p : Popen).

Definition start (m : t) (command_line : list str) (tf : option string)
    (l : launch) : res unit * t :=
  let m1 := {| process := process m; partial_line := partial_line m;
               output_queue := output_queue m; return_code := return_code m;
               temp_file := tf; progress_buffer := progress_buffer m |} in
  match process m with
  | Some _ => (Raise RuntimeError, m1)
  | None =>
      match l with
      | Launched p =>
          (Ok tt, {| process := Some p; partial_line := partial_line m;
                     output_queue := output_queue m;
                     return_code := return_code m;
                     temp_file := tf; progress_buffer := progress_buffer m |})
      | PopenFailed =>
          (Ok tt, {| process := None; partial_line := partial_line m;
                     output_queue := output_queue m;
                     return_code := Some 127;
                     temp_file := tf; progress_buffer := progress_buffer m |})
      | FcntlFailed p =>
          (Ok tt, {| process := Some p; partial_line := partial_line m;
                     output_queue := output_queue m;
                     return_code := Some 127;
                     temp_file := tf; progress_buffer := progress_buffer m |})
      end
  end.

Definition PROGRESS_KEYS : list bytes :=
  map blit ["frame"; "fps"; "stream_0_0_q"; "bitrate"; "total_size";
            "out_time_us"; "out_time"; "dup_frames"; "drop_frames";
            "speed"; "progress"; "out_time_ms"]%string.

(** [b.get(key, dflt)]. *)
Definition get (b : gmap str str) (key dflt : string) : str :=
  default (lit dflt) (b !! lit key).

Definition composite (b : gmap str str) : str :=
  lit "frame=" ++ get b "frame" "0" ++ lit " "
  ++ lit "fps=" ++ get b "fps" "0" ++ lit " "
  ++ lit "bitrate=" ++ get b "bitrate" "0" ++ lit " "
  ++ lit "time=" ++ get b "out_time" "00:00:00.00" ++ lit " "
  ++ lit "speed=" ++ get b "speed" "0" ++ lit "x".

(** The log line a run of bytes becomes. *)
Definition log_line (line_bytes : bytes) : str :=
  str_strip (decode_ignore line_bytes).

(** One turn of the loop over the complete lines: the accumulator and the
    events appended to the queue. The keys of [PROGRESS_KEYS] are ASCII, so
    the strict decoding of a key is [decode_ignore]. *)
Definition handle_line (buf : gmap str str) (line_bytes : bytes)
    : gmap str str * list str :=
  match line_bytes with
  | [] => (buf, [])
  | _ :: _ =>
      match bytes_split_once EQ line_bytes with
      | Some (k, v) =>
          let key_b := bytes_strip k in
          if existsb (bytes_eqb key_b) PROGRESS_KEYS then
            let key_str := decode_ignore key_b in
            let val_str := decode_ignore (bytes_strip v) in
            let buf' := <[key_str := val_str]> buf in
            if str_eqb key_str (lit "progress")
            then (∅, [lit "PROGRESS:" ++ composite buf'])
            else (buf', [])
          else (buf, [log_line line_bytes])
      | None => (buf, [log_line line_bytes])
      end
  end.

Fixpoint handle_lines (buf : gmap str str) (lines : list bytes)
    : gmap str str * list str :=
  match lines with
  | [] => (buf, [])
  | l :: rest =>
      let '(buf1, ev1) := handle_line buf l in
      let '(buf2, ev2) := handle_lines buf1 rest in
      (buf2, ev1 ++ ev2)
  end.

(** The [if chunk:] block: new carry-over, accumulator and queued events. *)
Definition feed (partial : bytes) (buf : gmap str str) (chunk : bytes)
    : bytes * gmap str str * list str :=
  let fragments := bytes_split NL (partial ++ chunk) in
  let '(buf', evs) := handle_lines buf (removelast fragments) in
  (List.last fragments [], buf', evs).

(** [if chunk:] skips a read without data and an empty read. *)
Definition read_chunk (partial : bytes) (buf : gmap str str)
    (chunk : option bytes) : bytes * gmap str str * list str :=
  match chunk with
  | Some (c :: cs) => feed partial buf (c :: cs)
  | _ => (partial, buf, [])
  end.

(** The carry-over flushed once the child has exited. *)
Definition flush (partial : bytes) : list str :=
  match partial with
  | [] => []
  | _ :: _ =>
      match log_line partial with
      | [] => []
      | l_str => [l_str]
      end
  end.

Definition poll (m : t) : event * t :=
  match output_queue m with
  | e :: q =>
      (Line e, {| process := process m; partial_line := partial_line m;
                  output_queue := q; return_code := return_code m;
                  temp_file := temp_file m;
                  progress_buffer := progress_buffer m |})
  | [] =>
      match process m with
      | None =>
          (match return_code m with Some c => Code c | None => NoEvent end, m)
      | Some p =>
          let '(chunk, p1) := stderr_read p in
          let '(partial1, buf1, queue1) :=
            read_chunk (partial_line m) (progress_buffer m) chunk in
          match popen_poll p1 with
          | Some process_status =>
              match queue1 ++ flush partial1 with
              | e :: q =>
                  (Line e, {| process := Some p1; partial_line := [];
                              output_queue := q;
                              return_code := Some process_status;
                              temp_file := temp_file m;
                              progress_buffer := buf1 |})
              | [] =>
                  (Code process_status,
                   {| process := None; partial_line := [];
                      output_queue := [];
                      return_code := Some process_status;
                      temp_file := temp_file m;
                      progress_buffer := buf1 |})
              end
          | None =>
              (NoEvent, {| process := Some p1; partial_line := partial1;
                           output_queue := queue1;
                           return_code := return_code m;
                           temp_file := temp_file m;
                           progress_buffer := buf1 |})
          end
      end
  end.

(** [os.path.exists] and [os.unlink] with its [OSError] swallowed. *)
Definition exists_file (w : world) (f : string) : bool :=
  bool_decide (f ∈ files w).

Definition unlink_quiet (w : world) (f : string) : world :=
  if bool_decide (f ∈ protected w) then w
  else {| files := files w ∖ {[f]}; protected := protected w;
          terminated := terminated w |}.

Definition stop (m : t) (w : world) (code : Z) : t * world :=
  let w1 :=
    match process m with
    | Some p =>
        match popen_poll p with
        | None => {| files := files w; protected := protected w;
                     terminated := terminated w ++ [p] |}
        | Some _ => w
        end
    | None => w
    end in
  let w2 :=
    match temp_file m with
    | Some f =>
        if negb (String.eqb f "") && exists_file w1 f
        then unlink_quiet w1 f else w1
    | None => w1
    end in
  ({| process := None; partial_line := []; output_queue := output_queue m;
      return_code := Some code; temp_file := None; progress_buffer := ∅ |},
   w2).

(** *** The monitor in use *)

(** The states a monitor goes through from [FfmpegMon()] under calls of
    its three methods. *)
Inductive reachable : t -> Prop :=
  | reach_init : reachable init
  | reach_start m cmd tf l :
      reachable m -> reachable (snd (start m cmd tf l))
  | reach_poll m :
      reachable m -> reachable (snd (poll m))
  | reach_stop m w code :
      reachable m -> reachable (fst (stop m w code)).

(** A fresh monitor started on a child. *)
Definition monitoring (p : Popen) : t :=
  snd (start init [] None (Launched p)).

(** The caller's loop: poll until the exit code comes (or [fuel] times);
    the lines returned on the way, and the exit code when it came. *)
Fixpoint collect (fuel : nat) (m : t) : list str * option Z :=
  match fuel with
  | O => ([], None)
  | S fuel' =>
      match poll m with
      | (Line e, m') =>
          let '(es, code) := collect fuel' m' in (e :: es, code)
      | (NoEvent, m') => collect fuel' m'
      | (Code c, _) => ([], Some c)
      end
  end.

(** The monitor after [n] more calls of [poll]. *)
Definition polled (n : nat) (m : t) : t :=
  Nat.iter n (fun s => snd (poll s)) m.

(** The bytes a list of reads delivers, in order. *)
Fixpoint stream (reads : list (option bytes)) : bytes :=
  match reads with
  | [] => []
  | Some chunk :: rest => chunk ++ stream rest
  | None :: rest => stream rest
  end.

(** The events of data delivered in one read before the child exits. *)
Definition events_of (data : bytes) : list str :=
  let '(partial, _, evs) := read_chunk [] ∅ (Some data) in
  evs ++ flush partial.

(** The line [key=value]. *)
Definition kv_line (key value : bytes) : bytes := key ++ EQ :: value.

(** The accumulator after the fields of a group, in the order they came;
    a later value of a key replaces an earlier one. *)
Definition accumulate (buf : gmap str str) (fields : list (bytes * bytes))
    : gmap str str :=
  fold_left
    (fun b kv => <[decode_ignore (fst kv) := decode_ignore (bytes_strip (snd kv))]> b)
    fields buf.

(** *** Scenarios *)

(** The progress group of the specification's example, as the bytes of
    one read: [frame=100], the time under the key [time_key], [speed=2.0]
    and [progress=continue], each ended by a line feed. *)
Definition progress_group (time_key : string) : bytes :=
  blit "frame=100" ++ [NL]
  ++ blit time_key ++ blit "=00:01:30.50" ++ [NL]
  ++ blit "speed=2.0" ++ [NL]
  ++ blit "progress=continue" ++ [NL].

(** The accumulator after the fields [frame=100], [out_time=00:01:30.50]
    and [speed=2.0]. *)
Definition snapshot_fields : gmap str str :=
  accumulate ∅
    [(blit "frame", blit "100"); (blit "out_time", blit "00:01:30.50");
     (blit "speed", blit "2.0")].

(** A child that writes [tail] without a line feed and exits with 3. *)
Definition tail_child : Popen := child [Some (blit "tail")] true 3.

(** A monitor on a running child, with a registered temporary file. *)
Definition busy_monitor : t :=
  snd (start init [] (Some "TEMP.a.mkv"%string)
         (Launched (child [None; None] false 0))).

End FfmpegMon.

(** ** The patterns of JobHandler.py, with the matching order of [re] *)

Module Re.
Import Py.

(** The constructs the two patterns of the program use. [Rep greedy p] is
    [p*] (or the lazy [p*?]) over a character class, [Lit ci s] a literal
    (matched without regard to case when [ci]), [Opt r] is [(?:r)?] and
    [Group i r] the capturing group number [i]. *)
Inductive re : Type :=
  | Cls (p : N -> bool)
  | Rep (greedy : bool) (p : N -> bool)
  | Lit (ci : bool) (s : str)
  | Seq (r1 r2 : re)
  | Opt (r : re)
  | Group (i : nat) (r : re).

Declare Scope re_scope.
Delimit Scope re_scope with re.
Bind Scope re_scope with re.
Notation "r1 ;; r2" := (Seq r1 r2)
  (at level 100, r2 at level 200, right associativity) : re_scope.

(** [p+] *)
Definition Plus (p : N -> bool) : re := (Cls p ;; Rep true p)%re.

(** Letters that match each other under [re.IGNORECASE]: the two ASCII
    cases, and the dotted and dotless i, the long s and the Kelvin sign. *)
Definition fold_case (c : N) : N :=
  if ((65 <=? c) && (c <=? 90))%N then (c + 32)%N
  else if ((c =? 304) || (c =? 305))%N then 105%N
  else if (c =? 383)%N then 115%N
  else if (c =? 8490)%N then 107%N
  else c.

Definition chr_matches (ci : bool) (a c : N) : bool :=
  if ci then N.eqb (fold_case a) (fold_case c) else N.eqb a c.

Fixpoint lit_rest (ci : bool) (pat s : str) : option str :=
  match pat with
  | [] => Some s
  | a :: pat' =>
      match s with
      | c :: s' => if chr_matches ci a c then lit_rest ci pat' s' else None
      | [] => None
      end
  end.

Definition caps := list (option str).

Section Matching.
Variable R : Type.

(** Repetition of a class before the continuation [k]: the greedy form
    takes a character first and gives it back when [k] fails, the lazy
    form tries [k] first. *)
Fixpoint rep (greedy : bool) (p : N -> bool) (s : str)
    (k : str -> option R) : option R :=
  match s with
  | c :: s' =>
      if p c then
        if greedy then
          match rep greedy p s' k with
          | Some r => Some r
          | None => k s
          end
        else
          match k s with
          | Some r => Some r
          | None => rep greedy p s' k
          end
      else k s
  | [] => k s
  end.
End Matching.

(** Backtracking match of [r] at the head of [s], then the continuation. *)
Fixpoint run (r : re) (s : str) (cs : caps)
    (k : str -> caps -> option caps) : option caps :=
  match r with
  | Cls p =>
      match s with
      | c :: s' => if p c then k s' cs else None
      | [] => None
      end
  | Rep greedy p => rep caps greedy p s (fun s' => k s' cs)
  | Lit ci pat =>
      match lit_rest ci pat s with
      | Some s' => k s' cs
      | None => None
      end
  | Seq r1 r2 => run r1 s cs (fun s1 cs1 => run r2 s1 cs1 k)
  | Opt r1 =>
      match run r1 s cs k with
      | Some out => Some out
      | None => k s cs
      end
  | Group i r1 =>
      run r1 s cs
        (fun s1 cs1 =>
           k s1 (<[pred i := Some (take (length s - length s1) s)]> cs1))
  end.

(** [pattern.search(s)]: the match at the leftmost position that has one;
    the result is [match.groups()], group [i] at index [i - 1]. *)
Fixpoint search_from (r : re) (ngroups : nat) (s : str) : option caps :=
  match run r s (replicate ngroups None) (fun _ cs => Some cs) with
  | Some cs => Some cs
  | None =>
      match s with
      | [] => None
      | _ :: s' => search_from r ngroups s'
      end
  end.

Definition dot (c : N) : bool := negb (c =? 10)%N.
Definition eq_or_space (c : N) : bool := (c =? 61)%N || is_space c.

(** Whether the pattern has a group that sets the entry [j] of the
    captures. *)
Fixpoint sets (r : re) (j : nat) : bool :=
  match r with
  | Group i r1 => Nat.eqb (pred i) j || sets r1 j
  | Seq r1 r2 => sets r1 j || sets r2 j
  | Opt r1 => sets r1 j
  | _ => false
  end.

End Re.

(** ** Runs, videos and jobs *)

Module Models.
Import Py.

(** Modelled from the spec: Models.py (the classes [Run], [Vid] and [Job])
    is not among the sources. A [Run] is one attempt: its captured text
    lines, its exit code (unset until the attempt ends), the description of
    its strategy and its command line. *)
Record Run : Type := {
  texts : list str;
  return_code : option Z;
  descr : str;
  command : str
}.

Definition new_run : Run :=
  {| texts := []; return_code := None; descr := []; command := [] |}.

(** Modelled from the spec: a [Vid] holds the ordered runs of its attempts.
    [vid_return_code] is the attribute [vid.return_code] that the corruption
    marker prints; [standard_name] and [duration] (of the first probe) are
    what [start_transcode_job] reads. *)
Record Vid : Type := {
  runs : list Run;
  vid_return_code : option Z;
  standard_name : string;
  basename : string;
  duration : Q
}.

Definition with_runs (v : Vid) (rs : list Run) : Vid :=
  {| runs := rs; vid_return_code := vid_return_code v;
     standard_name := standard_name v; basename := basename v;
     duration := duration v |}.

(** Modelled from the spec: [vid.start_new_run()] pushes a fresh [Run]. *)
Definition start_new_run (v : Vid) : Vid := with_runs v (runs v ++ [new_run]).

(** An update of [vid.runs[-1]]; [IndexError] when there is no run. *)
Definition update_last_run (f : Run -> Run) (v : Vid) : res Vid :=
  match last (runs v) with
  | Some r => Ok (with_runs v (removelast (runs v) ++ [f r]))
  | None => Raise IndexError
  end.

(** [vid.runs[-1].texts.append(line)] *)
Definition append_text (line : str) (v : Vid) : res Vid :=
  update_last_run
    (fun r => {| texts := texts r ++ [line]; return_code := return_code r;
                 descr := descr r; command := command r |}) v.

(** [vid.runs[-1].return_code = code] *)
Definition set_return_code (code : Z) (v : Vid) : res Vid :=
  update_last_run
    (fun r => {| texts := texts r; return_code := Some code;
                 descr := descr r; command := command r |}) v.

(** [vid.runs[-1].descr = d] *)
Definition set_descr (d : str) (v : Vid) : res Vid :=
  update_last_run
    (fun r => {| texts := texts r; return_code := return_code r;
                 descr := d; command := command r |}) v.

(** [vid.runs[-1].command = c] *)
Definition set_command (c : str) (v : Vid) : res Vid :=
  update_last_run
    (fun r => {| texts := texts r; return_code := return_code r;
                 descr := descr r; command := c |}) v.

(** Modelled from the spec: a [Job] is one live attempt: paths, target
    duration, start instant, the two tier flags and its process monitor.
    The [Vid] a job refers to is shared by all the jobs of one video; it is
    kept in the state the handler runs in. *)
Record Job : Type := {
  orig_backup_file : string;
  temp_file : string;
  duration_secs : Q;
  input_file : string;
  start_mono : Q;
  is_retry : bool;
  is_software_fallback : bool;
  ffsubproc : FfmpegMon.t
}.

Definition with_ffsubproc (j : Job) (m : FfmpegMon.t) : Job :=
  {| orig_backup_file := orig_backup_file j; temp_file := temp_file j;
     duration_secs := duration_secs j; input_file := input_file j;
     start_mono := start_mono j; is_retry := is_retry j;
     is_software_fallback := is_software_fallback j; ffsubproc := m |}.

End Models.

(** ** Job handling (JobHandler.py) *)

Module JobHandler.
Import Py Re Models.

Definition PROGRESS_RE : re :=
  (Rep true is_space ;; Lit true (lit "frame") ;; Plus eq_or_space ;;
   Group 1 (Plus is_digit) ;; Plus is_space ;;
   Opt (Rep false dot ;; Lit true (lit "time") ;; Plus eq_or_space ;;
        Group 2 (Cls is_digit ;; Cls is_digit) ;; Lit true (lit ":") ;;
        Group 3 (Cls is_digit ;; Cls is_digit) ;; Lit true (lit ":") ;;
        Group 4 (Cls is_digit ;; Cls is_digit) ;; Lit true (lit ".") ;;
        Group 5 (Plus is_digit)) ;;
   Opt (Rep false dot ;; Lit true (lit "speed") ;; Plus eq_or_space ;;
        Group 6 (Plus is_digit ;; Lit true (lit ".") ;; Plus is_digit) ;;
        Lit true (lit "x")))%re.

Definition REPEAT_RE : re :=
  (Lit false (lit "Last message repeated ") ;; Group 1 (Plus is_digit) ;;
   Lit false (lit " times"))%re.

(** *** Failure classification *)

(** [signal in line] for some captured line. *)
Definition any_line_contains (signal : str) (lines : list str) : bool :=
  existsb (contains signal) lines.

(** The weight of the first entry of the table whose signal the line
    contains (the [for ... break] over the dictionary, in insertion order). *)
Fixpoint first_signal (table : list (str * Z)) (line : str) : option Z :=
  match table with
  | [] => None
  | (signal, score) :: rest =>
      if contains signal line then Some score else first_signal rest line
  end.

Definition filter_error_signals : list str :=
  map lit ["Error reinitializing filters";
           "Impossible to convert between the formats";
           "Reconfiguring filter graph because video parameters changed"]%string.

Definition corruption_signals : list (str * Z) :=
  [(lit "corrupt decoded frame", 10);
   (lit "illegal mb_num", 9);
   (lit "marker does not match f_code", 9)].

(** The scan for severe corruption: [true] as soon as the running total
    reaches 20. *)
Fixpoint severe_scan (total_severity : Z) (lines : list str) : bool :=
  match lines with
  | [] => false
  | line :: rest =>
      match first_signal corruption_signals line with
      | Some score =>
          if 20 <=? total_severity + score then true
          else severe_scan (total_severity + score) rest
      | None => severe_scan total_severity rest
      end
  end.

Definition _should_retry_with_error_tolerance (vid : Vid) : res bool :=
  bind (last_item (runs vid)) (fun run =>
  if bool_decide (return_code run = Some 0) then Ok false
  else if existsb (fun signal => any_line_contains signal (texts run))
                  filter_error_signals
  then Ok true
  else Ok (severe_scan 0 (texts run))).

Definition filter_reconfig_signals : list str :=
  map lit ["Error reinitializing filters";
           "Impossible to convert between the formats"]%string.

Definition _should_retry_with_software (vid : Vid) : res bool :=
  bind (last_item (runs vid)) (fun run =>
  if bool_decide (return_code run = Some 0) then Ok false
  else Ok (existsb (fun signal => any_line_contains signal (texts run))
                   filter_reconfig_signals)).

(** *** Corruption scoring ([elaborate_err] of [finish_transcode_job]) *)

Definition CORRUPTION_SEVERITY : list (str * Z) :=
  [(lit "corrupt decoded frame", 10);
   (lit "illegal mb_num", 9);
   (lit "marker does not match f_code", 9);
   (lit "damaged at", 8);
   (lit "Error at MB:", 7);
   (lit "time_increment_bits", 6);
   (lit "slice end not reached", 5);
   (lit "concealing", 2)].

Definition SEVERITY_THRESHOLD : Z := 30.

Record tally : Type := {
  total_severity : Z;
  corruption_events : Z;
  last_score : Z
}.

(** [re.search(r"Last message repeated (\d+) times", line)] and
    [int(repeat_match.group(1))]. *)
Definition repeat_multiplier (line : str) : option Z :=
  match search_from REPEAT_RE 1 line with
  | Some [Some digits] => digits_value 0 digits
  | _ => None
  end.

(** One turn of the loop over the captured lines. *)
Definition score_line (t : tally) (line : str) : tally :=
  let '(total1, events1, this_line_signal_score) :=
    match first_signal CORRUPTION_SEVERITY line with
    | Some score => (total_severity t + score, corruption_events t + 1, score)
    | None => (total_severity t, corruption_events t, 0)
    end in
  match repeat_multiplier line with
  | Some multiplier =>
      {| total_severity := total1 + last_score t * multiplier;
         corruption_events :=
           if 0 <? last_score t then events1 + multiplier else events1;
         last_score := 0 |}
  | None =>
      {| total_severity := total1; corruption_events := events1;
         last_score := this_line_signal_score |}
  end.

Definition score (lines : list str) : tally :=
  fold_left score_line lines
    {| total_severity := 0; corruption_events := 0; last_score := 0 |}.

(** [str(x)] of an optional integer. *)
Definition str_of_opt_int (x : option Z) : str :=
  match x with
  | Some z => str_of_int z
  | None => lit "None"
  end.

Definition corrupt_marker (t : tally) (code : option Z) : str :=
  lit "CORRUPT VIDEO: Total Severity Score " ++ str_of_int (total_severity t)
  ++ lit " from " ++ str_of_int (corruption_events t)
  ++ lit " events. FFmpeg error_code=" ++ str_of_opt_int code.

Definition elaborate_err (vid : Vid) : res Vid :=
  bind (last_item (runs vid)) (fun run =>
  if bool_decide (return_code run = Some 0) then Ok vid
  else
    let t := score (texts run) in
    if SEVERITY_THRESHOLD <=? total_severity t
    then append_text (corrupt_marker t (vid_return_code vid)) vid
    else Ok vid).

(** *** The state the handler runs in *)

(** Times and quantities are rationals: the model computes in exact
    arithmetic what the program computes in binary floating point. *)
Definition Qltb (x y : Q) : bool := negb (Qle_bool y x).

Record Opts : Type := {
  progress_secs_max : Q;
  sample : bool;
  quality : string
}.

(** The fields of the handler that the supervision uses, the video the
    jobs share, and the world around them: the file system, the readings
    [mono 0], [mono 1], ... that the successive calls of [time.monotonic()]
    return, the outcomes of the coming process launches and the quoted
    command line the chooser builds for a tier. *)
Record state : Type := {
  opts : Opts;
  progress_line_mono : Q;
  prev_ffmpeg_out_mono : Q;
  vid : Vid;
  os : FfmpegMon.world;
  mono : nat -> Q;
  ticks : nat;
  launches : list FfmpegMon.launch;
  quoted_cmd : bool -> bool -> str
}.

Definition M (A : Type) : Type := state -> res (A * state).

Definition ret {A : Type} (a : A) : M A := fun st => Ok (a, st).

Definition bindM {A B : Type} (c : M A) (k : A -> M B) : M B :=
  fun st =>
    match c st with
    | Ok (a, st') => k a st'
    | Raise e => Raise e
    end.

Notation "'let*' x ':=' c 'in' k" := (bindM c (fun x => k))
  (at level 10, x pattern, c at level 100, k at level 200).

Definition get_state : M state := fun st => Ok (st, st).

Definition put_state (st : state) : M unit := fun _ => Ok (tt, st).

Definition set_progress_line_mono (x : Q) : M unit := fun st =>
  Ok (tt, {| opts := opts st; progress_line_mono := x;
             prev_ffmpeg_out_mono := prev_ffmpeg_out_mono st; vid := vid st;
             os := os st; mono := mono st; ticks := ticks st;
             launches := launches st; quoted_cmd := quoted_cmd st |}).

Definition set_prev_ffmpeg_out_mono (x : Q) : M unit := fun st =>
  Ok (tt, {| opts := opts st; progress_line_mono := progress_line_mono st;
             prev_ffmpeg_out_mono := x; vid := vid st;
             os := os st; mono := mono st; ticks := ticks st;
             launches := launches st; quoted_cmd := quoted_cmd st |}).

Definition set_os (w : FfmpegMon.world) : M unit := fun st =>
  Ok (tt, {| opts := opts st; progress_line_mono := progress_line_mono st;
             prev_ffmpeg_out_mono := prev_ffmpeg_out_mono st; vid := vid st;
             os := w; mono := mono st; ticks := ticks st;
             launches := launches st; quoted_cmd := quoted_cmd st |}).

(** An update of the shared video that may raise. *)
Definition update_vid (f : Vid -> res Vid) : M unit := fun st =>
  match f (vid st) with
  | Ok v =>
      Ok (tt, {| opts := opts st; progress_line_mono := progress_line_mono st;
                 prev_ffmpeg_out_mono := prev_ffmpeg_out_mono st; vid := v;
                 os := os st; mono := mono st; ticks := ticks st;
                 launches := launches st; quoted_cmd := quoted_cmd st |})
  | Raise e => Raise e
  end.

(** [time.monotonic()] *)
Definition monotonic : M Q := fun st =>
  Ok (mono st (ticks st),
      {| opts := opts st; progress_line_mono := progress_line_mono st;
         prev_ffmpeg_out_mono := prev_ffmpeg_out_mono st; vid := vid st;
         os := os st; mono := mono st; ticks := S (ticks st);
         launches := launches st; quoted_cmd := quoted_cmd st |}).

(** The outcome of the next [subprocess.Popen]. *)
Definition next_launch : M FfmpegMon.launch := fun st =>
  match launches st with
  | l :: rest =>
      Ok (l, {| opts := opts st; progress_line_mono := progress_line_mono st;
                prev_ffmpeg_out_mono := prev_ffmpeg_out_mono st;
                vid := vid st; os := os st; mono := mono st;
                ticks := ticks st; launches := rest;
                quoted_cmd := quoted_cmd st |})
  | [] => Ok (FfmpegMon.PopenFailed, st)
  end.

(** *** Progress *)

(** The quantities of a rendered progress line. [remaining_seconds] is
    unset where the program prints [N/A]. The string returned prints
    [percent_complete] and [avg_speed] with one decimal and the three
    durations through [timedelta]. *)
Record progress : Type := {
  percent_complete : Q;
  elapsed_real : Q;
  remaining_seconds : option Q;
  avg_speed : Q;
  time_encoded_seconds : Q
}.

(** What [get_job_progress] returns: [None], a progress line or the
    integer exit code. *)
Inductive got : Type :=
  | Nothing
  | Update (p : progress)
  | Exit (c : Z).

(** [groups[i]], and [int(groups[i])], which raises [TypeError] on an
    unmatched group. *)
Definition group (groups : caps) (i : nat) : res (option str) :=
  match groups !! i with
  | Some g => Ok g
  | None => Raise IndexError
  end.

Definition int_group (groups : caps) (i : nat) : res Z :=
  bind (group groups i) (fun g =>
  match g with
  | Some digits => int_of_str digits
  | None => Raise TypeError
  end).

(** The body of the [try]: the encoded playback time. *)
Definition parse_time (groups : caps) : res Q :=
  bind (int_group groups 1) (fun h =>
  bind (int_group groups 2) (fun m =>
  bind (int_group groups 3) (fun s =>
  bind (group groups 4) (fun f_str =>
  match f_str with
  | None => Raise TypeError
  | Some f_digits =>
      bind (int_of_str f_digits) (fun f =>
      let f_val :=
        (inject_Z f / inject_Z (10 ^ Z.of_nat (length f_digits)))%Q in
      Ok (inject_Z (h * 3600 + m * 60 + s) + f_val)%Q)
  end)))).

(** Steps 3 to 5 of the rendering. *)
Definition render (time_encoded_seconds now_mono : Q) (job : Job) : progress :=
  let elapsed_real := (now_mono - start_mono job)%Q in
  let avg_speed :=
    if Qltb 0.5 elapsed_real && Qltb 0 time_encoded_seconds
    then (time_encoded_seconds / elapsed_real)%Q
    else 0%Q in
  if Qltb 0 (duration_secs job) && Qltb 0 avg_speed
  then {| percent_complete :=
            ((time_encoded_seconds / duration_secs job) * 100)%Q;
          elapsed_real := elapsed_real;
          remaining_seconds :=
            Some ((duration_secs job - time_encoded_seconds) / avg_speed)%Q;
          avg_speed := avg_speed;
          time_encoded_seconds := time_encoded_seconds |}
  else {| percent_complete := 0%Q;
          elapsed_real := elapsed_real;
          remaining_seconds := None;
          avg_speed := avg_speed;
          time_encoded_seconds := time_encoded_seconds |}.

Definition PROGRESS_PREFIX : str := lit "PROGRESS:".

(** The first loop: while more than one event is queued, poll and file
    the event. Each turn takes one event off the queue, so as many turns
    as the queue is long are enough. *)
Fixpoint drain (turns : nat) (now_mono : Q) (job : Job) : M (option Z * Job) :=
  match turns with
  | O => ret (None, job)
  | S turns' =>
      if (1 <? length (FfmpegMon.output_queue (ffsubproc job)))%nat then
        let '(discarded, mon) := FfmpegMon.poll (ffsubproc job) in
        let job' := with_ffsubproc job mon in
        match discarded with
        | FfmpegMon.Line text =>
            let* _ := set_prev_ffmpeg_out_mono now_mono in
            let* _ := (if starts_with PROGRESS_PREFIX text then ret tt
                       else update_vid (append_text text)) in
            drain turns' now_mono job'
        | FfmpegMon.Code c =>
            let* _ := update_vid (set_return_code c) in
            ret (Some c, job')
        | FfmpegMon.NoEvent => drain turns' now_mono job'
        end
      else ret (None, job)
  end.

(** The second loop, [while True]. The result is [None] when [fuel] turns
    did not reach a [return]. *)
Fixpoint monitor (fuel : nat) (job : Job) : M (option got * Job) :=
  match fuel with
  | O => ret (None, job)
  | S fuel' =>
      let '(polled, mon) := FfmpegMon.poll (ffsubproc job) in
      let job' := with_ffsubproc job mon in
      let* now_mono := monotonic in
      match polled with
      | FfmpegMon.Code c =>
          let* _ := update_vid (set_return_code c) in
          ret (Some (Exit c), job')
      | FfmpegMon.Line text =>
          let* _ := set_prev_ffmpeg_out_mono now_mono in
          if (0 <? length (FfmpegMon.output_queue mon))%nat
             && starts_with PROGRESS_PREFIX text
          then monitor fuel' job'
          else
            match search_from PROGRESS_RE 6 text with
            | None =>
                let* _ := (if starts_with PROGRESS_PREFIX text then ret tt
                           else update_vid (append_text text)) in
                ret (Some Nothing, job')
            | Some groups =>
                let* st := get_state in
                if Qltb (now_mono - progress_line_mono st) 1.8
                then ret (Some Nothing, job')
                else
                  let* _ := set_progress_line_mono now_mono in
                  match parse_time groups with
                  | Ok time_encoded_seconds =>
                      ret (Some (Update
                                   (render time_encoded_seconds now_mono job')),
                           job')
                  | Raise _ => ret (Some Nothing, job')
                  end
            end
      | FfmpegMon.NoEvent =>
          let* st := get_state in
          if Qltb (progress_secs_max (opts st))
                  (now_mono - prev_ffmpeg_out_mono st)
          then
            let* _ := update_vid (append_text (lit "PROGRESS TIMEOUT")) in
            let '(stopped, w) := FfmpegMon.stop mon (os st) 254 in
            let* _ := set_os w in
            let* _ := set_prev_ffmpeg_out_mono (now_mono + 1000000)%Q in
            ret (Some (Exit 254), with_ffsubproc job stopped)
          else ret (Some Nothing, job')
      end
  end.

Definition get_job_progress (fuel : nat) (job : Job) : M (option got * Job) :=
  let* now_mono := monotonic in
  let* drained :=
    drain (length (FfmpegMon.output_queue (ffsubproc job))) now_mono job in
  match drained with
  | (Some c, job1) => ret (Some (Exit c), job1)
  | (None, job1) => monitor fuel job1
  end.

(** *** Starting an attempt *)

Definition sample_seconds : Q := 30.

(** [os.unlink], which raises [OSError] on a protected path. *)
Definition unlink (f : string) : M unit := fun st =>
  if bool_decide (f ∈ FfmpegMon.protected (os st)) then Raise OSError
  else set_os {| FfmpegMon.files := FfmpegMon.files (os st) ∖ {[f]};
                 FfmpegMon.protected := FfmpegMon.protected (os st);
                 FfmpegMon.terminated := FfmpegMon.terminated (os st) |} st.

(** Modelled from the spec: [Job(vid, orig_backup_file, temp_file,
    duration_secs)] records the start instant and owns a fresh monitor;
    the tier flags are set by the caller. *)
Definition new_job (orig_backup_file temp_file : string) (duration_secs : Q)
    : M Job :=
  let* now := monotonic in
  ret {| orig_backup_file := orig_backup_file; temp_file := temp_file;
         duration_secs := duration_secs; input_file := "";
         start_mono := now; is_retry := false;
         is_software_fallback := false; ffsubproc := FfmpegMon.init |}.

(** The subtitle, sampling, scaling, colour and stream-mapping options
    only shape the command line, which the model takes from the state. *)
Definition start_transcode_job (retry_with_error_tolerance force_software : bool)
    : M Job :=
  let* st := get_state in
  let prefix :=
    if sample (opts st)
    then ("/heap/samples/SAMPLE." ++ quality (opts st))%string
    else "TEMP"%string in
  let temp_file := (prefix ++ "." ++ standard_name (vid st))%string in
  let orig_backup_file := ("ORIG." ++ basename (vid st))%string in
  let* _ := (if FfmpegMon.exists_file (os st) temp_file
             then unlink temp_file else ret tt) in
  let duration_secs :=
    if sample (opts st) then sample_seconds else duration (vid st) in
  let* _ := (if negb retry_with_error_tolerance && negb force_software
             then update_vid (fun v => Ok (with_runs v []))
             else ret tt) in
  let* _ := update_vid (fun v => Ok (start_new_run v)) in
  let* _ := update_vid (set_descr
              (if retry_with_error_tolerance && negb force_software
               then lit "redo w err tolerance"
               else if force_software then lit "retry w S/W convert"
               else lit "initial run")) in
  let* job := new_job orig_backup_file temp_file duration_secs in
  let* _ := update_vid (set_command
              (quoted_cmd st retry_with_error_tolerance force_software)) in
  let* l := next_launch in
  match FfmpegMon.start (ffsubproc job) [] (Some temp_file) l with
  | (Raise e, _) => fun _ => Raise e
  | (Ok _, mon) =>
      let* now := monotonic in
      let* _ := set_progress_line_mono now in
      let* _ := set_prev_ffmpeg_out_mono now in
      ret {| orig_backup_file := orig_backup_file; temp_file := temp_file;
             duration_secs := duration_secs; input_file := basename (vid st);
             start_mono := start_mono job;
             is_retry := retry_with_error_tolerance;
             is_software_fallback := force_software; ffsubproc := mon |}
  end.

(** *** The retry ladder *)

(** The second component of the triple [check_job_status] returns: what
    [get_job_progress] gave while the job runs, else a status text. *)
Inductive report : Type :=
  | Quiet
  | ProgressLine (p : progress)
  | Text (s : str).

(** The result is [None] when the [fuel] given to [get_job_progress] ran
    out, else the triple [(next_job, report_text, is_done)]. *)
Definition check_job_status (fuel : nat) (job : Job)
    : M (option (option Job * report * bool)) :=
  let* progressed := get_job_progress fuel job in
  let '(g, job1) := progressed in
  match g with
  | None => ret None
  | Some Nothing => ret (Some (Some job1, Quiet, false))
  | Some (Update p) => ret (Some (Some job1, ProgressLine p, false))
  | Some (Exit return_code) =>
      let* _ := update_vid (set_return_code return_code) in
      let* st := get_state in
      let* tolerant :=
        (if negb (return_code =? 0) && negb (is_retry job1)
            && negb (is_software_fallback job1)
         then fun s => bind (_should_retry_with_error_tolerance (vid st))
                            (fun b => Ok (b, s))
         else ret false) in
      if tolerant then
        let* new := start_transcode_job true false in
        ret (Some (Some new, Text (lit "RETRYING (Tolerant)..."), false))
      else
        let* software :=
          (if negb (return_code =? 0) && is_retry job1
              && negb (is_software_fallback job1)
           then fun s => bind (_should_retry_with_software (vid st))
                              (fun b => Ok (b, s))
           else ret false) in
        if software then
          let* new := start_transcode_job true true in
          ret (Some (Some new, Text (lit "RETRYING (Software)..."), false))
        else
          let status :=
            if return_code =? 0 then
              if is_software_fallback job1 then lit "OK3"
              else if is_retry job1 then lit "OK2" else lit " OK"
            else lit "ERR" in
          ret (Some (None, Text status, true))
  end.

(** The caller's loop: [check_job_status] again and again on the job it
    returned, until it reports the job done (or for [calls] calls). The
    result lists what each call returned. *)
Fixpoint drive (calls fuel : nat) (job : Job) (st : state)
    : list (option Job * report * bool) :=
  match calls with
  | O => []
  | S calls' =>
      match check_job_status fuel job st with
      | Ok (Some (Some next, rep, false), st') =>
          (Some next, rep, false) :: drive calls' fuel next st'
      | Ok (Some out, _) => [out]
      | _ => []
      end
  end.

(** *** Notions the properties are stated with *)

(** The severity [_should_retry_with_error_tolerance] sums: the weight of
    the first of its three signals each line contains. *)
Fixpoint severe_total (lines : list str) : Z :=
  match lines with
  | [] => 0
  | line :: rest =>
      default 0 (first_signal corruption_signals line) + severe_total rest
  end.



(** The tier of the ladder a job belongs to. *)
Definition tier (job : Job) : nat :=
  if is_software_fallback job then 2
  else if is_retry job then 1 else 0.

(** The tiers of the jobs that the calls of a run started as retries. *)
Fixpoint retry_tiers (trace : list (option Job * report * bool)) : list nat :=
  match trace with
  | [] => []
  | (Some job, Text _, false) :: rest => tier job :: retry_tiers rest
  | _ :: rest => retry_tiers rest
  end.

(** A monitor that [stop] (or a failed launch) left with a code. *)
Definition stopped_with (c : Z) (m : FfmpegMon.t) : Prop :=
  FfmpegMon.process m = None /\ FfmpegMon.return_code m = Some c.

(** [after] is [before] with the lines [added] appended to the text of
    its current run and, when [code] is set, with that exit code recorded
    in it; the earlier runs and the rest of the video are the same. *)
Definition run_grows (before after : Vid) (added : list str)
    (code : option Z) : Prop :=
  after = with_runs before (runs after)
  /\ ((runs after = runs before /\ added = [] /\ code = None)
      \/ exists earlier r,
           runs before = earlier ++ [r]
           /\ runs after =
                earlier ++ [{| texts := texts r ++ added;
                               return_code :=
                                 match code with
                                 | Some c => Some c
                                 | None => return_code r
                                 end;
                               descr := descr r; command := command r |}]).

(** The exit code a result of [get_job_progress] carries. *)
Definition exit_code (g : option got) : option Z :=
  match g with
  | Some (Exit c) => Some c
  | _ => None
  end.

(** The status [check_job_status] reports for an exit code. *)
Definition final_status (job : Job) (return_code : Z) : str :=
  if return_code =? 0 then
    if is_software_fallback job then lit "OK3"
    else if is_retry job then lit "OK2" else lit " OK"
  else lit "ERR".

(** What a supervision call leaves alone in the state. *)
Definition steady (st st' : state) : Prop :=
  opts st' = opts st /\ launches st' = launches st
  /\ quoted_cmd st' = quoted_cmd st /\ mono st' = mono st.

(** Lines that are no progress snapshots. *)
Definition log_lines (added : list str) : Prop :=
  Forall (fun t => starts_with PROGRESS_PREFIX t = false) added.

(** The exit code recorded in the current run: the one returned, but
    that the code 254 of a stall is returned without being recorded. *)
Definition recorded (r : option got) (added : list str) (code : option Z)
    : Prop :=
  code = exit_code r
  \/ (code = None /\ r = Some (Exit 254)
      /\ exists before, added = before ++ [lit "PROGRESS TIMEOUT"]).

(** The run [start_transcode_job] opens for an attempt of a tier. *)
Definition opened_run (st : state) (r f : bool) : Run :=
  {| texts := []; return_code := None;
     descr := if r && negb f then lit "redo w err tolerance"
              else if f then lit "retry w S/W convert"
              else lit "initial run";
     command := quoted_cmd st r f |}.

(** The path of the output file of an attempt. *)
Definition output_path (st : state) : string :=
  let prefix :=
    if sample (opts st)
    then ("/heap/samples/SAMPLE." ++ quality (opts st))%string
    else "TEMP"%string in
  (prefix ++ "." ++ standard_name (vid st))%string.

(** *** Scenarios *)

(** The log of the specification's corruption example. *)
Definition corrupt_log : list str :=
  [lit "corrupt decoded frame"; lit "corrupt decoded frame";
   lit "corrupt decoded frame"; lit "Last message repeated 2 times"].

Definition failed_vid (lines : list str) : Vid :=
  {| runs := [{| texts := lines; return_code := Some 1;
                 descr := lit "initial run"; command := [] |}];
     vid_return_code := Some 1;
     standard_name := "a.mkv"; basename := "a.avi"; duration := 181 |}.

(** A handler whose clock reads 100 at every call, 40 seconds after the
    last output, with a stall threshold of 30 seconds. *)
Definition quiet_state : state :=
  {| opts := {| progress_secs_max := 30; sample := false; quality := "28" |};
     progress_line_mono := 60;
     prev_ffmpeg_out_mono := 60;
     vid := failed_vid [];
     os := {| FfmpegMon.files := {["TEMP.a.mkv"%string]};
              FfmpegMon.protected := ∅;
              FfmpegMon.terminated := [] |};
     mono := fun _ => 100%Q;
     ticks := 0;
     launches := [];
     quoted_cmd := fun _ _ => lit "ffmpeg" |}.

(** A job of the first tier on a child that writes nothing. *)
Definition quiet_job : Job :=
  {| orig_backup_file := "ORIG.a.avi"; temp_file := "TEMP.a.mkv";
     duration_secs := 181; input_file := "a.avi"; start_mono := 50;
     is_retry := false; is_software_fallback := false;
     ffsubproc := FfmpegMon.busy_monitor |}.

(** A child that reports a filter reinitialization and fails, and the
    state of a handler whose next two launches are such a child and a child
    that succeeds. *)
Definition failing_child : FfmpegMon.Popen :=
  FfmpegMon.child [Some (blit "Error reinitializing filters!" ++ [NL])] true 1.

Definition ladder_state : state :=
  {| opts := {| progress_secs_max := 30; sample := false; quality := "28" |};
     progress_line_mono := 0;
     prev_ffmpeg_out_mono := 0;
     vid := {| runs := []; vid_return_code := None;
               standard_name := "a.mkv"; basename := "a.avi";
               duration := 181 |};
     os := {| FfmpegMon.files := ∅; FfmpegMon.protected := ∅;
              FfmpegMon.terminated := [] |};
     mono := fun n => inject_Z (Z.of_nat n);
     ticks := 0;
     launches :=
       [FfmpegMon.Launched failing_child; FfmpegMon.Launched failing_child;
        FfmpegMon.Launched (FfmpegMon.child [] false 0)];
     quoted_cmd := fun _ _ => lit "ffmpeg" |}.

(** A job whose monitor holds one queued progress snapshot. *)
Definition snapshot_job : Job :=
  with_ffsubproc quiet_job
    (snd (FfmpegMon.poll
            (FfmpegMon.monitoring
               (FfmpegMon.child
                  [Some (FfmpegMon.progress_group "out_time"); None]
                  false 0)))).

(** The reports of a whole run of the ladder from a fresh transcode. *)
Definition ladder_reports (calls : nat) : list report :=
  match start_transcode_job false false ladder_state with
  | Ok (job, st) => map (fun out => snd (fst out)) (drive calls 4 job st)
  | Raise _ => []
  end.

End JobHandler.

(** ** The probe cache (ProbeCache.py) *)

Module ProbeCache.
Import Py.

(** The attributes of a probe. [bloat] and [gb] are the two fields
    [_compute_fields] adds; they are not stored. *)
Record Meta : Type := {
  anomaly : option str;
  width : Z;
  height : Z;
  codec : str;
  bitrate : Z;
  duration : Q;
  size_bytes : Z;
  color_spt : str;
  bloat : option Z;
  gb : option Q
}.

Definition disk_fields : gset string :=
  list_to_set ["anomaly"; "width"; "height"; "codec"; "bitrate"; "duration";
               "size_bytes"; "color_spt"]%string.

(** An entry of the cache file: the keys it has, and under them the
    stored values. *)
Record entry : Type := {
  fields : gset string;
  stored : Meta
}.

Record t : Type := {
  cache_data : gmap string entry;
  _dirty_count : nat;
  on_disk : gmap string entry
}.

(** What [ffprobe] and the decoding of its output come to: the metadata
    of the first video stream, [None] (the errors the method catches, or
    output without a video stream or a format), or an exception it does not
    catch. *)
Inductive ffprobe_result : Type :=
  | Metadata (width height : Z) (codec color_spt : str) (bitrate : Z)
             (duration : Q)
  | NoMetadata
  | Uncaught (e : exn).

(** The files with their sizes, the outcome of [ffprobe] on a path and
    whether writing the cache file fails. *)
Record env : Type := {
  sizes : gmap string Z;
  ffprobe : string -> ffprobe_result;
  write_fails : bool
}.

Section Floats.
(** The two floating-point computations of [_compute_fields]:
    [int(round((bitrate / math.sqrt(area)) * 1000))] from the bitrate and
    the area, and [round(size_bytes / (1024 * 1024 * 1024), 3)]. *)
Variable float_bloat : Z -> Z -> Z.
Variable float_gb : Z -> Q.

(** [os.path.getsize] with its exceptions turned into [None]. *)
Definition _get_file_size_info (e : env) (filepath : string) : option Z :=
  sizes e !! filepath.

(** [meta] is [None] where the caller passes [None]: reading
    [meta.width] then raises [AttributeError]. *)
Definition _compute_fields (meta : option Meta) : res Meta :=
  match meta with
  | None => Raise AttributeError
  | Some m =>
      let area := width m * height m in
      Ok {| anomaly := anomaly m; width := width m; height := height m;
            codec := codec m; bitrate := bitrate m; duration := duration m;
            size_bytes := size_bytes m; color_spt := color_spt m;
            bloat := Some (if 0 <? area then float_bloat (bitrate m) area
                           else 0);
            gb := Some (float_gb (size_bytes m)) |}
  end.

Definition store (e : env) (pc : t) : t :=
  if (0 <? _dirty_count pc)%nat && negb (write_fails e)
  then {| cache_data := cache_data pc; _dirty_count := 0;
          on_disk := cache_data pc |}
  else pc.

Definition _get_metadata_with_ffprobe (e : env) (pc : t)
    (file_path : string) : res (option Meta) * t :=
  match sizes e !! file_path with
  | None => (Ok None, pc)
  | Some size =>
      match ffprobe e file_path with
      | Metadata w h c spt br dur =>
          (Ok (Some {| anomaly := None; width := w; height := h;
                       codec := c; bitrate := br; duration := dur;
                       size_bytes := size; color_spt := spt;
                       bloat := None; gb := None |}),
           if (100 <=? _dirty_count pc)%nat then store e pc else pc)
      | NoMetadata => (Ok None, pc)
      | Uncaught x => (Raise x, pc)
      end
  end.

Definition delete_entry (pc : t) (filepath : string) : t :=
  {| cache_data := delete filepath (cache_data pc);
     _dirty_count := S (_dirty_count pc); on_disk := on_disk pc |}.

Definition _load_probe_data (pc : t) (filepath : string) : res Meta :=
  match cache_data pc !! filepath with
  | Some en => _compute_fields (Some (stored en))
  | None => Raise IndexError
  end.

Definition _get_valid_entry (e : env) (pc : t) (filepath : string)
    : res (option Meta) * t :=
  match _get_file_size_info e filepath with
  | None =>
      (Ok None,
       match cache_data pc !! filepath with
       | Some _ => delete_entry pc filepath
       | None => pc
       end)
  | Some current_size =>
      match cache_data pc !! filepath with
      | Some en =>
          if negb (bool_decide (fields en = disk_fields))
          then (Ok None, delete_entry pc filepath)
          else if negb (size_bytes (stored en) =? current_size)
          then (Ok None, delete_entry pc filepath)
          else
            match _load_probe_data pc filepath with
            | Ok m => (Ok (Some m), pc)
            | Raise x => (Raise x, pc)
            end
      | None => (Ok None, pc)
      end
  end.

Definition _set_cache (pc : t) (filepath : string) (meta : Meta) : t :=
  {| cache_data :=
       <[filepath := {| fields := disk_fields;
                        stored := {| anomaly := anomaly meta;
                                     width := width meta;
                                     height := height meta;
                                     codec := codec meta;
                                     bitrate := bitrate meta;
                                     duration := duration meta;
                                     size_bytes := size_bytes meta;
                                     color_spt := color_spt meta;
                                     bloat := None; gb := None |} |}]>
         (cache_data pc);
     _dirty_count := S (_dirty_count pc);
     on_disk := on_disk pc |}.

(** The entry point: the cached probe when it is valid, else a fresh
    probe. *)
Definition get (e : env) (pc : t) (filepath : string)
    : res (option Meta) * t :=
  match _get_valid_entry e pc filepath with
  | (Raise x, pc1) => (Raise x, pc1)
  | (Ok (Some meta), pc1) => (Ok (Some meta), pc1)
  | (Ok None, pc1) =>
      match _get_metadata_with_ffprobe e pc1 filepath with
      | (Raise x, pc2) => (Raise x, pc2)
      | (Ok meta, pc2) =>
          let pc3 :=
            match meta with
            | Some m => _set_cache pc2 filepath m
            | None => pc2
            end in
          match _compute_fields meta with
          | Ok m => (Ok (Some m), pc3)
          | Raise x => (Raise x, pc3)
          end
      end
  end.

(** *** Loading the cache file *)

(** The loop of [load]: [_get_valid_entry] on each path, for the entries
    it removes. *)
Fixpoint purge (e : env) (keys : list string) (pc : t) : res unit * t :=
  match keys with
  | [] => (Ok tt, pc)
  | filepath :: rest =>
      match _get_valid_entry e pc filepath with
      | (Raise x, pc1) => (Raise x, pc1)
      | (Ok _, pc1) => purge e rest pc1
      end
  end.

(** The cache file as [load] finds it: missing, unreadable ([IOError] or
    text that is not JSON), or holding the entries [on_disk]. *)
Inductive cache_file : Type :=
  | Missing
  | Unreadable
  | Readable.

(** The paths of the cache, in the order the map lists them. *)
Definition paths (pc : t) : list string :=
  map fst (map_to_list (cache_data pc)).

Definition load (e : env) (file : cache_file) (pc : t) : res unit * t :=
  match file with
  | Missing => (Ok tt, pc)
  | Unreadable =>
      let pc1 := {| cache_data := ∅; _dirty_count := _dirty_count pc;
                    on_disk := on_disk pc |} in
      purge e (paths pc1) pc1
  | Readable =>
      let pc1 := {| cache_data := on_disk pc; _dirty_count := _dirty_count pc;
                    on_disk := on_disk pc |} in
      purge e (paths pc1) pc1
  end.

(** [ProbeCache()] over a cache file holding [stored_entries]. *)
Definition new (e : env) (file : cache_file)
    (stored_entries : gmap string entry) : res unit * t :=
  load e file {| cache_data := ∅; _dirty_count := 0;
                 on_disk := stored_entries |}.

(** *** Anomalies *)

Definition word_at (U : ucd) (c : option N) : bool :=
  match c with
  | Some c => is_word U c
  | None => false
  end.

(** [\b] between the text [before] and the text [after]: a word
    character on one side only. *)
Definition word_boundary (U : ucd) (before after : str) : bool :=
  xorb (word_at U (last before)) (word_at U (head after)).

Definition ER_RE (U : ucd) : Re.re :=
  Re.Seq (Re.Lit true (lit "Er")) (Re.Group 1 (Re.Cls (isdecimal U))).

(** [re.match(r'^\bEr(\d)\b', s, re.IGNORECASE)]: [mat.group(1)] when
    the pattern matches. *)
Definition match_er (U : ucd) (s : str) : option str :=
  if word_boundary U [] s then
    match Re.run (ER_RE U) s [None]
            (fun rest cs =>
               if word_boundary U (take (length s - length rest) s) rest
               then Some cs else None) with
    | Some cs => mjoin (cs !! 0%nat)
    | None => None
    end
  else None.

(** [int(s)] of a run of characters of the class [\d]. *)
Definition int_of_decimals (U : ucd) (s : str) : Z :=
  fold_left (fun acc c => 10 * acc + decimal_value U c) s 0.

Definition with_anomaly (m : Meta) (a : option str) : Meta :=
  {| anomaly := a; width := width m; height := height m; codec := codec m;
     bitrate := bitrate m; duration := duration m;
     size_bytes := size_bytes m; color_spt := color_spt m;
     bloat := bloat m; gb := gb m |}.

(** The value [set_anomaly] records for a request: a request that begins
    with [Er] counts the errors, from [Er1] up to [Er9], when the anomaly
    already recorded is none or such a count. *)
Definition escalated (U : ucd) (current : option str) (requested : str)
    : str :=
  if starts_with (lit "Er") requested then
    match current with
    | None | Some [] => lit "Er1"
    | Some recorded =>
        match match_er U recorded with
        | Some digits =>
            let num := int_of_decimals U digits in
            if num <=? 8 then lit "Er" ++ str_of_int (num + 1)
            else lit "Er9"
        | None => requested
        end
    end
  else requested.

Definition set_anomaly (U : ucd) (e : env) (pc : t) (filepath : string)
    (requested : str) : res (option Meta) * t :=
  match _get_valid_entry e pc filepath with
  | (Raise x, pc1) => (Raise x, pc1)
  | (Ok None, pc1) => (Ok None, pc1)
  | (Ok (Some meta), pc1) =>
      let value := escalated U (anomaly meta) requested in
      if negb (bool_decide (anomaly meta = Some value)) then
        let meta1 := with_anomaly meta (Some value) in
        (Ok (Some meta1), store e (_set_cache pc1 filepath meta1))
      else (Ok (Some meta), pc1)
  end.

(** The cache after [n] calls of [set_anomaly] with the request [Err],
    the one [finish_transcode_job] makes for a conversion that failed. *)
Definition after_failures (U : ucd) (e : env) (filepath : string) (n : nat)
    (pc : t) : t :=
  Nat.iter n (fun pc => snd (set_anomaly U e pc filepath (lit "Err"))) pc.
End Floats.

(** *** The compact colour descriptor *)

(** [get_color_spt] of [_get_metadata_with_ffprobe], from the three
    colour fields of the video stream ([None] for a field the stream does
    not have). *)
Definition get_color_spt (color_space color_primaries color_transfer
    : option str) : str :=
  let colorspace := default (lit "unknown") color_space in
  let color_primaries := default (lit "unknown") color_primaries in
  let color_trc := default (lit "unknown") color_transfer in
  let parts := [colorspace] in
  let parts :=
    parts ++ [if negb (str_eqb color_primaries colorspace)
              then color_primaries else lit "~"] in
  let parts :=
    parts ++ [if negb (str_eqb color_trc color_primaries)
              then color_trc else lit "~"] in
  str_join [COMMA] parts.

(** *** Notions the properties are stated with *)

(** An entry that [_get_valid_entry] keeps: it has the fields of
    [disk_fields] and the size the file has now. *)
Definition valid_entry (e : env) (filepath : string) (en : entry) : bool :=
  bool_decide (fields en = disk_fields)
  && match sizes e !! filepath with
     | Some current_size => size_bytes (stored en) =? current_size
     | None => false
     end.


(** The anomaly that counts [n] errors; none for no error. *)
Definition err_level (n : nat) : option str :=
  match n with
  | O => None
  | S _ => Some (lit "Er" ++ str_of_int (Z.of_nat n))
  end.

(** *** Scenarios *)

(** No file on disk, an empty cache, and [ffprobe] finding nothing. *)
Definition bare_env : env :=
  {| sizes := ∅; ffprobe := fun _ => NoMetadata; write_fails := false |}.

Definition empty_cache : t :=
  {| cache_data := ∅; _dirty_count := 0; on_disk := ∅ |}.

(** One file of 1000 bytes, which [ffprobe] reads as a 1920x1080 HEVC
    stream. *)
Definition one_file_env : env :=
  {| sizes := {["a.mkv"%string := 1000]};
     ffprobe := fun _ => Metadata 1920 1080 (lit "hevc") (lit "bt709,~,~")
                           4000 60;
     write_fails := false |}.

(** The entry a probe of that file leaves in the cache. *)
Definition probed_entry : entry :=
  {| fields := disk_fields;
     stored := {| anomaly := None; width := 1920; height := 1080;
                  codec := lit "hevc"; bitrate := 4000; duration := 60;
                  size_bytes := 1000; color_spt := lit "bt709,~,~";
                  bloat := None; gb := None |} |}.

Definition probed_cache : t :=
  {| cache_data := {["a.mkv"%string := probed_entry]}; _dirty_count := 1;
     on_disk := ∅ |}.

End ProbeCache.

(** ** Encoding options and checks (JobHandler.py) *)

Module Encoding.
Import Py Re.

(** *** Bit depth *)

Definition problematic_codecs : list str := [lit "mpeg4"].

Definition safe_8bit_formats : list str :=
  map lit ["yuv420p"; "yuv422p"; "yuv444p"; "nv12"; "nv21"]%string.

Definition should_use_10bit (pix_fmt codec : str) : bool :=
  if contains (lit "10le") pix_fmt || contains (lit "10be") pix_fmt
     || contains (lit "p010") pix_fmt || contains (lit "p210") pix_fmt
  then true
  else if existsb (str_eqb codec) problematic_codecs then false
  else if existsb (str_eqb pix_fmt) safe_8bit_formats then false
  else false.

(** *** Subtitle files *)

(** [pattern.match(s)]: a match at the start of the text. *)
Definition re_match (r : re) (s : str) : bool :=
  match run r s [] (fun _ cs => Some cs) with
  | Some _ => true
  | None => false
  end.

Definition SRT_TIMESTAMP_RE (U : ucd) : re :=
  let d := Cls (isdecimal U) in
  let stamp :=
    (d ;; d ;; Lit true (lit ":") ;; d ;; d ;; Lit true (lit ":") ;;
     d ;; d ;; Lit true (lit ",") ;; d ;; d ;; d)%re in
  (stamp ;; Rep true is_space ;; Lit true (lit "-->") ;; Rep true is_space ;;
   stamp)%re.

(** The inner loop of [validate_srt_file] over the lines of caption
    text, up to a blank line or the end: whether there was a line, and the
    lines left. *)
Fixpoint caption_text (lines : list str) : bool * list str :=
  match lines with
  | [] => (false, [])
  | l :: rest =>
      match str_strip l with
      | [] => (false, lines)
      | _ :: _ => (true, snd (caption_text rest))
      end
  end.

(** The outer loop, from the lines at index [i] on. Every turn moves
    [i] forward; the result is [None] when [fuel] turns did not reach the
    end. *)
Fixpoint count_captions (U : ucd) (fuel : nat) (lines : list str)
    (caption_count : Z) {struct fuel} : option Z :=
  match lines with
  | [] => Some caption_count
  | l :: rest =>
      match fuel with
      | O => None
      | S fuel' =>
          match str_strip l with
          | [] => count_captions U fuel' rest caption_count
          | line =>
              if negb (isdigit U line)
              then count_captions U fuel' rest caption_count
              else
                match rest with
                | [] => Some caption_count
                | timestamp_line :: rest2 =>
                    if negb (re_match (SRT_TIMESTAMP_RE U)
                               (str_strip timestamp_line))
                    then count_captions U fuel' rest2 caption_count
                    else
                      let '(has_text, rest3) := caption_text rest2 in
                      count_captions U fuel' rest3
                        (if has_text then caption_count + 1
                         else caption_count)
                end
          end
      end
  end.

(** [content] is what [f.readlines()] returns, [None] when opening or
    decoding the file raises. The loop is given as many turns as there are
    lines. *)
Definition validate_srt_file (U : ucd) (content : option (list str))
    (min_captions : Z) : option bool :=
  match content with
  | None => Some false
  | Some [] => Some false
  | Some lines =>
      match count_captions U (length lines) lines 0 with
      | Some caption_count => Some (min_captions <=? caption_count)
      | None => None
      end
  end.

(** *** Codec policy *)

(** The class [[a-z]] under [re.IGNORECASE]. *)
Definition az_ci (c : N) : bool :=
  ((97 <=? fold_case c) && (fold_case c <=? 122))%N.

(** [$]: the end of the text, or a line feed that ends it. *)
Definition at_end (rest : str) : bool :=
  match rest with
  | [] => true
  | [c] => (c =? 10)%N
  | _ => false
  end.

(** [re.match(r'^[a-z]\w*$', codec, re.IGNORECASE)] *)
Definition is_codec_name (U : ucd) (codec : str) : bool :=
  match run (Cls az_ci ;; Rep true (is_word U))%re codec []
          (fun rest cs => if at_end rest then Some cs else None) with
  | Some _ => true
  | None => false
  end.

(** [allowed_codecs] is [opts.allowed_codecs]. *)
Definition is_allowed_codec (U : ucd) (allowed_codecs : str)
    (probe : option ProbeCache.Meta) : bool :=
  match probe with
  | None => true
  | Some probe =>
      if negb (is_codec_name U (ProbeCache.codec probe)) then true
      else
        let codec_ok := str_eqb allowed_codecs (lit "all") in
        let codec_ok :=
          if str_eqb allowed_codecs (lit "x265")
          then existsb (str_eqb (ProbeCache.codec probe)) [lit "hevc"]
          else codec_ok in
        let codec_ok :=
          if str_eqb allowed_codecs (lit "x26*")
          then existsb (str_eqb (ProbeCache.codec probe))
                 [lit "hevc"; lit "h264"]
          else codec_ok in
        codec_ok
  end.

(** *** Colour options *)

Definition DEFAULT_SPACE : str := lit "bt709".
Definition DEFAULT_PRIMARIES : str := lit "bt709".
Definition DEFAULT_TRC : str := lit "709".

Definition make_color_opts (color_spt : str) : res (list str) :=
  let spt_parts := str_split COMMA color_spt in
  bind (item spt_parts 0) (fun space_orig =>
  bind (item spt_parts 1) (fun part1 =>
  let primaries_orig :=
    if negb (str_eqb part1 (lit "~")) then part1 else space_orig in
  bind (item spt_parts 2) (fun part2 =>
  let trc_orig :=
    if negb (str_eqb part2 (lit "~")) then part2 else primaries_orig in
  let space :=
    if str_eqb space_orig (lit "unknown") then DEFAULT_SPACE
    else space_orig in
  let primaries :=
    if str_eqb primaries_orig (lit "unknown") then DEFAULT_PRIMARIES
    else primaries_orig in
  let trc :=
    if str_eqb trc_orig (lit "unknown") then DEFAULT_TRC
    else if str_eqb trc_orig (lit "bt709") then DEFAULT_TRC
    else trc_orig in
  Ok [lit "-colorspace"; space; lit "-color_primaries"; primaries;
      lit "-color_trc"; trc]))).

(** *** Notions the properties are stated with *)

(** A caption as it stands in a subtitle file: the line of its number,
    the line of its timing and its lines of text. *)
Record caption : Type := {
  number : str;
  timing : str;
  text_lines : list str
}.

Definition blank_line (l : str) : bool :=
  match str_strip l with
  | [] => true
  | _ :: _ => false
  end.

(** The tests of [validate_srt_file] that a caption passes: a number
    line of digits, a timing line the pattern matches, at least one line of
    text and no blank line in the text. *)
Definition well_formed (U : ucd) (c : caption) : bool :=
  isdigit U (str_strip (number c))
  && re_match (SRT_TIMESTAMP_RE U) (str_strip (timing c))
  && match text_lines c with [] => false | _ :: _ => true end
  && forallb (fun l => negb (blank_line l)) (text_lines c).

(** The lines of a caption, followed by the blank line [sep]. *)
Definition caption_lines (sep : str) (c : caption) : list str :=
  number c :: timing c :: text_lines c ++ [sep].

(** One when the first of the lines is not blank, else zero. *)
Definition slack (lines : list str) : nat :=
  match lines with
  | l :: _ => if blank_line l then 0 else 1
  | [] => 0
  end.

(** *** Scenarios *)

(** A text line of a file, with its line feed. *)
Definition line (s : string) : str := lit s ++ [10%N].

(** A subtitle file of two captions. *)
Definition two_captions : list caption :=
  [{| number := line "1"; timing := line "00:00:01,000 --> 00:00:02,500";
      text_lines := [line "Hello."] |};
   {| number := line "2"; timing := line "00:00:03,000 --> 00:00:04,000";
      text_lines := [line "Good"; line "bye."] |}].

End Encoding.

(** * Properties *)

(** ** Splitting a byte stream into lines *)

Section Splitting.
Import Py.
Variable sep : byte.

Lemma bytes_split_nonempty (d : bytes) : bytes_split sep d <> [].
Proof.
  induction d as [|c d IH]; simpl; [discriminate|].
  destruct (Byte.eqb c sep); [discriminate|].
  destruct (bytes_split sep d); [contradiction | discriminate].
Qed.

Lemma bytes_split_cons_other (c : byte) (d : bytes) :
  Byte.eqb c sep = false ->
  bytes_split sep (c :: d) =
    (c :: hd [] (bytes_split sep d)) :: tl (bytes_split sep d).
Proof.
  intros Hc. simpl. rewrite Hc.
  pose proof (bytes_split_nonempty d) as Hne.
  destruct (bytes_split sep d); [contradiction | reflexivity].
Qed.

(** The last fragment holds no separator. *)
Lemma bytes_split_last_clean (d : bytes) :
  ~ In sep (List.last (bytes_split sep d) []).
Proof.
  induction d as [|c d IH]; [simpl; tauto|].
  pose proof (bytes_split_nonempty d) as Hne.
  destruct (Byte.eqb c sep) eqn:Hc.
  - simpl. rewrite Hc.
    destruct (bytes_split sep d) eqn:Hs; [contradiction | exact IH].
  - rewrite bytes_split_cons_other by exact Hc.
    destruct (bytes_split sep d) as [|f [|g fs]] eqn:Hs; [contradiction| |].
    + simpl in *. intros [Heq | Hin]; [|tauto].
      subst c. rewrite Byte.byte_dec_lb in Hc by reflexivity. discriminate.
    + exact IH.
Qed.

(** Data without a separator is one fragment. *)
Lemma bytes_split_clean (d : bytes) :
  ~ In sep d -> bytes_split sep d = [d].
Proof.
  induction d as [|c d IH]; intros Hd; [reflexivity|].
  simpl. destruct (Byte.eqb c sep) eqn:Hc.
  - apply Byte.byte_dec_bl in Hc. subst c. exfalso. apply Hd. now left.
  - rewrite IH; [reflexivity|]. intros Hin. apply Hd. now right.
Qed.

(** Splitting a concatenation: the fragments of the first part, its last
    fragment glued to the first fragment of the second part, then the
    other fragments of the second part. *)
Lemma bytes_split_app (a b : bytes) :
  bytes_split sep (a ++ b) =
    removelast (bytes_split sep a)
    ++ (List.last (bytes_split sep a) [] ++ hd [] (bytes_split sep b))
       :: tl (bytes_split sep b).
Proof.
  induction a as [|c a IH].
  - simpl. pose proof (bytes_split_nonempty b) as Hne.
    destruct (bytes_split sep b); [contradiction | reflexivity].
  - pose proof (bytes_split_nonempty a) as Hne.
    destruct (Byte.eqb c sep) eqn:Hc.
    + simpl. rewrite Hc. rewrite IH.
      destruct (bytes_split sep a) eqn:Hs; [contradiction | reflexivity].
    + change ((c :: a) ++ b) with (c :: (a ++ b)).
      rewrite !bytes_split_cons_other by exact Hc.
      rewrite IH.
      destruct (bytes_split sep a) as [|f [|g fs]] eqn:Hs;
        [contradiction | reflexivity | reflexivity].
Qed.
End Splitting.

(** ** The process monitor *)

Section Feeding.
Import Py FfmpegMon.

Lemma handle_lines_app (buf : gmap str str) (l1 l2 : list bytes) :
  handle_lines buf (l1 ++ l2) =
    let '(b1, e1) := handle_lines buf l1 in
    let '(b2, e2) := handle_lines b1 l2 in
    (b2, e1 ++ e2).
Proof.
  revert buf. induction l1 as [|l l1 IH]; intros buf; simpl.
  - destruct (handle_lines buf l2); reflexivity.
  - destruct (handle_line buf l) as [b0 e0]. rewrite IH.
    destruct (handle_lines b0 l1) as [b1 e1].
    destruct (handle_lines b1 l2) as [b2 e2].
    now rewrite app_assoc.
Qed.

Lemma last_app_nonempty {A : Type} (l1 l2 : list A) (d : A) :
  l2 <> [] -> List.last (l1 ++ l2) d = List.last l2 d.
Proof.
  intros Hne. induction l1 as [|a l1 IH]; [reflexivity|].
  simpl. rewrite IH. destruct (l1 ++ l2) eqn:E; [|reflexivity].
  apply app_eq_nil in E. tauto.
Qed.

(** Feeding two chunks one after the other is feeding them at once. *)
Lemma feed_app (partial : bytes) (buf : gmap str str) (c1 c2 : bytes) :
  feed partial buf (c1 ++ c2) =
    let '(p1, b1, e1) := feed partial buf c1 in
    let '(p2, b2, e2) := feed p1 b1 c2 in
    (p2, b2, e1 ++ e2).
Proof.
  unfold feed.
  rewrite app_assoc, (bytes_split_app NL (partial ++ c1) c2).
  set (S1 := bytes_split NL (partial ++ c1)).
  set (F2 := (List.last S1 [] ++ hd [] (bytes_split NL c2))
             :: tl (bytes_split NL c2)).
  rewrite removelast_app by discriminate.
  rewrite last_app_nonempty by discriminate.
  rewrite handle_lines_app.
  destruct (handle_lines buf (removelast S1)) as [b1 e1].
  rewrite (bytes_split_app NL (List.last S1 []) c2).
  rewrite (bytes_split_clean NL (List.last S1 []))
    by apply bytes_split_last_clean.
  change (removelast [List.last S1 []]) with (@nil bytes).
  change (List.last [List.last S1 []] []) with (List.last S1 []).
  rewrite app_nil_l. fold F2.
  destruct (handle_lines b1 (removelast F2)) as [b2 e2].
  reflexivity.
Qed.

Lemma feed_nil (partial : bytes) (buf : gmap str str) :
  ~ In NL partial -> feed partial buf [] = (partial, buf, []).
Proof.
  intros Hc. unfold feed. rewrite app_nil_r, bytes_split_clean by exact Hc.
  reflexivity.
Qed.

Lemma feed_clean (partial : bytes) (buf : gmap str str) (chunk : bytes) :
  ~ In NL (feed partial buf chunk).1.1.
Proof.
  unfold feed. destruct (handle_lines _ _). simpl.
  apply bytes_split_last_clean.
Qed.

Lemma read_chunk_feed (partial : bytes) (buf : gmap str str) (chunk : bytes) :
  ~ In NL partial ->
  read_chunk partial buf (Some chunk) = feed partial buf chunk.
Proof.
  intros Hc. destruct chunk; [|reflexivity].
  simpl. now rewrite feed_nil.
Qed.

Lemma read_chunk_clean (partial : bytes) (buf : gmap str str)
    (chunk : option bytes) :
  ~ In NL partial -> ~ In NL (read_chunk partial buf chunk).1.1.
Proof.
  intros Hc. destruct chunk as [[|c cs]|]; simpl; try exact Hc.
  apply feed_clean.
Qed.

(** A read followed by the rest of the stream, against the whole stream
    in one read. *)
Lemma read_chunk_stream (partial : bytes) (buf : gmap str str)
    (r : option bytes) (rest : list (option bytes)) :
  ~ In NL partial ->
  read_chunk partial buf (Some (stream (r :: rest))) =
    let '(p1, b1, e1) := read_chunk partial buf r in
    let '(p2, b2, e2) := read_chunk p1 b1 (Some (stream rest)) in
    (p2, b2, e1 ++ e2).
Proof.
  intros Hc. destruct r as [chunk|]; simpl stream.
  - rewrite (read_chunk_feed partial buf (chunk ++ stream rest)) by exact Hc.
    rewrite feed_app.
    rewrite (read_chunk_feed partial buf chunk) by exact Hc.
    pose proof (feed_clean partial buf chunk) as Hc1.
    destruct (feed partial buf chunk) as [[p1 b1] e1]. simpl in Hc1.
    rewrite (read_chunk_feed p1 b1 (stream rest)) by exact Hc1.
    reflexivity.
  - change (read_chunk partial buf None) with (partial, buf, @nil str).
    cbv iota beta.
    destruct (read_chunk partial buf (Some (stream rest))) as [[p2 b2] e2].
    reflexivity.
Qed.
End Feeding.

Section Polling.
Import Py FfmpegMon.


(** The queued events come first, in the order they were queued. *)
Lemma collect_queue (q : list str) :
  forall proc partial rc tf buf fuel,
    collect (length q + fuel)
      {| process := proc; partial_line := partial; output_queue := q;
         return_code := rc; temp_file := tf; progress_buffer := buf |} =
    let '(es, code) :=
      collect fuel
        {| process := proc; partial_line := partial; output_queue := [];
           return_code := rc; temp_file := tf; progress_buffer := buf |} in
    (q ++ es, code).
Proof.
  induction q as [|e q IH]; intros proc partial rc tf buf fuel.
  - simpl. now destruct (collect fuel _).
  - simpl. rewrite IH. now destruct (collect fuel _).
Qed.

(** Once the child has exited and its output is read, the queue is
    drained and the exit code follows. *)
Lemma collect_exited (q : list str) (seen : bool) (c : Z) rc tf buf
    (k : nat) :
  collect (length q + S k)
    {| process := Some {| stderr := []; exited := seen; returncode := c |};
       partial_line := []; output_queue := q; return_code := rc;
       temp_file := tf; progress_buffer := buf |} = (q, Some c).
Proof.
  rewrite collect_queue. simpl. now rewrite app_nil_r.
Qed.

(** A monitor with an empty queue on a running child: polling returns
    the events of the rest of the stream, then the exit code. *)
Lemma collect_running (reads : list (option bytes)) :
  forall with_last seen partial buf rc tf c,
    ~ In NL partial ->
    exists N,
      collect N
        {| process := Some {| stderr := running reads with_last;
                              exited := seen; returncode := c |};
           partial_line := partial; output_queue := [];
           return_code := rc; temp_file := tf; progress_buffer := buf |} =
      (let '(p', _, evs) := read_chunk partial buf (Some (stream reads)) in
       evs ++ flush p',
       Some c).
Proof.
  induction reads as [|r rest IH];
    intros with_last seen partial buf rc tf c Hc.
  - cbn [stream read_chunk running].
    destruct (flush partial) as [|l q] eqn:Hf.
    + exists 1%nat. cbn. rewrite Hf. reflexivity.
    + exists (S (length q + 1)). cbn [collect poll output_queue process
        stderr_read stderr popen_poll exited read_chunk app returncode
        temp_file progress_buffer partial_line].
      rewrite Hf. rewrite collect_exited. reflexivity.
  - rewrite read_chunk_stream by exact Hc.
    pose proof (read_chunk_clean partial buf r Hc) as Hc1.
    destruct (read_chunk partial buf r) as [[p1 b1] e1] eqn:Hr.
    simpl in Hc1.
    assert (Halive :
      forall script,
        (exists N,
           collect N
             {| process := Some {| stderr := script; exited := false;
                                   returncode := c |};
                partial_line := p1; output_queue := [];
                return_code := rc; temp_file := tf;
                progress_buffer := b1 |} =
           (let '(p', _, evs) := read_chunk p1 b1 (Some (stream rest)) in
            evs ++ flush p', Some c)) ->
        exists N,
          collect N
            {| process := Some {| stderr := (r, false) :: script;
                                  exited := seen; returncode := c |};
               partial_line := partial; output_queue := [];
               return_code := rc; temp_file := tf;
               progress_buffer := buf |} =
          (let '(p', _, evs) :=
             let '(p2, b2, e2) := read_chunk p1 b1 (Some (stream rest)) in
             (p2, b2, e1 ++ e2) in
           evs ++ flush p', Some c)).
    { intros script [N HN]. exists (S (length e1 + N)).
      cbn [collect poll output_queue process stderr_read stderr popen_poll
        exited returncode temp_file progress_buffer partial_line return_code].
      rewrite Hr. rewrite collect_queue, HN.
      destruct (read_chunk p1 b1 (Some (stream rest))) as [[p2 b2] e2].
      now rewrite app_assoc. }
    destruct rest as [|r' rest'].
    + cbn [running]. destruct with_last.
      * cbn [stream read_chunk]. rewrite app_nil_r.
        destruct (e1 ++ flush p1) as [|l q] eqn:Hq.
        -- exists 1%nat. cbn [collect poll output_queue process stderr_read
             stderr popen_poll exited returncode temp_file progress_buffer
             partial_line]. rewrite Hr, Hq. reflexivity.
        -- exists (S (length q + 1)). cbn [collect poll output_queue process
             stderr_read stderr popen_poll exited returncode temp_file
             progress_buffer partial_line].
           rewrite Hr, Hq, collect_exited. reflexivity.
      * apply Halive. exact (IH false false p1 b1 rc tf c Hc1).
    + cbn [running]. apply Halive.
      exact (IH with_last false p1 b1 rc tf c Hc1).
Qed.
End Polling.

Section Monitor.
Import Py FfmpegMon.

(** A monitor without a process holds no carry-over. *)
Lemma reachable_idle_clean (m : t) :
  reachable m -> process m = None -> partial_line m = [].
Proof.
  induction 1 as [|m cmd tf l Hm IH|m Hm IH|m w code Hm IH]; intros Hp.
  - reflexivity.
  - unfold start in *. destruct (process m) eqn:E.
    + simpl in Hp. congruence.
    + destruct l; simpl in *; try discriminate. now apply IH.
  - unfold poll in *. destruct (output_queue m) eqn:Eq.
    + destruct (process m) eqn:E; [|now apply IH].
      destruct (stderr_read p) as [chunk p1].
      destruct (read_chunk _ _ chunk) as [[p' b'] q'].
      destruct (popen_poll p1); [|simpl in Hp; discriminate].
      destruct (q' ++ flush p'); reflexivity.
    + simpl in *. now apply IH.
  - reflexivity.
Qed.

Lemma log_line_nil : log_line [] = [].
Proof. reflexivity. Qed.

Lemma flush_log_line (partial : bytes) :
  log_line partial <> [] -> flush partial = [log_line partial].
Proof.
  intros H. unfold flush. destruct partial; [now rewrite log_line_nil in H|].
  destruct (log_line (b :: partial)); [contradiction | reflexivity].
Qed.

(** C1: [poll] returns the queued events first, oldest first; once the
    child has exited, the text of a trailing line without a line feed
    (decoded and trimmed, when that leaves any) is queued as the last log
    line and the carry-over is emptied; the integer exit code is returned
    only when no event is queued and no carry-over is left, and from then
    on every call returns it. *)
Theorem poll_exit_code_last (m : t) :
  reachable m ->
  (forall e q, output_queue m = e :: q ->
     fst (poll m) = Line e /\ output_queue (snd (poll m)) = q)
  /\ (forall fuel,
        collect (length (output_queue m) + fuel) m =
          let '(es, code) :=
            collect fuel
              {| process := process m; partial_line := partial_line m;
                 output_queue := []; return_code := return_code m;
                 temp_file := temp_file m;
                 progress_buffer := progress_buffer m |} in
          (output_queue m ++ es, code))
  /\ (forall p, output_queue m = [] -> process m = Some p ->
        let '(chunk, p1) := stderr_read p in
        let '(partial1, _, queue1) :=
          read_chunk (partial_line m) (progress_buffer m) chunk in
        popen_poll p1 <> None ->
        log_line partial1 <> [] ->
        exists first rest,
          queue1 ++ [log_line partial1] = first :: rest
          /\ fst (poll m) = Line first
          /\ output_queue (snd (poll m)) = rest
          /\ partial_line (snd (poll m)) = [])
  /\ (forall c, fst (poll m) = Code c ->
        output_queue m = []
        /\ output_queue (snd (poll m)) = []
        /\ partial_line (snd (poll m)) = []
        /\ forall n, poll (polled n (snd (poll m))) = (Code c, snd (poll m))).
Proof.
  intros Hm. repeat split.
  - unfold poll. rewrite H. reflexivity.
  - unfold poll. rewrite H. reflexivity.
  - intros fuel. destruct m as [proc partial q rc tf buf]. simpl.
    apply collect_queue.
  - intros p Hq Hp. destruct (stderr_read p) as [chunk p1] eqn:Er.
    destruct (read_chunk _ _ chunk) as [[partial1 buf1] queue1] eqn:Ec.
    intros Hs Hl. unfold poll. rewrite Hq, Hp, Er, Ec.
    destruct (popen_poll p1) as [status|]; [|contradiction].
    rewrite (flush_log_line _ Hl).
    destruct (queue1 ++ [log_line partial1]) as [|first rest] eqn:E.
    + now destruct queue1.
    + exists first, rest. repeat split.
  - unfold poll in H. destruct (output_queue m); [reflexivity|discriminate].
  - unfold poll in *. destruct (output_queue m) eqn:Eq; [|discriminate].
    destruct (process m) as [p|]; [|exact Eq].
    destruct (stderr_read p) as [chunk p1].
    destruct (read_chunk _ _ chunk) as [[p' b'] q'].
    destruct (popen_poll p1); [|discriminate].
    destruct (q' ++ flush p'); [reflexivity|discriminate].
  - pose proof (reachable_idle_clean m Hm) as Hidle.
    unfold poll in *. destruct (output_queue m); [|discriminate].
    destruct (process m) as [p|]; [|now apply Hidle].
    destruct (stderr_read p) as [chunk p1].
    destruct (read_chunk _ _ chunk) as [[p' b'] q'].
    destruct (popen_poll p1); [|discriminate].
    destruct (q' ++ flush p'); [reflexivity|discriminate].
  - assert (Hfix : poll (snd (poll m)) = (Code c, snd (poll m))).
    { unfold poll in *. destruct (output_queue m) eqn:Eq; [|discriminate].
      destruct (process m) as [p|] eqn:Ep.
      - destruct (stderr_read p) as [chunk p1].
        destruct (read_chunk _ _ chunk) as [[p' b'] q'].
        destruct (popen_poll p1); [|discriminate].
        destruct (q' ++ flush p'); [|discriminate].
        simpl in *. congruence.
      - simpl in *. rewrite Eq, Ep.
        destruct (return_code m); [|discriminate]. congruence. }
    intros n. induction n as [|n IHn]; [exact Hfix|].
    unfold polled in *. simpl. rewrite IHn. exact Hfix.
Qed.

Lemma poll_exit_code_last_witness :
  reachable (monitoring tail_child)
  /\ (forall c, fst (poll (polled 1 (monitoring tail_child))) = Code c ->
        output_queue (polled 1 (monitoring tail_child)) = []).
Proof.
  assert (H1 : reachable (monitoring tail_child))
    by (apply reach_start, reach_init).
  split; [exact H1|].
  intros c Hc.
  exact (proj1 (proj2 (proj2 (proj2
           (poll_exit_code_last (polled 1 (monitoring tail_child))
              (reach_poll _ H1)))) c Hc)).
Defined.

(** The child of the witness: the trailing line, then the exit code. *)
Example tail_child_run :
  collect 2 (monitoring tail_child) = ([lit "tail"], Some 3).
Proof. vm_compute. reflexivity. Qed.


(** A line with a two-byte letter, cut inside the letter and inside the
    key=value pair that follows. *)
Example chunking_inside_utf8 :
  collect 9
    (monitoring
       (child [Some [x63; x61; x66; xc3]; Some [xa9; x0a; x66; x72];
               None; Some (blit "ame=7" ++ [NL] ++ blit "progress=");
               Some (blit "end" ++ [NL])] true 0))
  = ([[99; 97; 102; 233]%N;
      lit "PROGRESS:frame=7 fps=0 bitrate=0 time=00:00:00.00 speed=0x"],
     Some 0).
Proof. vm_compute. reflexivity. Qed.

(** When the exit is seen while bytes are still to be read, the carry-over
    is flushed at once and the rest of its line comes as a line of its own:
    the chunking property is about the reads of a running child. *)
Example exit_seen_before_last_read :
  collect 3
    (monitoring
       {| stderr := [(Some (blit "ab"), true);
                     (Some (blit "c" ++ [NL]), true)];
          exited := false; returncode := 0 |})
  = ([lit "ab"; lit "c"], Some 0)
  /\ events_of (blit "abc" ++ [NL]) = [lit "abc"].
Proof. split; vm_compute; reflexivity. Qed.

(** C5 (as the program has it): the four lines [frame=100],
    [time=00:01:30.50], [speed=2.0], [progress=continue] of one read give
    two events: [time] is no progress key, so its line is a log line, and
    the one snapshot, which has the prefix [PROGRESS:], carries the default
    time. With the key [out_time] for the time, the group gives exactly
    one event, the snapshot with the time of the group. The polls return
    these events and then the exit code. *)
Theorem progress_group_snapshot :
  (events_of (progress_group "time") =
     [lit "time=00:01:30.50";
      lit "PROGRESS:frame=100 fps=0 bitrate=0 time=00:00:00.00 speed=2.0x"]
   /\ events_of (progress_group "out_time") =
     [lit "PROGRESS:frame=100 fps=0 bitrate=0 time=00:01:30.50 speed=2.0x"])
  /\ (forall c,
        collect 5 (monitoring (child [Some (progress_group "time"); None]
                                 false c))
          = (events_of (progress_group "time"), Some c)
        /\ collect 4 (monitoring (child [Some (progress_group "out_time");
                                        None] false c))
          = (events_of (progress_group "out_time"), Some c)).
Proof.
  split; [split; vm_compute; reflexivity|].
  intros c. split; vm_compute; reflexivity.
Qed.

(** The snapshot the specification's example expects is not among the
    events of its four lines, with or without the prefix. *)
Lemma progress_group_time_key_refuted :
  ~ In (lit "frame=100 fps=0 bitrate=0 time=00:01:30.50 speed=2.0x")
       (events_of (progress_group "time"))
  /\ ~ In (lit "PROGRESS:frame=100 fps=0 bitrate=0 time=00:01:30.50 speed=2.0x")
         (events_of (progress_group "time")).
Proof.
  split; intros H; vm_compute in H; intuition discriminate.
Qed.

(** C10: [start] on a monitor that has a process raises, after it has
    replaced the registered temporary file by the one of the call; a
    [stop] after it removes the new file and leaves the one registered
    first. *)
Theorem start_twice_overwrites_temp_file (m : t) (p : Popen)
    (cmd : list str) (tf : option string) (l : launch) :
  process m = Some p ->
  fst (start m cmd tf l) = Raise RuntimeError
  /\ temp_file (snd (start m cmd tf l)) = tf
  /\ process (snd (start m cmd tf l)) = Some p
  /\ forall (w : world) (code : Z) (old new : string),
       temp_file m = Some old -> tf = Some new ->
       new <> ""%string -> old <> new ->
       new ∈ files w -> new ∉ protected w ->
       files (snd (stop (snd (start m cmd tf l)) w code))
         = files w ∖ {[new]}
       /\ (old ∈ files w ->
           old ∈ files (snd (stop (snd (start m cmd tf l)) w code))).
Proof.
  intros Hp. unfold start. rewrite Hp. cbn [fst snd temp_file process].
  repeat split.
  all: intros; subst tf.
  all: unfold stop, exists_file, unlink_quiet;
       cbn [fst snd temp_file process files protected terminated].
  all: assert (Hne : String.eqb new "" = false)
         by (apply String.eqb_neq; assumption).
  all: rewrite Hne; cbn [negb andb].
  all: destruct (popen_poll p);
       cbn [files protected];
       rewrite !bool_decide_eq_true_2 by assumption;
       rewrite !bool_decide_eq_false_2 by assumption;
       cbn [files]; set_solver.
Qed.

Lemma start_twice_overwrites_temp_file_witness :
  process busy_monitor = Some (child [None; None] false 0)
  /\ fst (start busy_monitor [] (Some "TEMP.b.mkv"%string) PopenFailed)
     = Raise RuntimeError
  /\ temp_file (snd (start busy_monitor [] (Some "TEMP.b.mkv"%string)
                       PopenFailed))
     = Some "TEMP.b.mkv"%string.
Proof.
  split; [reflexivity|].
  pose proof (start_twice_overwrites_temp_file busy_monitor
                (child [None; None] false 0)
                [] (Some "TEMP.b.mkv"%string) PopenFailed eq_refl) as H.
  split; [exact (proj1 H) | exact (proj1 (proj2 H))].
Defined.

(** [stop] leaves a monitor that is not running; a second [stop] gives
    the same monitor and touches nothing; on a monitor never started it
    touches nothing either. *)
Lemma stop_idempotent (m : t) (w w' : world) (code : Z) :
  process (fst (stop m w code)) = None
  /\ partial_line (fst (stop m w code)) = []
  /\ temp_file (fst (stop m w code)) = None
  /\ return_code (fst (stop m w code)) = Some code
  /\ stop (fst (stop m w code)) w' code = (fst (stop m w code), w')
  /\ snd (stop init w code) = w.
Proof. repeat split. Qed.

(** A launch that fails raises nothing: the monitor holds the code 127,
    which [poll] returns once its queue is empty. *)
Lemma failed_launch_code (m : t) (cmd : list str) (tf : option string) :
  process m = None ->
  output_queue m = [] ->
  fst (start m cmd tf PopenFailed) = Ok tt
  /\ fst (poll (snd (start m cmd tf PopenFailed))) = Code 127.
Proof.
  intros Hp Hq. unfold start. rewrite Hp. cbn [fst snd].
  unfold poll. cbn [output_queue process return_code]. rewrite Hq.
  split; reflexivity.
Qed.

Lemma bytes_split_once_kv (key value : bytes) :
  forallb (fun c => negb (Byte.eqb c EQ)) key = true ->
  bytes_split_once EQ (key ++ EQ :: value) = Some (key, value).
Proof.
  induction key as [|c key IH]; intros H.
  - reflexivity.
  - cbn [forallb] in H. apply andb_true_iff in H. destruct H as [Hc Hk].
    apply negb_true_iff in Hc. cbn [app bytes_split_once].
    now rewrite Hc, IH.
Qed.

(** A field line of a progress key other than the terminator goes to the
    accumulator and queues nothing. *)
Lemma handle_field_line (buf : gmap str str) (key value : bytes) :
  In key PROGRESS_KEYS ->
  key <> blit "progress" ->
  handle_line buf (kv_line key value)
    = (<[decode_ignore key := decode_ignore (bytes_strip value)]> buf, []).
Proof.
  intros Hin Hne.
  assert (Hkey : forallb (fun c => negb (Byte.eqb c EQ)) key = true
                 /\ bytes_strip key = key
                 /\ existsb (bytes_eqb key) PROGRESS_KEYS = true
                 /\ str_eqb (decode_ignore key) (lit "progress") = false).
  { unfold PROGRESS_KEYS in Hin. cbn [map In] in Hin.
    repeat (destruct Hin as [<- | Hin];
            [first [ contradiction
                   | repeat split; vm_compute; reflexivity ]|]).
    contradiction. }
  destruct Hkey as (Hsplit & Hstrip & Hmem & Hterm).
  unfold handle_line, kv_line.
  destruct (key ++ EQ :: value) as [|c rest] eqn:E.
  - now destruct key.
  - rewrite <- E, bytes_split_once_kv by exact Hsplit.
    rewrite Hstrip, Hmem, Hterm. reflexivity.
Qed.

(** A progress group: fields of progress keys in any order, then the
    terminator. It queues exactly one event, the snapshot of the fields that
    came, with the defaults for those that did not, and empties the
    accumulator. *)
Lemma progress_group_one_snapshot (buf : gmap str str)
    (fields : list (bytes * bytes)) (v : bytes) :
  Forall (fun kv => In (fst kv) PROGRESS_KEYS /\ fst kv <> blit "progress")
         fields ->
  handle_lines buf
    (map (fun kv => kv_line (fst kv) (snd kv)) fields
     ++ [kv_line (blit "progress") v])
  = (∅,
     [lit "PROGRESS:"
      ++ composite (<[lit "progress" := decode_ignore (bytes_strip v)]>
                      (accumulate buf fields))]).
Proof.
  revert buf. induction fields as [|[key value] fields IH];
    intros buf Hall.
  - reflexivity.
  - inversion Hall as [|kv rest [Hin Hne] Hrest]; subst.
    cbn [map app handle_lines fst snd] in *.
    rewrite handle_field_line by assumption.
    rewrite IH by assumption. reflexivity.
Qed.

Lemma progress_group_one_snapshot_witness :
  handle_lines ∅
    [kv_line (blit "speed") (blit "1.5"); kv_line (blit "frame") (blit "7");
     kv_line (blit "progress") (blit "continue")]
  = (∅, [lit "PROGRESS:frame=7 fps=0 bitrate=0 time=00:00:00.00 speed=1.5x"]).
Proof.
  rewrite (progress_group_one_snapshot ∅
             [(blit "speed", blit "1.5"); (blit "frame", blit "7")]
             (blit "continue")).
  - vm_compute. reflexivity.
  - repeat constructor; cbn; try tauto; discriminate.
Defined.

Lemma failed_launch_code_witness :
  fst (poll (snd (start init [] None PopenFailed))) = Code 127.
Proof.
  exact (proj2 (failed_launch_code init [] None eq_refl eq_refl)).
Defined.
End Monitor.

(** ** Failure classification and corruption scoring *)

Section Classifier.
Import Py Models JobHandler.

Lemma update_last_run_snoc (f : Run -> Run) (v : Vid) (earlier : list Run)
    (r : Run) :
  runs v = earlier ++ [r] ->
  update_last_run f v = Ok (with_runs v (earlier ++ [f r])).
Proof.
  intros H. unfold update_last_run. rewrite H, last_snoc, removelast_last.
  reflexivity.
Qed.

Lemma last_item_snoc {A : Type} (l : list A) (a : A) :
  last_item (l ++ [a]) = Ok a.
Proof. unfold last_item. now rewrite last_snoc. Qed.

(** C4 (as the program has it): on a run that did not end with code 0
    and whose text is three lines [corrupt decoded frame] and the line
    [Last message repeated 2 times], the scoring totals 10+10+10+20 = 50 and
    counts five events (three matched lines and the two repeats); 50
    reaches the threshold of 30, and the marker is appended to the text. *)
Theorem corrupt_log_scoring (v : Vid) (earlier : list Run) (r : Run) :
  runs v = earlier ++ [r] ->
  texts r = corrupt_log ->
  return_code r <> Some 0 ->
  total_severity (score (texts r)) = 10 + 10 + 10 + 20
  /\ corruption_events (score (texts r)) = 5
  /\ SEVERITY_THRESHOLD <= total_severity (score (texts r))
  /\ elaborate_err v =
       Ok (with_runs v
             (earlier ++
              [{| texts :=
                    corrupt_log ++
                    [lit "CORRUPT VIDEO: Total Severity Score 50 from 5 events. FFmpeg error_code="
                     ++ str_of_opt_int (vid_return_code v)];
                  return_code := return_code r;
                  descr := descr r; command := command r |}])).
Proof.
  intros Hruns Htexts Hcode.
  assert (Hscore : score corrupt_log =
            {| total_severity := 50; corruption_events := 5;
               last_score := 0 |}) by (vm_compute; reflexivity).
  rewrite Htexts, Hscore. cbn [total_severity corruption_events].
  repeat split; try (unfold SEVERITY_THRESHOLD; lia).
  unfold elaborate_err. rewrite Hruns, last_item_snoc. cbn [bind].
  rewrite bool_decide_eq_false_2 by exact Hcode.
  rewrite Htexts, Hscore. cbn [total_severity].
  change (SEVERITY_THRESHOLD <=? 50) with true. cbv iota.
  unfold append_text. rewrite (update_last_run_snoc _ v earlier r Hruns).
  rewrite Htexts. reflexivity.
Qed.

Lemma corrupt_log_scoring_witness :
  corruption_events (score (texts
    {| texts := corrupt_log; return_code := Some 1;
       descr := lit "initial run"; command := [] |})) = 5.
Proof.
  exact (proj1 (proj2
    (corrupt_log_scoring (failed_vid corrupt_log) []
       {| texts := corrupt_log; return_code := Some 1;
          descr := lit "initial run"; command := [] |}
       eq_refl eq_refl ltac:(discriminate)))).
Defined.

(** The example's log gives five events, not six. *)
Lemma corrupt_log_events_not_six :
  corruption_events (score corrupt_log) <> 6.
Proof. vm_compute. discriminate. Qed.

Lemma first_signal_severe_pos (line : str) (score : Z) :
  first_signal corruption_signals line = Some score -> 0 < score.
Proof.
  unfold corruption_signals. cbn [first_signal].
  repeat (destruct (contains _ line); [intros [= <-]; lia|]).
  discriminate.
Qed.

Lemma severe_total_nonneg (lines : list str) : 0 <= severe_total lines.
Proof.
  induction lines as [|line rest IH]; [simpl; lia|].
  cbn [severe_total].
  destruct (first_signal corruption_signals line) as [sc|] eqn:E; simpl.
  - apply first_signal_severe_pos in E. lia.
  - lia.
Qed.

(** The early exit of the scan does not change its verdict. *)
Lemma severe_scan_total (lines : list str) :
  forall acc,
    acc < 20 ->
    (severe_scan acc lines = true <-> 20 <= acc + severe_total lines).
Proof.
  induction lines as [|line rest IH]; intros acc Hacc.
  - cbn [severe_scan severe_total]. split; [discriminate | lia].
  - cbn [severe_scan severe_total].
    pose proof (severe_total_nonneg rest) as Hrest.
    destruct (first_signal corruption_signals line) as [sc|] eqn:E; simpl.
    + apply first_signal_severe_pos in E.
      destruct (20 <=? acc + sc) eqn:Hle.
      * apply Z.leb_le in Hle. split; [lia | reflexivity].
      * apply Z.leb_gt in Hle. rewrite IH by exact Hle. lia.
    + rewrite IH by exact Hacc. lia.
Qed.

Lemma existsb_any_line (signals : list str) (lines : list str) :
  existsb (fun signal => any_line_contains signal lines) signals = true <->
  exists signal line,
    In signal signals /\ In line lines /\ contains signal line = true.
Proof.
  rewrite existsb_exists. unfold any_line_contains. split.
  - intros (signal & Hs & Hl). apply existsb_exists in Hl.
    destruct Hl as (line & Hin & Hc). now exists signal, line.
  - intros (signal & line & Hs & Hin & Hc). exists signal. split; [exact Hs|].
    apply existsb_exists. now exists line.
Qed.

(** C8 (as the program has it): the run is eligible for the tolerant
    retry exactly when its exit code is not 0 and either some captured line
    contains one of the three filter messages, or the weights of the three
    severe signals (10, 9, 9; the first that a line contains), summed over
    the lines, reach 20. No repeat line multiplies a weight and no other
    signal counts. A run with exit code 0 is never eligible. *)
Theorem tolerant_retry_eligibility (v : Vid) (earlier : list Run) (r : Run) :
  runs v = earlier ++ [r] ->
  (exists b, _should_retry_with_error_tolerance v = Ok b)
  /\ (_should_retry_with_error_tolerance v = Ok true <->
      return_code r <> Some 0
      /\ ((exists signal line,
             In signal filter_error_signals /\ In line (texts r)
             /\ contains signal line = true)
          \/ 20 <= severe_total (texts r)))
  /\ (return_code r = Some 0 ->
      _should_retry_with_error_tolerance v = Ok false).
Proof.
  intros Hruns. unfold _should_retry_with_error_tolerance.
  rewrite Hruns, last_item_snoc. cbn [bind].
  pose proof (existsb_any_line filter_error_signals (texts r)) as Hf.
  pose proof (severe_scan_total (texts r) 0 ltac:(lia)) as Hs.
  rewrite Z.add_0_l in Hs.
  destruct (bool_decide (return_code r = Some 0)) eqn:Hc.
  - apply bool_decide_eq_true in Hc.
    split; [eauto|]. split; [|reflexivity].
    split; [discriminate | tauto].
  - apply bool_decide_eq_false in Hc.
    destruct (existsb _ filter_error_signals) eqn:He.
    + split; [eauto|]. split; [|contradiction].
      split; [|reflexivity]. intros _. split; [exact Hc|].
      left. now apply Hf.
    + split; [eauto|]. split; [|contradiction].
      split.
      * intros [= Hscan]. split; [exact Hc|]. right. now apply Hs.
      * intros [_ [Hsig | Htot]].
        -- apply Hf in Hsig. discriminate.
        -- f_equal. now apply Hs.
Qed.

Lemma tolerant_retry_eligibility_witness :
  _should_retry_with_error_tolerance (failed_vid corrupt_log) = Ok true.
Proof.
  apply (tolerant_retry_eligibility (failed_vid corrupt_log) []
           {| texts := corrupt_log; return_code := Some 1;
              descr := lit "initial run"; command := [] |} eq_refl).
  split; [discriminate|]. right. vm_compute. discriminate.
Defined.

(** Two runs whose full score reaches 20 (30 with the repeat line, 24
    with a signal of the full table only) and that are not eligible. *)
Lemma full_score_not_consulted :
  (_should_retry_with_error_tolerance
     (failed_vid [lit "corrupt decoded frame";
                  lit "Last message repeated 2 times"]) = Ok false
   /\ 20 <= total_severity
              (score [lit "corrupt decoded frame";
                      lit "Last message repeated 2 times"]))
  /\ (_should_retry_with_error_tolerance
       (failed_vid [lit "damaged at"; lit "damaged at"; lit "damaged at"])
     = Ok false
     /\ 20 <= total_severity
                (score [lit "damaged at"; lit "damaged at";
                        lit "damaged at"])).
Proof. repeat split; vm_compute; congruence. Qed.
End Classifier.

(** ** Progress and stalls *)

Section Progress.
Import Py Re Models JobHandler.

Lemma Qltb_lt (x y : Q) : Qltb x y = true <-> (x < y)%Q.
Proof.
  unfold Qltb. rewrite negb_true_iff, <- not_true_iff_false, Qle_bool_iff.
  split; [apply Qnot_le_lt | apply Qlt_not_le].
Qed.

(** What the monadic steps come to. *)
Ltac run_steps :=
  unfold bindM, ret, monotonic, get_state, set_prev_ffmpeg_out_mono,
    set_progress_line_mono, set_os, update_vid in *;
  cbn beta iota in *.

(** Case analysis on an update of the video that may raise. *)
Ltac vid_step H :=
  match type of H with
  | context [append_text ?t ?v] => destruct (append_text t v) eqn:?
  | context [set_return_code ?c ?v] => destruct (set_return_code c v) eqn:?
  end;
  cbn beta iota in H; [|discriminate].

Ltac finish H :=
  inversion H; subst; clear H;
  split; [|reflexivity];
  try reflexivity;
  match goal with |- ?j = with_ffsubproc _ _ => now destruct j end.

Ltac by_IH IH H :=
  apply IH in H; destruct H as [H ?]; split; [|assumption];
  match goal with
  | |- ?j' = with_ffsubproc ?j _ => now destruct j, j'
  end.

(** The loops change nothing of a job but its monitor, and leave the
    clock alone. *)
Lemma drain_same_job (turns : nat) :
  forall now job st r job' st',
    drain turns now job st = Ok ((r, job'), st') ->
    job' = with_ffsubproc job (ffsubproc job') /\ mono st' = mono st.
Proof.
  induction turns as [|turns IH]; intros now job st r job' st' H.
  - cbn [drain] in H. run_steps. finish H.
  - cbn [drain] in H.
    destruct (1 <? length (FfmpegMon.output_queue (ffsubproc job)))%nat.
    + destruct (FfmpegMon.poll (ffsubproc job)) as [[|text|c] mon].
      * by_IH IH H.
      * run_steps.
        destruct (starts_with PROGRESS_PREFIX text).
        -- by_IH IH H.
        -- run_steps. vid_step H. by_IH IH H.
      * run_steps. vid_step H. finish H.
    + run_steps. finish H.
Qed.

Lemma monitor_same_job (fuel : nat) :
  forall job st r job' st',
    monitor fuel job st = Ok ((r, job'), st') ->
    job' = with_ffsubproc job (ffsubproc job') /\ mono st' = mono st.
Proof.
  induction fuel as [|fuel IH]; intros job st r job' st' H.
  - cbn [monitor] in H. run_steps. finish H.
  - cbn [monitor] in H.
    destruct (FfmpegMon.poll (ffsubproc job)) as [[|text|c] mon].
    + run_steps.
      match type of H with context [if ?b then _ else _] => destruct b end.
      * run_steps. vid_step H.
        destruct (FfmpegMon.stop mon (os st) 254) as [stopped w].
        run_steps. finish H.
      * run_steps. finish H.
    + run_steps.
      match type of H with context [if ?b then _ else _] => destruct b end.
      * by_IH IH H.
      * destruct (search_from PROGRESS_RE 6 text) as [groups|].
        -- run_steps.
           match type of H with context [if ?b then _ else _] =>
             destruct b end.
           ++ run_steps. finish H.
           ++ run_steps. destruct (parse_time groups); run_steps; finish H.
        -- destruct (starts_with PROGRESS_PREFIX text).
           ++ run_steps. finish H.
           ++ run_steps. vid_step H. finish H.
    + run_steps. vid_step H. finish H.
Qed.

Lemma get_job_progress_same_job (fuel : nat) (job : Job) (st : state)
    r job' st' :
  get_job_progress fuel job st = Ok ((r, job'), st') ->
  job' = with_ffsubproc job (ffsubproc job') /\ mono st' = mono st.
Proof.
  unfold get_job_progress. run_steps. intros H.
  match type of H with context [drain ?n ?now ?j ?s] =>
    destruct (drain n now j s) as [[[d job1] st1]|] eqn:Hd;
      [|discriminate] end.
  apply drain_same_job in Hd. destruct Hd as [Hd Hm]. cbn in Hm.
  destruct d as [c|].
  - run_steps. inversion H; subst; clear H. split; assumption.
  - apply monitor_same_job in H. destruct H as [H Hm'].
    split; [|congruence]. rewrite H, Hd. reflexivity.
Qed.




(** The snapshot of the progress group, rendered ten seconds after the
    start of a job whose target lasts 181 seconds: 90.5 seconds are
    encoded, at 9.05 times real time; half is done and ten seconds
    remain. *)
Example progress_of_snapshot :
  forall groups,
    search_from PROGRESS_RE 6
      (lit "PROGRESS:frame=100 fps=0 bitrate=0 time=00:01:30.50 speed=2.0x")
      = Some groups ->
    exists t,
      parse_time groups = Ok t
      /\ (t == 90.5)%Q
      /\ (avg_speed (render t 60 quiet_job) == 9.05)%Q
      /\ (percent_complete (render t 60 quiet_job) == 50)%Q
      /\ option_map Qred (remaining_seconds (render t 60 quiet_job))
         = Some 10%Q.
Proof.
  intros groups H. vm_compute in H. injection H as <-.
  eexists. split; [reflexivity|]. repeat split.
Qed.

Lemma update_last_run_has_run (f : Run -> Run) (v v' : Vid) :
  update_last_run f v = Ok v' -> runs v' <> [].
Proof.
  unfold update_last_run. destruct (last (runs v)); [|discriminate].
  intros H. inversion H. cbn. now destruct (removelast (runs v)).
Qed.

Ltac has_run :=
  cbn [vid];
  match goal with
  | E : append_text _ _ = Ok ?v |- runs ?v <> [] =>
      exact (update_last_run_has_run _ _ _ E)
  | E : set_return_code _ _ = Ok ?v |- runs ?v <> [] =>
      exact (update_last_run_has_run _ _ _ E)
  end.

(** When an exit code is returned, the video has a current run. *)
Lemma drain_exit_has_run (turns : nat) :
  forall now job st c job' st',
    drain turns now job st = Ok ((Some c, job'), st') ->
    runs (vid st') <> [].
Proof.
  induction turns as [|turns IH]; intros now job st c job' st' H.
  - cbn [drain] in H. run_steps. discriminate.
  - cbn [drain] in H.
    destruct (1 <? length (FfmpegMon.output_queue (ffsubproc job)))%nat.
    + destruct (FfmpegMon.poll (ffsubproc job)) as [[|text|c'] mon].
      * now apply IH in H.
      * run_steps.
        destruct (starts_with PROGRESS_PREFIX text).
        -- now apply IH in H.
        -- run_steps. vid_step H. now apply IH in H.
      * run_steps. vid_step H. inversion H; subst; clear H. has_run.
    + run_steps. discriminate.
Qed.

Lemma monitor_exit_has_run (fuel : nat) :
  forall job st c job' st',
    monitor fuel job st = Ok ((Some (Exit c), job'), st') ->
    runs (vid st') <> [].
Proof.
  induction fuel as [|fuel IH]; intros job st c job' st' H.
  - cbn [monitor] in H. run_steps. discriminate.
  - cbn [monitor] in H.
    destruct (FfmpegMon.poll (ffsubproc job)) as [[|text|c'] mon].
    + run_steps.
      match type of H with context [if ?b then _ else _] => destruct b end.
      * run_steps. vid_step H.
        destruct (FfmpegMon.stop mon (os st) 254) as [stopped w].
        run_steps. inversion H; subst; clear H. has_run.
      * run_steps. discriminate.
    + run_steps.
      match type of H with context [if ?b then _ else _] => destruct b end.
      * now apply IH in H.
      * destruct (search_from PROGRESS_RE 6 text) as [groups|].
        -- run_steps.
           match type of H with context [if ?b then _ else _] =>
             destruct b end.
           ++ run_steps. discriminate.
           ++ run_steps. destruct (parse_time groups); run_steps;
                discriminate.
        -- destruct (starts_with PROGRESS_PREFIX text).
           ++ run_steps. discriminate.
           ++ run_steps. vid_step H. discriminate.
    + run_steps. vid_step H. inversion H; subst; clear H. has_run.
Qed.

Lemma get_job_progress_exit_has_run (fuel : nat) (job : Job) (st : state)
    c job' st' :
  get_job_progress fuel job st = Ok ((Some (Exit c), job'), st') ->
  runs (vid st') <> [].
Proof.
  unfold get_job_progress. run_steps. intros H.
  match type of H with context [drain ?n ?now ?j ?s] =>
    destruct (drain n now j s) as [[[d job1] st1]|] eqn:Hd;
      [|discriminate] end.
  destruct d as [c'|].
  - run_steps. inversion H; subst; clear H.
    now apply drain_exit_has_run in Hd.
  - now apply monitor_exit_has_run in H.
Qed.

(** The second loop returns within one turn more than the events queued
    after its first poll: a turn is repeated only to skip a progress line
    that is not the last queued one. *)
Lemma monitor_returns (fuel : nat) :
  forall job st r job' st',
    (length (FfmpegMon.output_queue (snd (FfmpegMon.poll (ffsubproc job))))
       < fuel)%nat ->
    monitor fuel job st = Ok ((r, job'), st') ->
    r <> None.
Proof.
  induction fuel as [|fuel IH]; intros job st r job' st' Hlen H; [lia|].
  cbn [monitor] in H.
  destruct (FfmpegMon.poll (ffsubproc job)) as [[|text|c] mon] eqn:Hp.
  - run_steps.
    match type of H with context [if ?b then _ else _] => destruct b end.
    + run_steps. vid_step H.
      destruct (FfmpegMon.stop mon (os st) 254) as [stopped w].
      run_steps. inversion H; subst. discriminate.
    + run_steps. inversion H; subst. discriminate.
  - run_steps.
    match type of H with context [if ?b then _ else _] =>
      destruct b eqn:Hskip end.
    + apply IH in H; [exact H|]. cbn [ffsubproc with_ffsubproc snd] in *.
      apply andb_true_iff in Hskip. destruct Hskip as [Hq _].
      apply Nat.ltb_lt in Hq.
      unfold FfmpegMon.poll.
      destruct (FfmpegMon.output_queue mon) as [|e q]; cbn in *; lia.
    + destruct (search_from PROGRESS_RE 6 text) as [groups|].
      * run_steps.
        match type of H with context [if ?b then _ else _] =>
          destruct b end.
        -- run_steps. inversion H; subst. discriminate.
        -- run_steps. destruct (parse_time groups); run_steps;
             inversion H; subst; discriminate.
      * destruct (starts_with PROGRESS_PREFIX text).
        -- run_steps. inversion H; subst. discriminate.
        -- run_steps. vid_step H. inversion H; subst. discriminate.
  - run_steps. vid_step H. inversion H; subst. discriminate.
Qed.

(** [get_job_progress] returns (or raises) whenever it is given enough
    turns. *)
Lemma get_job_progress_returns (job : Job) (st : state) :
  exists N, forall fuel r job' st',
    (N <= fuel)%nat ->
    get_job_progress fuel job st = Ok ((r, job'), st') ->
    r <> None.
Proof.
  unfold get_job_progress. run_steps.
  match goal with |- context [drain ?n ?now ?j ?s] =>
    destruct (drain n now j s) as [[[d job1] st1]|] eqn:Hd end.
  - destruct d as [c|].
    + exists 0%nat. intros fuel r job' st' _ H. run_steps.
      inversion H; subst. discriminate.
    + exists (S (length (FfmpegMon.output_queue
                           (snd (FfmpegMon.poll (ffsubproc job1)))))).
      intros fuel r job' st' Hle H.
      apply monitor_returns in H; [exact H | lia].
  - exists 0%nat. intros fuel r job' st' _ H. discriminate.
Qed.

Lemma poll_noevent_queue (m mon : FfmpegMon.t) :
  FfmpegMon.poll m = (FfmpegMon.NoEvent, mon) ->
  FfmpegMon.output_queue m = [].
Proof.
  unfold FfmpegMon.poll. now destruct (FfmpegMon.output_queue m).
Qed.

(** A stopped monitor never answers [None]: it hands out what is left in
    its queue, then its code. *)
Lemma stopped_poll (c : Z) (m : FfmpegMon.t) :
  stopped_with c m ->
  fst (FfmpegMon.poll m) <> FfmpegMon.NoEvent
  /\ stopped_with c (snd (FfmpegMon.poll m)).
Proof.
  intros [Hp Hc]. unfold FfmpegMon.poll.
  destruct (FfmpegMon.output_queue m).
  - rewrite Hp, Hc. cbn. split; [discriminate | now split].
  - cbn. split; [discriminate | now split].
Qed.

Lemma stopped_polled (c : Z) (m : FfmpegMon.t) (n : nat) :
  stopped_with c m -> stopped_with c (FfmpegMon.polled n m).
Proof.
  intros H. induction n as [|n IH]; [exact H|].
  unfold FfmpegMon.polled in *. cbn [Nat.iter].
  now apply stopped_poll.
Qed.

(** C7: when the poll of [get_job_progress] returns no event and the
    clock is more than the stall threshold past the last output, the call
    appends [PROGRESS TIMEOUT] to the text of the current run, stops the
    monitor with the code 254 ([stop] removes the registered temporary file
    unless the removal fails), returns 254, and sets the last-output clock
    1,000,000 seconds ahead. After that the monitor has no process and
    holds the code 254: no later poll of this job returns no event, so the
    stall branch is never taken again. *)
Theorem stall_breaker (fuel : nat) (job : Job) (st : state)
    (mon : FfmpegMon.t) (v' : Vid) :
  FfmpegMon.poll (ffsubproc job) = (FfmpegMon.NoEvent, mon) ->
  (progress_secs_max (opts st)
     < mono st (S (ticks st)) - prev_ffmpeg_out_mono st)%Q ->
  append_text (lit "PROGRESS TIMEOUT") (vid st) = Ok v' ->
  exists job' st',
    get_job_progress (S fuel) job st = Ok ((Some (Exit 254), job'), st')
    /\ vid st' = v'
    /\ (ffsubproc job', os st') = FfmpegMon.stop mon (os st) 254
    /\ (forall f, FfmpegMon.temp_file mon = Some f -> f <> ""%string ->
           f ∉ FfmpegMon.protected (os st) ->
           f ∉ FfmpegMon.files (os st'))
    /\ prev_ffmpeg_out_mono st'
         = (mono st (S (ticks st)) + 1000000)%Q
    /\ stopped_with 254 (ffsubproc job')
    /\ forall n,
         fst (FfmpegMon.poll (FfmpegMon.polled n (ffsubproc job')))
           <> FfmpegMon.NoEvent.
Proof.
  intros Hpoll Hlate Happ.
  pose proof (poll_noevent_queue _ _ Hpoll) as Hq.
  apply Qltb_lt in Hlate.
  unfold get_job_progress. run_steps. rewrite Hq. cbn [length drain].
  run_steps. cbn [monitor]. rewrite Hpoll. run_steps.
  cbn [opts progress_line_mono prev_ffmpeg_out_mono vid os mono ticks
       launches quoted_cmd].
  rewrite Hlate.
  cbn [opts progress_line_mono prev_ffmpeg_out_mono vid os mono ticks
       launches quoted_cmd].
  rewrite Happ.
  cbn [opts progress_line_mono prev_ffmpeg_out_mono vid os mono ticks
       launches quoted_cmd].
  destruct (FfmpegMon.stop mon (os st) 254) as [stopped w] eqn:Hstop.
  run_steps. eexists _, _. split; [reflexivity|].
  cbn [opts progress_line_mono prev_ffmpeg_out_mono vid os mono ticks
       launches quoted_cmd ffsubproc with_ffsubproc].
  assert (Hs : stopped_with 254 stopped).
  { unfold FfmpegMon.stop in Hstop. inversion Hstop. now split. }
  split; [reflexivity|]. split; [reflexivity|]. split; [|split; [reflexivity|]].
  - intros f Hf Hne Hprot.
    unfold FfmpegMon.stop in Hstop. inversion Hstop as [[Hm Hw]].
    rewrite Hf. apply String.eqb_neq in Hne. rewrite Hne. cbn [negb andb].
    unfold FfmpegMon.exists_file, FfmpegMon.unlink_quiet.
    destruct (FfmpegMon.process mon) as [p|];
      [destruct (FfmpegMon.popen_poll p)|];
      cbn [FfmpegMon.files FfmpegMon.protected];
      case_bool_decide; cbn [FfmpegMon.files FfmpegMon.protected];
      rewrite ?bool_decide_eq_false_2 by assumption;
      cbn [FfmpegMon.files];
      first [ assumption
            | rewrite elem_of_difference, elem_of_singleton; tauto ].
  - split; [exact Hs|]. intros n.
    apply stopped_poll with (c := 254). now apply stopped_polled.
Qed.

Lemma stall_breaker_witness :
  exists job' st',
    get_job_progress 1 quiet_job quiet_state
      = Ok ((Some (Exit 254), job'), st')
    /\ "TEMP.a.mkv"%string ∉ FfmpegMon.files (os st').
Proof.
  destruct (stall_breaker 0 quiet_job quiet_state
              (snd (FfmpegMon.poll (ffsubproc quiet_job)))
              (with_runs (vid quiet_state)
                 [{| texts := [lit "PROGRESS TIMEOUT"];
                     return_code := Some 1;
                     descr := lit "initial run"; command := [] |}])
              eq_refl eq_refl eq_refl)
    as (job' & st' & Hrun & _ & _ & Hfile & _).
  exists job', st'. split; [exact Hrun|].
  apply (Hfile "TEMP.a.mkv"%string); [reflexivity | discriminate |].
  cbn. set_solver.
Defined.
End Progress.

(** ** The retry ladder *)

Section Ladder.
Import Py Re Models JobHandler.

Ltac run_steps :=
  unfold bindM, ret, monotonic, get_state, set_prev_ffmpeg_out_mono,
    set_progress_line_mono, set_os, update_vid in *;
  cbn beta iota in *.

(** One case analysis on the outcome of a step that may raise or
    branch. *)
Ltac break H :=
  match type of H with
  | context [if ?b then _ else _] => destruct b eqn:?
  | context [match ?c with Ok _ => _ | Raise _ => _ end] =>
      destruct c as [?|?] eqn:?
  end;
  cbn beta iota in H; try discriminate.

Lemma bindM_ok {A B : Type} (c : M A) (k : A -> M B) (st : state)
    (b : B) (st' : state) :
  bindM c k st = Ok (b, st') ->
  exists a st1, c st = Ok (a, st1) /\ k a st1 = Ok (b, st').
Proof.
  unfold bindM. destruct (c st) as [[a st1]|e]; [|discriminate].
  intros H. now exists a, st1.
Qed.

Tactic Notation "bind_inv" hyp(H) "as" ident(x) ident(s) ident(Hc) :=
  apply bindM_ok in H; destruct H as (x & s & Hc & H).

Ltac bind_skip H :=
  let x := fresh "x" in
  let s := fresh "st" in
  let Hc := fresh "Hc" in
  apply bindM_ok in H; destruct H as (x & s & Hc & H).

(** A started job carries the flags it was started with. *)
Lemma start_transcode_job_flags (r f : bool) (st : state) (new : Job)
    (st' : state) :
  start_transcode_job r f st = Ok (new, st') ->
  is_retry new = r /\ is_software_fallback new = f.
Proof.
  unfold start_transcode_job. intros H.
  do 8 bind_skip H.
  destruct (FfmpegMon.start _ _ _ _) as [[u|e] mon]; [|discriminate].
  do 3 bind_skip H.
  unfold ret in H. inversion H. split; reflexivity.
Qed.

(** What a call of [check_job_status] comes to, by what
    [get_job_progress] returned: the same job while it runs; on an exit
    code, a retry of the next tier or the end. *)
Lemma check_job_status_cases (fuel : nat) (job : Job) (st : state)
    (out : option Job * report * bool) (st' : state) :
  check_job_status fuel job st = Ok (Some out, st') ->
  exists g job1 st1,
    get_job_progress fuel job st = Ok ((Some g, job1), st1)
    /\ is_retry job1 = is_retry job
    /\ is_software_fallback job1 = is_software_fallback job
    /\ match g with
       | Nothing => out = (Some job1, Quiet, false)
       | Update p => out = (Some job1, ProgressLine p, false)
       | Exit c =>
           (exists new,
              out = (Some new, Text (lit "RETRYING (Tolerant)..."), false)
              /\ c <> 0
              /\ is_retry job = false /\ is_software_fallback job = false
              /\ is_retry new = true /\ is_software_fallback new = false)
           \/ (exists new,
                 out = (Some new, Text (lit "RETRYING (Software)..."), false)
                 /\ c <> 0
                 /\ is_retry job = true /\ is_software_fallback job = false
                 /\ is_retry new = true /\ is_software_fallback new = true)
           \/ out = (None,
                     Text (if c =? 0 then
                             if is_software_fallback job then lit "OK3"
                             else if is_retry job then lit "OK2"
                             else lit " OK"
                           else lit "ERR"),
                     true)
       end.
Proof.
  unfold check_job_status. intros H. bind_inv H as gj st1 Hg.
  destruct gj as [g job1].
  pose proof (get_job_progress_same_job _ _ _ _ _ _ Hg) as [Hsame _].
  assert (Hr : is_retry job1 = is_retry job) by (rewrite Hsame; reflexivity).
  assert (Hf : is_software_fallback job1 = is_software_fallback job)
    by (rewrite Hsame; reflexivity).
  destruct g as [[|p|c]|]; unfold ret in H; try discriminate.
  - inversion H; subst. exists Nothing, job1, st'. auto.
  - inversion H; subst. exists (Update p), job1, st'. auto.
  - exists (Exit c), job1, st1.
    split; [exact Hg|]. split; [exact Hr|]. split; [exact Hf|].
    bind_inv H as u1 st2 Hset. bind_inv H as cur st3 Hcur.
    bind_inv H as tolerant st4 Htol.
    destruct tolerant.
    + (* tolerant retry *)
      bind_inv H as new st5 Hnew. unfold ret in H. inversion H; subst.
      apply start_transcode_job_flags in Hnew. destruct Hnew as [Hr' Hf'].
      left. exists new.
      destruct (negb (c =? 0) && negb (is_retry job1)
                && negb (is_software_fallback job1)) eqn:Hcond;
        [|unfold ret in Htol; discriminate].
      apply andb_true_iff in Hcond. destruct Hcond as [Hcond Hsw].
      apply andb_true_iff in Hcond. destruct Hcond as [Hne Hre].
      apply negb_true_iff in Hne, Hre, Hsw. apply Z.eqb_neq in Hne.
      repeat split; congruence.
    + bind_inv H as software st5 Hsoft. destruct software.
      * (* software retry *)
        bind_inv H as new st6 Hnew. unfold ret in H. inversion H; subst.
        apply start_transcode_job_flags in Hnew. destruct Hnew as [Hr' Hf'].
        right. left. exists new.
        destruct (negb (c =? 0) && is_retry job1
                  && negb (is_software_fallback job1)) eqn:Hcond;
          [|unfold ret in Hsoft; discriminate].
        apply andb_true_iff in Hcond. destruct Hcond as [Hcond Hsw].
        apply andb_true_iff in Hcond. destruct Hcond as [Hne Hre].
        apply negb_true_iff in Hne, Hsw. apply Z.eqb_neq in Hne.
        repeat split; congruence.
      * unfold ret in H. inversion H; subst. right. right.
        rewrite Hr, Hf. reflexivity.
Qed.

Lemma tier_flags (j1 j2 : Job) :
  is_retry j1 = is_retry j2 ->
  is_software_fallback j1 = is_software_fallback j2 ->
  tier j1 = tier j2.
Proof. unfold tier. now intros -> ->. Qed.

(** The tiers a run of the ladder starts, by the tier it starts from. *)
Lemma drive_tiers (calls : nat) :
  forall fuel job st,
    let ts := retry_tiers (drive calls fuel job st) in
    match tier job with
    | 0%nat => ts = [] \/ ts = [1%nat] \/ ts = [1%nat; 2%nat]
    | 1%nat => ts = [] \/ ts = [2%nat]
    | _ => ts = []
    end.
Proof.
  induction calls as [|calls IH]; intros fuel job st ts; subst ts.
  - cbn. destruct (tier job) as [|[|?]]; auto.
  - cbn [drive].
    destruct (check_job_status fuel job st) as [[[out|] st']|e] eqn:Hc.
    2,3: cbn; destruct (tier job) as [|[|?]]; auto.
    apply check_job_status_cases in Hc.
    destruct Hc as (g & job1 & st1 & _ & Hr & Hf & Hout).
    pose proof (tier_flags _ _ Hr Hf) as Ht.
    destruct g as [|p|c].
    + subst out. cbn [retry_tiers]. specialize (IH fuel job1 st').
      cbv zeta in IH. now rewrite Ht in IH.
    + subst out. cbn [retry_tiers]. specialize (IH fuel job1 st').
      cbv zeta in IH. now rewrite Ht in IH.
    + destruct Hout as [(new & -> & _ & Hj1 & Hj2 & Hn1 & Hn2)
                       |[(new & -> & _ & Hj1 & Hj2 & Hn1 & Hn2) | ->]].
      * cbn [retry_tiers]. specialize (IH fuel new st'). cbv zeta in IH.
        unfold tier in *. rewrite Hj1, Hj2. rewrite Hn1, Hn2 in *.
        destruct IH as [-> | ->]; auto.
      * cbn [retry_tiers]. specialize (IH fuel new st'). cbv zeta in IH.
        unfold tier in *. rewrite Hj1, Hj2. rewrite Hn1, Hn2 in *.
        rewrite IH. auto.
      * cbn. destruct (tier job) as [|[|?]]; auto.
Qed.

(** C3: a tolerant retry is started only from a job with neither flag
    and gives a job flagged as retry; a software retry only from a retry
    job that is no software fallback, and gives a job with both flags; an
    exit code on a software-fallback job ends the job ([OK3] or [ERR]). Over
    the calls of [check_job_status] from a first-tier job, the tiers of the
    retries started are none, the second, or the second then the third: at
    most two retries, no tier twice. *)
Theorem retry_ladder_tiers :
  (forall fuel job st new msg done st',
     check_job_status fuel job st
       = Ok (Some (Some new, Text msg, done), st') ->
     done = false
     /\ ((msg = lit "RETRYING (Tolerant)..."
          /\ is_retry job = false /\ is_software_fallback job = false
          /\ is_retry new = true /\ is_software_fallback new = false)
         \/ (msg = lit "RETRYING (Software)..."
             /\ is_retry job = true /\ is_software_fallback job = false
             /\ is_retry new = true /\ is_software_fallback new = true)))
  /\ (forall fuel job st c job1 st1,
        is_software_fallback job = true ->
        get_job_progress fuel job st = Ok ((Some (Exit c), job1), st1) ->
        exists st',
          check_job_status fuel job st
            = Ok (Some (None,
                        Text (if c =? 0 then lit "OK3" else lit "ERR"),
                        true), st'))
  /\ (forall calls fuel job st,
        tier job = 0%nat ->
        let ts := retry_tiers (drive calls fuel job st) in
        (ts = [] \/ ts = [1%nat] \/ ts = [1%nat; 2%nat])
        /\ (length ts <= 2)%nat /\ NoDup ts).
Proof.
  split; [|split].
  - intros fuel job st new msg done st' H.
    apply check_job_status_cases in H.
    destruct H as (g & job1 & st1 & _ & _ & _ & Hout).
    destruct g as [|p|c]; try discriminate.
    destruct Hout as [(n & E & _ & ?) | [(n & E & _ & ?) | E]];
      inversion E; subst; split; auto.
  - intros fuel job st c job1 st1 Hsw Hg.
    pose proof (get_job_progress_same_job _ _ _ _ _ _ Hg) as [Hsame _].
    assert (Hf : is_software_fallback job1 = true)
      by (rewrite Hsame; exact Hsw).
    pose proof (get_job_progress_exit_has_run _ _ _ _ _ _ Hg) as Hrun.
    unfold check_job_status, bindM. rewrite Hg.
    unfold update_vid, set_return_code, update_last_run.
    destruct (last (runs (vid st1))) as [r|] eqn:Hlast.
    2: { apply last_None in Hlast. contradiction. }
    unfold get_state, ret. rewrite Hf. rewrite !andb_false_r.
    destruct (c =? 0); eexists; reflexivity.
  - intros calls fuel job st Ht ts. subst ts.
    pose proof (drive_tiers calls fuel job st) as H. cbv zeta in H.
    rewrite Ht in H. split; [exact H|].
    destruct H as [-> | [-> | ->]]; cbn; split; try lia.
    + constructor.
    + apply NoDup_singleton.
    + apply NoDup_cons. split; [|apply NoDup_singleton].
      rewrite list_elem_of_singleton. discriminate.
Qed.

(** A whole run of the ladder: the first attempt and the tolerant retry
    fail on a filter reinitialization, the software retry succeeds. *)
Example ladder_run :
  ladder_reports 12 =
    [Quiet; Text (lit "RETRYING (Tolerant)..."); Quiet;
     Text (lit "RETRYING (Software)..."); Text (lit "OK3")].
Proof. vm_compute. reflexivity. Qed.
End Ladder.

(** ** The probe cache *)

Section Probe.
Import Py ProbeCache.
Variable float_bloat : Z -> Z -> Z.
Variable float_gb : Z -> Q.

(** C9 (the program departs from it): when the cache has no valid entry
    for the path and the extraction with [ffprobe] returns [None], [get]
    passes that [None] to [_compute_fields] and raises [AttributeError]; no
    failure value is returned. *)
Theorem get_raises_on_failed_probe (e : env) (pc : t) (filepath : string) :
  fst (_get_valid_entry float_bloat float_gb e pc filepath) = Ok None ->
  fst (_get_metadata_with_ffprobe e
         (snd (_get_valid_entry float_bloat float_gb e pc filepath))
         filepath) = Ok None ->
  fst (get float_bloat float_gb e pc filepath) = Raise AttributeError.
Proof.
  unfold get. intros Hvalid Hprobe.
  destruct (_get_valid_entry float_bloat float_gb e pc filepath)
    as [r pc1]. cbn [fst snd] in *. subst r.
  destruct (_get_metadata_with_ffprobe e pc1 filepath) as [r pc2].
  cbn [fst] in *. subst r. reflexivity.
Qed.

(** A cached or freshly probed record is returned with its computed
    fields. *)
Lemma get_returns_record (e : env) (pc : t) (filepath : string)
    (meta : option Meta) :
  fst (get float_bloat float_gb e pc filepath) = Ok meta ->
  exists m, meta = Some m /\ bloat m <> None /\ gb m <> None.
Proof.
  unfold get, _get_valid_entry, _load_probe_data, _compute_fields.
  destruct (_get_file_size_info e filepath) as [size|].
  - destruct (cache_data pc !! filepath) as [en|] eqn:Hen.
    + destruct (negb (bool_decide (fields en = disk_fields))).
      * destruct (_get_metadata_with_ffprobe e _ filepath) as [[[m|]|x] pc2];
          cbn; intros H; inversion H; eauto.
      * destruct (negb (size_bytes (stored en) =? size)).
        -- destruct (_get_metadata_with_ffprobe e _ filepath)
             as [[[m|]|x] pc2]; cbn; intros H; inversion H; eauto.
        -- cbn. intros H. inversion H. eauto.
    + destruct (_get_metadata_with_ffprobe e _ filepath) as [[[m|]|x] pc2];
        cbn; intros H; inversion H; eauto.
  - destruct (_get_metadata_with_ffprobe e _ filepath) as [[[m|]|x] pc2];
      cbn; intros H; inversion H; eauto.
Qed.
End Probe.

Lemma get_raises_on_failed_probe_witness :
  fst (ProbeCache.get (fun _ _ => 0) (fun _ => 0%Q) ProbeCache.bare_env
         ProbeCache.empty_cache "TEMP.a.mkv")
  = Py.Raise Py.AttributeError.
Proof.
  apply get_raises_on_failed_probe; reflexivity.
Defined.

(** ** Stopping and restarting a monitor *)

Section Stopping.
Import Py FfmpegMon.

(** [stop] keeps the events already queued: the polls after it return
    them in order and then the code given to [stop], whatever the child was
    doing; the stopped monitor can be started again, and the events left over
    are then returned before those of the new child. *)
Lemma stop_keeps_queue (m : t) (w : world) (code : Z) :
  collect (S (length (output_queue m))) (fst (stop m w code))
    = (output_queue m, Some code)
  /\ (forall cmd tf p,
        start (fst (stop m w code)) cmd tf (Launched p)
          = (Ok tt,
             {| process := Some p; partial_line := [];
                output_queue := output_queue m; return_code := Some code;
                temp_file := tf; progress_buffer := ∅ |}))
  /\ (forall cmd tf reads c,
        let restarted :=
          snd (start (fst (stop m w code)) cmd tf
                 (Launched (child reads false c))) in
        exists n,
          collect n restarted
            = (output_queue m ++ events_of (stream reads), Some c)).
Proof.
  split; [|split].
  - unfold stop. cbn [fst].
    replace (S (length (output_queue m)))
      with (length (output_queue m) + 1)%nat by lia.
    rewrite collect_queue. cbn. now rewrite app_nil_r.
  - intros cmd tf p. reflexivity.
  - intros cmd tf reads c. cbn zeta. unfold stop, start. cbn [fst snd process].
    destruct (collect_running reads false false [] ∅ (Some code) tf c)
      as [n Hn]; [intros []|].
    exists (length (output_queue m) + n)%nat.
    unfold child. cbn [partial_line output_queue return_code progress_buffer].
    rewrite collect_queue, Hn. reflexivity.
Qed.
End Stopping.

(** ** The tiers of the ladder *)

Section Tiers.
Import Py Re Models JobHandler.

(** The software retry is narrower than the tolerant retry: whenever
    [_should_retry_with_software] says yes, so does
    [_should_retry_with_error_tolerance], and they raise together (on a video
    without a run). A failed run whose only signal is the reconfiguration
    of the filter graph is eligible for the tolerant retry and not for the
    software retry. *)
Lemma software_retry_narrower (v : Vid) :
  match _should_retry_with_software v with
  | Ok true => _should_retry_with_error_tolerance v = Ok true
  | Ok false => exists b, _should_retry_with_error_tolerance v = Ok b
  | Raise x => _should_retry_with_error_tolerance v = Raise x
  end
  /\ forall earlier r,
       runs v = earlier ++ [r] ->
       return_code r <> Some 0 ->
       any_line_contains
         (lit "Reconfiguring filter graph because video parameters changed")
         (texts r) = true ->
       existsb (fun signal => any_line_contains signal (texts r))
         filter_reconfig_signals = false ->
       _should_retry_with_error_tolerance v = Ok true
       /\ _should_retry_with_software v = Ok false.
Proof.
  split.
  - unfold _should_retry_with_software, _should_retry_with_error_tolerance.
    destruct (last_item (runs v)) as [r|x]; cbn [bind]; [|reflexivity].
    case_bool_decide; [eauto|].
    unfold filter_reconfig_signals, filter_error_signals.
    cbn [map existsb]. rewrite !orb_false_r.
    destruct (any_line_contains (lit "Error reinitializing filters")
                (texts r)); cbn [orb]; [reflexivity|].
    destruct (any_line_contains
                (lit "Impossible to convert between the formats")
                (texts r)); cbn [orb]; [reflexivity|].
    destruct (any_line_contains _ (texts r)); eauto.
  - intros earlier r Hr Hcode Hre Hno.
    unfold _should_retry_with_software, _should_retry_with_error_tolerance.
    rewrite Hr, last_item_snoc. cbn [bind].
    rewrite bool_decide_eq_false_2 by exact Hcode.
    rewrite Hno. split; [|reflexivity].
    unfold filter_error_signals. cbn [map existsb].
    rewrite Hre, !orb_true_r. reflexivity.
Qed.
End Tiers.

(** ** What a supervision call changes *)

Section Supervision.
Import Py Re Models JobHandler.

Ltac run_steps :=
  unfold bindM, ret, monotonic, get_state, set_prev_ffmpeg_out_mono,
    set_progress_line_mono, set_os, update_vid in *;
  cbn beta iota in *.

Ltac vid_step H :=
  match type of H with
  | context [append_text ?t ?v] => destruct (append_text t v) eqn:?
  | context [set_return_code ?c ?v] => destruct (set_return_code c v) eqn:?
  end;
  cbn beta iota in H; [|discriminate].

Ltac fields :=
  cbn [opts progress_line_mono prev_ffmpeg_out_mono vid os mono ticks
       launches quoted_cmd] in *.

Lemma run_grows_refl (v : Vid) : run_grows v v [] None.
Proof. split; [now destruct v | left; auto]. Qed.

Lemma update_last_run_inv (f : Run -> Run) (v v' : Vid) :
  update_last_run f v = Ok v' ->
  exists earlier r,
    runs v = earlier ++ [r] /\ v' = with_runs v (earlier ++ [f r]).
Proof.
  unfold update_last_run. destruct (last (runs v)) as [r|] eqn:Hl;
    [|discriminate].
  apply last_Some in Hl. destruct Hl as [earlier Hl].
  intros H. inversion H. exists earlier, r. split; [exact Hl|].
  now rewrite Hl, removelast_last.
Qed.

Lemma run_grows_append (t : str) (v v' : Vid) :
  append_text t v = Ok v' -> run_grows v v' [t] None.
Proof.
  intros H. apply update_last_run_inv in H.
  destruct H as (earlier & r & Hr & ->). split; [reflexivity|].
  right. exists earlier, r. split; [exact Hr | reflexivity].
Qed.

Lemma run_grows_code (c : Z) (v v' : Vid) :
  set_return_code c v = Ok v' -> run_grows v v' [] (Some c).
Proof.
  intros H. apply update_last_run_inv in H.
  destruct H as (earlier & r & Hr & ->). split; [reflexivity|].
  right. exists earlier, r. split; [exact Hr|]. cbn.
  now rewrite app_nil_r.
Qed.

Lemma run_grows_trans (v1 v2 v3 : Vid) (a1 a2 : list str) (c : option Z) :
  run_grows v1 v2 a1 None -> run_grows v2 v3 a2 c ->
  run_grows v1 v3 (a1 ++ a2) c.
Proof.
  intros [E1 H1] [E2 H2]. split.
  { rewrite E2, E1. reflexivity. }
  destruct H1 as [(R1 & -> & _) | (e1 & r1 & R1 & R1')].
  - destruct H2 as [(R2 & -> & ->) | (e2 & r2 & R2 & R2')].
    + left. repeat split. congruence.
    + right. exists e2, r2. split; [congruence | exact R2'].
  - destruct H2 as [(R2 & -> & ->) | (e2 & r2 & R2 & R2')].
    + right. exists e1, r1. split; [exact R1|].
      rewrite R2, R1', app_nil_r. reflexivity.
    + right. exists e1, r1. split; [exact R1|].
      rewrite R1' in R2. apply app_inj_tail in R2. destruct R2 as [-> <-].
      rewrite R2'. cbn [texts return_code descr command].
      now rewrite app_assoc.
Qed.

Lemma drain_effect (turns : nat) :
  forall now job st r job' st',
    drain turns now job st = Ok ((r, job'), st') ->
    steady st st'
    /\ progress_line_mono st' = progress_line_mono st
    /\ exists added,
         run_grows (vid st) (vid st') added r /\ log_lines added.
Proof.
  induction turns as [|turns IH]; intros now job st r job' st' H.
  - cbn [drain] in H. run_steps. inversion H; subst.
    repeat split. exists []. split; [apply run_grows_refl | constructor].
  - cbn [drain] in H.
    destruct (1 <? length (FfmpegMon.output_queue (ffsubproc job)))%nat.
    + destruct (FfmpegMon.poll (ffsubproc job)) as [[|text|c] mon].
      * now apply IH in H.
      * run_steps.
        destruct (starts_with PROGRESS_PREFIX text) eqn:Hp.
        -- apply IH in H. fields. exact H.
        -- run_steps. vid_step H. apply IH in H. fields.
           destruct H as (Hs & Hm & added & Hg & Hl).
           split; [exact Hs|]. split; [exact Hm|].
           exists ([text] ++ added). split.
           ++ eapply run_grows_trans; [|exact Hg].
              now apply run_grows_append.
           ++ constructor; assumption.
      * run_steps. vid_step H. inversion H; subst; clear H. fields.
        repeat split. exists []. split; [|constructor].
        now apply run_grows_code.
    + run_steps. inversion H; subst.
      repeat split. exists []. split; [apply run_grows_refl | constructor].
Qed.

Lemma Qltb_ge (x y : Q) : Qltb x y = false -> (y <= x)%Q.
Proof.
  unfold Qltb. intros H. apply negb_false_iff in H.
  now apply Qle_bool_iff.
Qed.

Lemma elapsed_real_render (t now : Q) (job : Job) :
  elapsed_real (render t now job) = (now - start_mono job)%Q.
Proof. unfold render. now destruct (_ && _). Qed.

Lemma monitor_effect (fuel : nat) :
  forall job st r job' st',
    monitor fuel job st = Ok ((r, job'), st') ->
    steady st st'
    /\ (progress_line_mono st' = progress_line_mono st
        \/ (1.8 <= progress_line_mono st' - progress_line_mono st)%Q)
    /\ (forall p, r = Some (Update p) ->
          (1.8 <= progress_line_mono st' - progress_line_mono st)%Q
          /\ elapsed_real p = (progress_line_mono st' - start_mono job)%Q)
    /\ exists added code,
         run_grows (vid st) (vid st') added code
         /\ log_lines added /\ recorded r added code.
Proof.
  induction fuel as [|fuel IH]; intros job st r job' st' H.
  - cbn [monitor] in H. run_steps. inversion H; subst.
    repeat split; auto; try discriminate.
    exists [], None. split; [apply run_grows_refl|].
    split; [constructor | now left].
  - cbn [monitor] in H.
    destruct (FfmpegMon.poll (ffsubproc job)) as [[|text|c] mon].
    + (* no event *)
      run_steps.
      match type of H with context [if ?b then _ else _] => destruct b end.
      * run_steps. vid_step H.
        destruct (FfmpegMon.stop mon (os st) 254) as [stopped w].
        run_steps. inversion H; subst; clear H. fields.
        repeat split; auto; try discriminate.
        exists [lit "PROGRESS TIMEOUT"], None.
        split; [now apply run_grows_append|]. split.
        -- constructor; [reflexivity | constructor].
        -- right. repeat split. now exists [].
      * run_steps. inversion H; subst; clear H. fields.
        repeat split; auto; try discriminate.
        exists [], None. split; [apply run_grows_refl|].
        split; [constructor | now left].
    + (* a line *)
      run_steps.
      match type of H with context [if ?b then _ else _] => destruct b end.
      * apply IH in H. fields. cbn [start_mono with_ffsubproc] in H.
        exact H.
      * destruct (search_from PROGRESS_RE 6 text) as [groups|].
        -- run_steps.
           match type of H with context [if ?b then _ else _] =>
             destruct b eqn:Hthrottle end.
           ++ run_steps. inversion H; subst; clear H. fields.
              repeat split; auto; try discriminate.
              exists [], None. split; [apply run_grows_refl|].
              split; [constructor | now left].
           ++ run_steps. fields. apply Qltb_ge in Hthrottle.
              destruct (parse_time groups) as [t|]; run_steps;
                inversion H; subst; clear H; fields.
              ** split; [repeat split|]. split; [right; exact Hthrottle|].
                 split.
                 --- intros q Hq. inversion Hq. split; [exact Hthrottle|].
                     now rewrite elapsed_real_render.
                 --- exists [], None. split; [apply run_grows_refl|].
                     split; [constructor | now left].
              ** split; [repeat split|]. split; [right; exact Hthrottle|].
                 split; [discriminate|].
                 exists [], None. split; [apply run_grows_refl|].
                 split; [constructor | now left].
        -- destruct (starts_with PROGRESS_PREFIX text) eqn:Hp.
           ++ run_steps. inversion H; subst; clear H. fields.
              repeat split; auto; try discriminate.
              exists [], None. split; [apply run_grows_refl|].
              split; [constructor | now left].
           ++ run_steps. vid_step H. inversion H; subst; clear H. fields.
              repeat split; auto; try discriminate.
              exists [text], None. split; [now apply run_grows_append|].
              split; [|now left].
              constructor; [exact Hp | constructor].
    + (* the exit code *)
      run_steps. vid_step H. inversion H; subst; clear H. fields.
      repeat split; auto; try discriminate.
      exists [], (Some c). split; [now apply run_grows_code|].
      split; [constructor | now left].
Qed.

Lemma recorded_app (r : option got) (a1 a2 : list str) (code : option Z) :
  recorded r a2 code -> recorded r (a1 ++ a2) code.
Proof.
  intros [H | (H1 & H2 & before & ->)]; [now left | right].
  repeat split; try assumption. exists (a1 ++ before).
  now rewrite app_assoc.
Qed.

Lemma get_job_progress_effect (fuel : nat) (job : Job) (st : state)
    r job' st' :
  get_job_progress fuel job st = Ok ((r, job'), st') ->
  steady st st'
  /\ (progress_line_mono st' = progress_line_mono st
      \/ (1.8 <= progress_line_mono st' - progress_line_mono st)%Q)
  /\ (forall p, r = Some (Update p) ->
        (1.8 <= progress_line_mono st' - progress_line_mono st)%Q
        /\ elapsed_real p = (progress_line_mono st' - start_mono job)%Q)
  /\ exists added code,
       run_grows (vid st) (vid st') added code
       /\ log_lines added /\ recorded r added code.
Proof.
  unfold get_job_progress. run_steps. intros H.
  match type of H with context [drain ?n ?now ?j ?s] =>
    destruct (drain n now j s) as [[[d job1] st1]|] eqn:Hd;
      [|discriminate] end.
  pose proof (drain_same_job _ _ _ _ _ _ _ Hd) as [Hjob _].
  apply drain_effect in Hd. unfold steady in Hd. fields.
  destruct Hd as ((Ho & Hl & Hq & Hm) & Hp & added1 & Hg1 & Hl1).
  destruct d as [c|].
  - run_steps. inversion H; subst; clear H.
    split; [repeat split; assumption|]. split; [now left|].
    split; [discriminate|].
    exists added1, (Some c). split; [exact Hg1|]. split; [exact Hl1|].
    now left.
  - apply monitor_effect in H.
    destruct H as ((Ho' & Hl' & Hq' & Hm') & Hp' & Hu & added2 & code
                   & Hg2 & Hl2 & Hrec).
    split; [repeat split; congruence|].
    split; [rewrite <- Hp; exact Hp'|]. split.
    + intros p E. rewrite <- Hp. rewrite Hjob in Hu. exact (Hu p E).
    + exists (added1 ++ added2), code.
      split; [eapply run_grows_trans; eassumption|].
      split; [now apply Forall_app | now apply recorded_app].
Qed.

(** *** Starting an attempt *)

Lemma start_transcode_job_effect (r f : bool) (st : state) :
  (FfmpegMon.exists_file (os st) (output_path st) = true ->
   output_path st ∈ FfmpegMon.protected (os st) ->
   start_transcode_job r f st = Raise OSError)
  /\ forall job st',
       start_transcode_job r f st = Ok (job, st') ->
       runs (vid st')
         = (if negb r && negb f then [] else runs (vid st))
           ++ [opened_run st r f]
       /\ is_retry job = r /\ is_software_fallback job = f
       /\ temp_file job = output_path st
       /\ (output_path st ∉ FfmpegMon.files (os st'))
       /\ FfmpegMon.output_queue (ffsubproc job) = []
       /\ FfmpegMon.temp_file (ffsubproc job) = Some (output_path st)
       /\ launches st' = tl (launches st)
       /\ start_mono job = mono st (ticks st)
       /\ progress_line_mono st' = mono st (S (ticks st))
       /\ prev_ffmpeg_out_mono st' = mono st (S (ticks st)).
Proof.
  unfold opened_run, output_path. cbv zeta.
  set (temp := (_ ++ "." ++ standard_name (vid st))%string).
  split.
  - intros Hex Hprot. unfold start_transcode_job.
    unfold bindM at 1. unfold get_state at 1. cbn beta iota zeta.
    fold temp. unfold bindM at 1. rewrite Hex.
    unfold unlink. now rewrite bool_decide_eq_true_2.
  - intros job st' H. unfold start_transcode_job in H.
    unfold bindM at 1 in H. unfold get_state at 1 in H.
    cbn beta iota zeta in H. fold temp in H.
    unfold bindM at 1 in H.
    destruct ((if FfmpegMon.exists_file (os st) temp
               then unlink temp else ret tt) st) as [[[] st0]|] eqn:Hu0;
      cbn beta iota in H; [|discriminate].
    assert (Hunlink : exists w,
              Ok (tt, st0)
                = Ok (tt, {| opts := opts st;
                             progress_line_mono := progress_line_mono st;
                             prev_ffmpeg_out_mono := prev_ffmpeg_out_mono st;
                             vid := vid st; os := w; mono := mono st;
                             ticks := ticks st; launches := launches st;
                             quoted_cmd := quoted_cmd st |})
              /\ temp ∉ FfmpegMon.files w).
    { rewrite <- Hu0. unfold FfmpegMon.exists_file in *.
      case_bool_decide as Hin.
      - unfold unlink in *. case_bool_decide; [discriminate|].
        eexists. split; [reflexivity|]. cbn [FfmpegMon.files].
        rewrite elem_of_difference, elem_of_singleton. tauto.
      - exists (os st). split; [now destruct st | exact Hin]. }
    destruct Hunlink as (w & Hu & Hw). inversion Hu; subst st0.
    clear Hu Hu0.
    cbn beta iota in H.
    set (base := if negb r && negb f then [] else runs (vid st)) in *.
    assert (Hbase :
      forall k : unit -> M Job,
        bindM (if negb r && negb f
               then update_vid (fun v => Ok (with_runs v []))
               else ret tt) k
          {| opts := opts st; progress_line_mono := progress_line_mono st;
             prev_ffmpeg_out_mono := prev_ffmpeg_out_mono st;
             vid := vid st; os := w; mono := mono st; ticks := ticks st;
             launches := launches st; quoted_cmd := quoted_cmd st |}
        = k tt {| opts := opts st;
                  progress_line_mono := progress_line_mono st;
                  prev_ffmpeg_out_mono := prev_ffmpeg_out_mono st;
                  vid := with_runs (vid st) base; os := w; mono := mono st;
                  ticks := ticks st; launches := launches st;
                  quoted_cmd := quoted_cmd st |}).
    { intros k. subst base. destruct (negb r && negb f).
      - reflexivity.
      - unfold bindM, ret. now destruct (vid st). }
    rewrite Hbase in H. clear Hbase.
    unfold bindM at 1 in H. unfold update_vid at 1 in H. fields.
    cbn beta iota in H.
    unfold bindM at 1 in H. unfold update_vid at 1 in H. fields.
    unfold start_new_run, set_descr in H. cbn [runs with_runs] in H.
    rewrite (update_last_run_snoc _ _ base new_run) in H by reflexivity.
    cbn beta iota in H.
    unfold bindM at 1 in H. unfold new_job in H.
    unfold bindM at 1 in H. unfold monotonic at 1 in H. fields.
    cbn beta iota in H. unfold ret at 1 in H. cbn beta iota in H.
    unfold bindM at 1 in H. unfold update_vid at 1 in H. fields.
    unfold set_command in H. cbn [runs with_runs] in H.
    rewrite (update_last_run_snoc _ _ base _) in H by reflexivity.
    cbn beta iota in H.
    unfold bindM at 1 in H. unfold next_launch in H. fields.
    assert (Hstart : forall l,
              FfmpegMon.start FfmpegMon.init [] (Some temp) l
              = (Ok tt, snd (FfmpegMon.start FfmpegMon.init [] (Some temp) l))
              /\ FfmpegMon.output_queue
                   (snd (FfmpegMon.start FfmpegMon.init [] (Some temp) l))
                 = []
              /\ FfmpegMon.temp_file
                   (snd (FfmpegMon.start FfmpegMon.init [] (Some temp) l))
                 = Some temp).
    { intros []; repeat split. }
    destruct (launches st) as [|l rest] eqn:Hlaunch; cbn beta iota in H;
      cbn [ffsubproc] in H.
    + destruct (Hstart FfmpegMon.PopenFailed) as (E & Hq & Ht).
      rewrite E in H. run_steps. fields. inversion H; subst; clear H.
      cbn [runs with_runs vid is_retry is_software_fallback temp_file
           ffsubproc start_mono os launches progress_line_mono
           prev_ffmpeg_out_mono texts return_code descr command new_run].
      repeat split; assumption.
    + destruct (Hstart l) as (E & Hq & Ht).
      rewrite E in H. run_steps. fields. inversion H; subst; clear H.
      cbn [runs with_runs vid is_retry is_software_fallback temp_file
           ffsubproc start_mono os launches progress_line_mono
           prev_ffmpeg_out_mono texts return_code descr command new_run].
      repeat split; assumption.
Qed.

Lemma run_grows_length (v v' : Vid) (added : list str) (code : option Z) :
  run_grows v v' added code -> length (runs v') = length (runs v).
Proof.
  intros [_ [(-> & _) | (earlier & r & -> & ->)]]; [reflexivity|].
  now rewrite !length_app.
Qed.

Tactic Notation "bind_inv" hyp(H) "as" ident(x) ident(s) ident(Hc) :=
  apply bindM_ok in H; destruct H as (x & s & Hc & H).

(** What [check_job_status] does with an exit code: the code is recorded
    in the current run, then a retry of the next tier is started or the job
    is reported done. *)
Lemma check_job_status_exit (fuel : nat) (job : Job) (st : state)
    (out : option Job * report * bool) (st' : state) (c : Z) (job1 : Job)
    (st1 : state) :
  get_job_progress fuel job st = Ok ((Some (Exit c), job1), st1) ->
  check_job_status fuel job st = Ok (Some out, st') ->
  exists v2,
    set_return_code c (vid st1) = Ok v2
    /\ ((exists new st2,
           start_transcode_job true (is_retry job)
             {| opts := opts st1;
                progress_line_mono := progress_line_mono st1;
                prev_ffmpeg_out_mono := prev_ffmpeg_out_mono st1;
                vid := v2; os := os st1; mono := mono st1;
                ticks := ticks st1; launches := launches st1;
                quoted_cmd := quoted_cmd st1 |} = Ok (new, st2)
           /\ st' = st2 /\ c <> 0 /\ is_software_fallback job = false
           /\ out = (Some new,
                     Text (if is_retry job then lit "RETRYING (Software)..."
                           else lit "RETRYING (Tolerant)..."), false))
        \/ (out = (None, Text (final_status job c), true)
            /\ st' = {| opts := opts st1;
                        progress_line_mono := progress_line_mono st1;
                        prev_ffmpeg_out_mono := prev_ffmpeg_out_mono st1;
                        vid := v2; os := os st1; mono := mono st1;
                        ticks := ticks st1; launches := launches st1;
                        quoted_cmd := quoted_cmd st1 |})).
Proof.
  intros Hg H.
  pose proof (get_job_progress_same_job _ _ _ _ _ _ Hg) as [Hsame _].
  assert (Hr : is_retry job1 = is_retry job) by (rewrite Hsame; reflexivity).
  assert (Hf : is_software_fallback job1 = is_software_fallback job)
    by (rewrite Hsame; reflexivity).
  unfold check_job_status in H. unfold bindM at 1 in H. rewrite Hg in H.
  cbn beta iota in H.
  unfold bindM at 1 in H. unfold update_vid at 1 in H.
  destruct (set_return_code c (vid st1)) as [v2|] eqn:Hset;
    cbn beta iota in H; [|discriminate].
  exists v2. split; [reflexivity|].
  unfold bindM at 1 in H. unfold get_state at 1 in H. cbn beta iota in H.
  fields. rewrite Hr, Hf in H.
  bind_inv H as tolerant st3 Htol.
  assert (Hst3 : st3 = {| opts := opts st1;
                          progress_line_mono := progress_line_mono st1;
                          prev_ffmpeg_out_mono := prev_ffmpeg_out_mono st1;
                          vid := v2; os := os st1; mono := mono st1;
                          ticks := ticks st1; launches := launches st1;
                          quoted_cmd := quoted_cmd st1 |}).
  { destruct (negb (c =? 0) && negb (is_retry job)
              && negb (is_software_fallback job)).
    - destruct (_should_retry_with_error_tolerance v2); cbn in Htol;
        inversion Htol; reflexivity.
    - unfold ret in Htol. inversion Htol. reflexivity. }
  destruct tolerant.
  - bind_inv H as new st4 Hnew. unfold ret in H. inversion H; subst.
    destruct (negb (c =? 0) && negb (is_retry job)
              && negb (is_software_fallback job)) eqn:Hcond;
      [|unfold ret in Htol; discriminate].
    apply andb_true_iff in Hcond. destruct Hcond as [Hcond Hsw].
    apply andb_true_iff in Hcond. destruct Hcond as [Hne Hre].
    apply negb_true_iff in Hne, Hre, Hsw. apply Z.eqb_neq in Hne.
    left. exists new, st'. rewrite Hre. repeat split; assumption.
  - bind_inv H as software st4 Hsoft.
    assert (Hst4 : st4 = st3).
    { destruct (negb (c =? 0) && is_retry job
                && negb (is_software_fallback job)).
      - destruct (_should_retry_with_software v2); cbn in Hsoft;
          inversion Hsoft; reflexivity.
      - unfold ret in Hsoft. inversion Hsoft. reflexivity. }
    destruct software.
    + bind_inv H as new st5 Hnew. unfold ret in H. inversion H; subst.
      destruct (negb (c =? 0) && is_retry job
                && negb (is_software_fallback job)) eqn:Hcond;
        [|unfold ret in Hsoft; discriminate].
      apply andb_true_iff in Hcond. destruct Hcond as [Hcond Hsw].
      apply andb_true_iff in Hcond. destruct Hcond as [Hne Hre].
      apply negb_true_iff in Hne, Hsw. apply Z.eqb_neq in Hne.
      left. exists new, st'. rewrite Hre. repeat split; assumption.
    + unfold ret in H. inversion H; subst. right. split; reflexivity.
Qed.

(** [get_job_progress] only adds to the log of the current run: the text
    captured before stays, in order, the earlier runs and the rest of the
    video are untouched, and no line that begins with [PROGRESS:] is ever
    filed. The exit code it returns is recorded in the run, but for the
    code 254 of a stall, which comes after the line [PROGRESS TIMEOUT]. *)
Lemma get_job_progress_keeps_log (fuel : nat) (job : Job) (st : state)
    (r : option got) (job' : Job) (st' : state) :
  get_job_progress fuel job st = Ok ((r, job'), st') ->
  exists added code,
    run_grows (vid st) (vid st') added code
    /\ Forall (fun t => starts_with PROGRESS_PREFIX t = false) added
    /\ (code = exit_code r
        \/ (code = None /\ r = Some (Exit 254)
            /\ exists before, added = before ++ [lit "PROGRESS TIMEOUT"])).
Proof.
  intros H. apply get_job_progress_effect in H.
  destruct H as (_ & _ & _ & added & code & H). now exists added, code.
Qed.

Lemma get_job_progress_keeps_log_witness :
  match get_job_progress 1 quiet_job quiet_state with
  | Ok (_, st') =>
      exists added code,
        run_grows (vid quiet_state) (vid st') added code
        /\ Forall (fun t => starts_with PROGRESS_PREFIX t = false) added
  | Raise _ => False
  end.
Proof.
  destruct (get_job_progress 1 quiet_job quiet_state)
    as [[[r job'] st']|e] eqn:E.
  - destruct (get_job_progress_keeps_log _ _ _ _ _ _ E)
      as (added & code & Hg & Hl & _).
    now exists added, code.
  - vm_compute in E. discriminate.
Defined.

(** Progress lines are throttled: a call of [get_job_progress] leaves the
    instant of the last rendered line alone or moves it at least 1.8 seconds
    ahead, and a rendered line moves it so, to the instant its elapsed time
    is taken at. *)
Lemma progress_lines_throttled (fuel : nat) (job : Job) (st : state)
    (r : option got) (job' : Job) (st' : state) :
  get_job_progress fuel job st = Ok ((r, job'), st') ->
  (progress_line_mono st' = progress_line_mono st
   \/ (1.8 <= progress_line_mono st' - progress_line_mono st)%Q)
  /\ (forall p, r = Some (Update p) ->
        (1.8 <= progress_line_mono st' - progress_line_mono st)%Q
        /\ elapsed_real p = (progress_line_mono st' - start_mono job)%Q).
Proof.
  intros H. apply get_job_progress_effect in H.
  destruct H as (_ & H1 & H2 & _). now split.
Qed.

Lemma progress_lines_throttled_witness :
  match get_job_progress 1 snapshot_job quiet_state with
  | Ok ((Some (Update p), _), st') =>
      (1.8 <= progress_line_mono st' - 60)%Q
      /\ elapsed_real p = (progress_line_mono st' - 50)%Q
  | _ => False
  end.
Proof.
  destruct (get_job_progress 1 snapshot_job quiet_state)
    as [[[[[|p|c]|] job'] st']|e] eqn:E;
    try (vm_compute in E; discriminate).
  exact (proj2 (progress_lines_throttled _ _ _ _ _ _ E) p eq_refl).
Defined.

(** When [check_job_status] reports a job done, the exit code is recorded
    in the current run and the status agrees with it: an [OK] of the job's
    tier for the code 0, [ERR] for any other code; no process was launched.
    A job that exits with the code 0 is always reported done: a success is
    never retried. *)
Lemma check_job_status_final (fuel : nat) (job : Job) (st : state) :
  (forall rep done st',
     check_job_status fuel job st = Ok (Some (None, rep, done), st') ->
     done = true
     /\ launches st' = launches st
     /\ exists c earlier r,
          runs (vid st') = earlier ++ [r]
          /\ return_code r = Some c
          /\ rep = Text (final_status job c))
  /\ (forall job1 st1,
        get_job_progress fuel job st = Ok ((Some (Exit 0), job1), st1) ->
        exists st',
          check_job_status fuel job st
            = Ok (Some (None, Text (final_status job 0), true), st')).
Proof.
  split.
  - intros rep done st' H.
    pose proof H as Hc. unfold check_job_status in Hc.
    bind_inv Hc as gj st1 Hg. destruct gj as [[[|p|c]|] job1];
      unfold ret in Hc; try discriminate. clear Hc.
    destruct (check_job_status_exit _ _ _ _ _ _ _ _ Hg H)
      as (v2 & Hset & [(new & st2 & _ & _ & _ & _ & E) | [E ->]]);
      [discriminate|].
    inversion E; subst. split; [reflexivity|].
    apply get_job_progress_effect in Hg.
    destruct Hg as ((_ & Hl & _) & _). fields. split; [exact Hl|].
    apply update_last_run_inv in Hset.
    destruct Hset as (earlier & r & Hr & ->).
    eexists c, earlier, _. split; [reflexivity|]. split; reflexivity.
  - intros job1 st1 Hg.
    pose proof (get_job_progress_same_job _ _ _ _ _ _ Hg) as [Hsame _].
    pose proof (get_job_progress_exit_has_run _ _ _ _ _ _ Hg) as Hrun.
    unfold check_job_status, bindM. rewrite Hg.
    unfold update_vid, set_return_code, update_last_run.
    destruct (last (runs (vid st1))) as [r|] eqn:Hlast.
    2: { apply last_None in Hlast. contradiction. }
    unfold get_state, ret. cbn [Z.eqb negb andb].
    eexists. unfold final_status. cbn [Z.eqb].
    rewrite Hsame. reflexivity.
Qed.


(** The video holds one run per attempt of the ladder: one after the
    first start, and one more for each retry that [check_job_status]
    starts, so that the job of tier [k] works on run [k + 1]; a call that
    starts no retry adds no run. *)
Lemma runs_track_tiers :
  (forall st job st',
     start_transcode_job false false st = Ok (job, st') ->
     length (runs (vid st')) = 1%nat /\ tier job = 0%nat)
  /\ (forall fuel job st next rep done st',
        check_job_status fuel job st
          = Ok (Some (Some next, rep, done), st') ->
        length (runs (vid st)) = S (tier job) ->
        length (runs (vid st')) = S (tier next)).
Proof.
  split.
  - intros st job st' H.
    destruct (start_transcode_job_effect false false st) as [_ Hok].
    destruct (Hok job st' H) as (Hruns & Hr & Hf & _).
    rewrite Hruns. unfold tier. rewrite Hr, Hf. split; reflexivity.
  - intros fuel job st next rep done st' H Hlen.
    pose proof H as Hc. unfold check_job_status in Hc.
    bind_inv Hc as gj st1 Hg. destruct gj as [[g|] job1];
      unfold ret in Hc; [|discriminate].
    pose proof (get_job_progress_same_job _ _ _ _ _ _ Hg) as [Hsame _].
    pose proof (get_job_progress_effect _ _ _ _ _ _ Hg)
      as (_ & _ & _ & added & code & Hgrow & _).
    apply run_grows_length in Hgrow.
    assert (Ht : tier job1 = tier job) by (rewrite Hsame; reflexivity).
    destruct g as [|p|c].
    + inversion Hc; subst. rewrite Ht. congruence.
    + inversion Hc; subst. rewrite Ht. congruence.
    + clear Hc.
      destruct (check_job_status_exit _ _ _ _ _ _ _ _ Hg H)
        as (v2 & Hset & [(new & st2 & Hnew & -> & _ & Hsw & E) | [E _]]);
        [|discriminate].
      inversion E; subst.
      pose proof (run_grows_length _ _ _ _ (run_grows_code _ _ _ Hset))
        as Hlen2.
      destruct (proj2 (start_transcode_job_effect _ _ _) _ _ Hnew)
        as (Hruns & Hr & Hf & _).
      fields. rewrite Hruns, length_app. cbn [negb andb length].
      unfold tier in *. rewrite Hr, Hf, Hsw in *.
      destruct (is_retry job); lia.
Qed.
End Supervision.

(** ** The corruption marker *)

Section Scoring.
Import Py Re Models JobHandler.







End Scoring.

(** ** Encoding options *)

Section Options.
Import Py Re ProbeCache Encoding.

(** The bit depth follows the pixel format alone: 10-bit exactly when the
    format name contains one of the four 10-bit markers; the codec, the
    list of problematic codecs and the list of safe formats change
    nothing. *)
Lemma should_use_10bit_by_format (pix_fmt codec : str) :
  should_use_10bit pix_fmt codec
    = existsb (fun marker => contains marker pix_fmt)
        (map lit ["10le"; "10be"; "p010"; "p210"]%string)
  /\ forall other, should_use_10bit pix_fmt other
                   = should_use_10bit pix_fmt codec.
Proof.
  assert (H : forall c, should_use_10bit pix_fmt c
                = existsb (fun marker => contains marker pix_fmt)
                    (map lit ["10le"; "10be"; "p010"; "p210"]%string)).
  { intros c. unfold should_use_10bit. cbn [map existsb].
    rewrite orb_false_r, !orb_assoc.
    destruct (_ || _ || _ || _); [reflexivity|].
    destruct (existsb (str_eqb c) problematic_codecs); [reflexivity|].
    now destruct (existsb (str_eqb pix_fmt) safe_8bit_formats). }
  split; [apply H|]. intros other. now rewrite !H.
Qed.

(** *** Splitting at commas *)

Lemma str_split_nonempty (sep : N) (s : str) : str_split sep s <> [].
Proof.
  destruct s as [|c s]; [discriminate|]. simpl.
  destruct (N.eqb c sep); [discriminate|].
  destruct (str_split sep s); discriminate.
Qed.

Lemma str_split_length (sep : N) (s : str) :
  length (str_split sep s) = S (count_occ N.eq_dec s sep).
Proof.
  induction s as [|c s IH]; [reflexivity|].
  cbn [str_split count_occ].
  destruct (N.eqb_spec c sep) as [->|Hne].
  - destruct (N.eq_dec sep sep); [|contradiction]. cbn. now rewrite IH.
  - destruct (N.eq_dec c sep); [contradiction|].
    pose proof (str_split_nonempty sep s).
    destruct (str_split sep s); [contradiction|]. exact IH.
Qed.

Lemma str_split_clean (sep : N) (s : str) :
  ~ In sep s -> str_split sep s = [s].
Proof.
  induction s as [|c s IH]; intros Hs; [reflexivity|].
  cbn [str_split]. destruct (N.eqb_spec c sep) as [->|Hne].
  - exfalso. apply Hs. now left.
  - rewrite IH; [reflexivity|]. intros Hin. apply Hs. now right.
Qed.

Lemma str_split_part (sep : N) (a rest : str) :
  ~ In sep a -> str_split sep (a ++ sep :: rest) = a :: str_split sep rest.
Proof.
  induction a as [|c a IH]; intros Ha.
  - cbn. now rewrite N.eqb_refl.
  - cbn [app str_split]. destruct (N.eqb_spec c sep) as [->|Hne].
    + exfalso. apply Ha. now left.
    + rewrite IH; [reflexivity|]. intros Hin. apply Ha. now right.
Qed.

Lemma str_eqb_eq (x y : str) : str_eqb x y = true <-> x = y.
Proof. unfold str_eqb. apply bool_decide_eq_true. Qed.

Lemma str_eqb_refl (x : str) : str_eqb x x = true.
Proof. now apply str_eqb_eq. Qed.

Lemma default_not (x d k : str) :
  d <> k -> (if str_eqb x k then d else x) <> k.
Proof.
  intros Hd. destruct (str_eqb x k) eqn:E; [exact Hd|].
  intros H. apply str_eqb_eq in H. congruence.
Qed.

(** The value an option of the encoder gets for a colour field: the
    default for [unknown], and for the transfer characteristics [709] for
    [bt709] too. *)
Lemma make_color_opts_parts (color_spt : str) :
  ((count_occ N.eq_dec color_spt COMMA < 2)%nat
   <-> make_color_opts color_spt = Raise IndexError)
  /\ ((2 <= count_occ N.eq_dec color_spt COMMA)%nat ->
      exists space primaries trc,
        make_color_opts color_spt
          = Ok [lit "-colorspace"; space; lit "-color_primaries"; primaries;
                lit "-color_trc"; trc]
        /\ space <> lit "unknown" /\ primaries <> lit "unknown"
        /\ trc <> lit "unknown" /\ trc <> lit "bt709").
Proof.
  pose proof (str_split_length COMMA color_spt) as Hlen.
  unfold make_color_opts, item.
  destruct (str_split COMMA color_spt) as [|p0 [|p1 [|p2 more]]];
    cbn [length] in Hlen; cbn [lookup list_lookup bind].
  - discriminate.
  - split; [split; [reflexivity | lia] | lia].
  - split; [split; [reflexivity | lia] | lia].
  - cbn [bind]. split; [split; [lia | discriminate]|].
    intros _. eexists _, _, _. split; [reflexivity|].
    repeat split.
    + apply default_not; discriminate.
    + apply default_not; discriminate.
    + destruct (str_eqb _ (lit "unknown")) eqn:E; [discriminate|].
      destruct (str_eqb _ (lit "bt709")); [discriminate|].
      intros H. apply str_eqb_eq in H. congruence.
    + destruct (str_eqb _ (lit "unknown")); [discriminate|].
      destruct (str_eqb _ (lit "bt709")) eqn:E; [discriminate|].
      intros H. apply str_eqb_eq in H. congruence.
Qed.

(** The compact descriptor that the probe stores decodes to the three
    colour fields it was made from: a field equal to the one before it is
    stored as the placeholder and read back from that field. The options
    carry the fields with the defaults put in. *)
Lemma color_spt_round_trip (color_space color_primaries color_transfer
    : option str) (space primaries trc : str) :
  space = default (lit "unknown") color_space ->
  primaries = default (lit "unknown") color_primaries ->
  trc = default (lit "unknown") color_transfer ->
  ~ In COMMA space -> ~ In COMMA primaries -> ~ In COMMA trc ->
  primaries <> lit "~" -> trc <> lit "~" ->
  make_color_opts (get_color_spt color_space color_primaries color_transfer)
    = Ok [lit "-colorspace";
          if str_eqb space (lit "unknown") then lit "bt709" else space;
          lit "-color_primaries";
          if str_eqb primaries (lit "unknown") then lit "bt709"
          else primaries;
          lit "-color_trc";
          if str_eqb trc (lit "unknown") || str_eqb trc (lit "bt709")
          then lit "709" else trc].
Proof.
  intros -> -> -> Hs Hp Ht Hp1 Ht1.
  set (space := default (lit "unknown") color_space) in *.
  set (primaries := default (lit "unknown") color_primaries) in *.
  set (trc := default (lit "unknown") color_transfer) in *.
  unfold get_color_spt. fold space primaries trc.
  cbn [app str_join].
  set (part1 := if negb (str_eqb primaries space) then primaries
                else lit "~").
  assert (H1 : ~ In COMMA part1).
  { subst part1. destruct (str_eqb primaries space); [|exact Hp].
    vm_compute. intuition discriminate. }
  set (part2 := if negb (str_eqb trc primaries) then trc else lit "~").
  assert (H2 : ~ In COMMA part2).
  { subst part2. destruct (str_eqb trc primaries); [|exact Ht].
    vm_compute. intuition discriminate. }
  unfold make_color_opts.
  change (space ++ [COMMA] ++ part1 ++ [COMMA] ++ part2)
    with (space ++ COMMA :: part1 ++ COMMA :: part2).
  rewrite str_split_part by exact Hs.
  rewrite str_split_part by exact H1.
  rewrite str_split_clean by exact H2.
  unfold item. cbn [lookup list_lookup bind].
  assert (E1 : (if negb (str_eqb part1 (lit "~")) then part1 else space)
               = primaries).
  { subst part1. destruct (str_eqb primaries space) eqn:E; cbn [negb].
    - apply str_eqb_eq in E. now rewrite str_eqb_refl.
    - destruct (str_eqb primaries (lit "~")) eqn:E'; [|reflexivity].
      apply str_eqb_eq in E'. contradiction. }
  rewrite E1.
  assert (E2 : (if negb (str_eqb part2 (lit "~")) then part2 else primaries)
               = trc).
  { subst part2. destruct (str_eqb trc primaries) eqn:E; cbn [negb].
    - apply str_eqb_eq in E. now rewrite str_eqb_refl.
    - destruct (str_eqb trc (lit "~")) eqn:E'; [|reflexivity].
      apply str_eqb_eq in E'. contradiction. }
  rewrite E2.
  unfold DEFAULT_SPACE, DEFAULT_PRIMARIES, DEFAULT_TRC.
  destruct (str_eqb trc (lit "unknown")); reflexivity.
Qed.

Lemma color_spt_round_trip_witness :
  make_color_opts
    (get_color_spt (Some (lit "bt2020nc")) (Some (lit "bt2020")) None)
  = Ok (map lit ["-colorspace"; "bt2020nc"; "-color_primaries"; "bt2020";
                 "-color_trc"; "709"]%string).
Proof.
  rewrite (color_spt_round_trip (Some (lit "bt2020nc")) (Some (lit "bt2020"))
             None (lit "bt2020nc") (lit "bt2020") (lit "unknown")).
  - reflexivity.
  - reflexivity.
  - reflexivity.
  - reflexivity.
  - vm_compute. intuition discriminate.
  - vm_compute. intuition discriminate.
  - vm_compute. intuition discriminate.
  - discriminate.
  - discriminate.
Defined.
End Options.

(** ** The codec policy *)

Section Policy.
Import Py Re ProbeCache Encoding.
Variable U : ucd.

Lemma existsb_str_eqb (x : str) (l : list str) :
  existsb (str_eqb x) l = true <-> In x l.
Proof.
  rewrite existsb_exists. split.
  - intros (y & Hin & E). apply str_eqb_eq in E. now subst.
  - intros Hin. exists x. split; [exact Hin | now apply str_eqb_eq].
Qed.

(** The codec policy. A missing probe, and a codec whose name does not
    begin with a letter, pass under every policy. For a codec name, the
    policy [x265] allows [hevc] alone, [x26*] allows [hevc] and [h264],
    [all] allows every name, and any other policy allows none; the names
    are compared as they are, so what [x265] allows [x26*] allows too. *)
Lemma is_allowed_codec_policy (allowed_codecs : str) (probe : Meta) :
  is_allowed_codec U allowed_codecs None = true
  /\ (match codec probe with
      | [] => True
      | c :: _ => az_ci c = false
      end ->
      is_codec_name U (codec probe) = false)
  /\ (is_codec_name U (codec probe) = false ->
      is_allowed_codec U allowed_codecs (Some probe) = true)
  /\ (is_codec_name U (codec probe) = true ->
      (is_allowed_codec U (lit "x265") (Some probe) = true
       <-> codec probe = lit "hevc")
      /\ (is_allowed_codec U (lit "x26*") (Some probe) = true
          <-> codec probe = lit "hevc" \/ codec probe = lit "h264")
      /\ is_allowed_codec U (lit "all") (Some probe) = true
      /\ (allowed_codecs <> lit "all" -> allowed_codecs <> lit "x265" ->
          allowed_codecs <> lit "x26*" ->
          is_allowed_codec U allowed_codecs (Some probe) = false))
  /\ (is_allowed_codec U (lit "x265") (Some probe) = true ->
      is_allowed_codec U (lit "x26*") (Some probe) = true).
Proof.
  split; [reflexivity|]. split; [|split; [|split]].
  - unfold is_codec_name. cbn [run]. destruct (codec probe) as [|c s].
    + reflexivity.
    + intros ->. reflexivity.
  - intros H. unfold is_allowed_codec. now rewrite H.
  - intros H. unfold is_allowed_codec. rewrite H. cbn [negb].
    change (str_eqb (lit "x265") (lit "all")) with false.
    change (str_eqb (lit "x265") (lit "x265")) with true.
    change (str_eqb (lit "x265") (lit "x26*")) with false.
    change (str_eqb (lit "x26*") (lit "all")) with false.
    change (str_eqb (lit "x26*") (lit "x265")) with false.
    change (str_eqb (lit "x26*") (lit "x26*")) with true.
    change (str_eqb (lit "all") (lit "all")) with true.
    change (str_eqb (lit "all") (lit "x265")) with false.
    change (str_eqb (lit "all") (lit "x26*")) with false.
    cbv zeta. rewrite !existsb_str_eqb. cbn [In].
    split; [intuition congruence|]. split; [intuition congruence|].
    split; [reflexivity|].
    intros H1 H2 H3.
    destruct (str_eqb allowed_codecs (lit "all")) eqn:E1;
      [apply str_eqb_eq in E1; contradiction|].
    destruct (str_eqb allowed_codecs (lit "x265")) eqn:E2;
      [apply str_eqb_eq in E2; contradiction|].
    destruct (str_eqb allowed_codecs (lit "x26*")) eqn:E3;
      [apply str_eqb_eq in E3; contradiction|].
    reflexivity.
  - unfold is_allowed_codec.
    destruct (negb (is_codec_name U (codec probe))); [reflexivity|].
    change (str_eqb (lit "x265") (lit "all")) with false.
    change (str_eqb (lit "x265") (lit "x265")) with true.
    change (str_eqb (lit "x265") (lit "x26*")) with false.
    change (str_eqb (lit "x26*") (lit "all")) with false.
    change (str_eqb (lit "x26*") (lit "x265")) with false.
    change (str_eqb (lit "x26*") (lit "x26*")) with true.
    cbv zeta. rewrite !existsb_str_eqb. cbn [In]. intuition congruence.
Qed.
End Policy.

(** ** Subtitle files *)

Section Subtitles.
Import Py Re Encoding.
Variable U : ucd.

Lemma caption_text_rest (lines : list str) :
  forall has_text rest,
    caption_text lines = (has_text, rest) ->
    slack rest = 0%nat
    /\ (has_text = true -> (S (length rest) <= length lines)%nat)
    /\ (has_text = false -> rest = lines).
Proof.
  induction lines as [|l lines IH]; intros has_text rest H.
  - inversion H. repeat split; auto. discriminate.
  - cbn [caption_text] in H. destruct (str_strip l) as [|c s] eqn:El.
    + inversion H; subst. repeat split; try discriminate.
      cbn. unfold blank_line. now rewrite El.
    + inversion H; subst. destruct (caption_text lines) as [h r].
      destruct (IH h r eq_refl) as (Hs & Hlt & Heq). cbn [snd length].
      repeat split; try discriminate; [exact Hs|].
      intros _. destruct h.
      * specialize (Hlt eq_refl). lia.
      * rewrite (Heq eq_refl). lia.
Qed.

Lemma count_captions_bound (fuel : nat) :
  forall lines c c',
    count_captions U fuel lines c = Some c' ->
    c <= c' /\ 4 * (c' - c) <= Z.of_nat (length lines + slack lines).
Proof.
  induction fuel as [|fuel IH]; intros lines c c' H.
  - destruct lines; cbn in H; [|discriminate]. inversion H. cbn. lia.
  - destruct lines as [|l rest]; cbn [count_captions] in H.
    + inversion H. cbn. lia.
    + unfold slack, blank_line. cbn [length].
      destruct (str_strip l) as [|ch line] eqn:El.
      * apply IH in H. destruct H as [H1 H2].
        assert (slack rest <= 1)%nat
          by (unfold slack; destruct rest; [lia|]; destruct (blank_line _);
              lia).
        lia.
      * assert (Hs : forall r : list str, (slack r <= 1)%nat).
        { intros r. unfold slack. destruct r; [lia|].
          destruct (blank_line _); lia. }
        destruct (negb (isdigit U (ch :: line))).
        -- apply IH in H. specialize (Hs rest). lia.
        -- destruct rest as [|ts rest2].
           ++ inversion H. cbn. lia.
           ++ destruct (negb (re_match _ _)).
              ** apply IH in H. specialize (Hs rest2). cbn [length]. lia.
              ** destruct (caption_text rest2) as [has_text rest3] eqn:Et.
                 apply caption_text_rest in Et.
                 destruct Et as (Hsl & Hlt & Heq).
                 apply IH in H. rewrite Hsl in H. cbn [length].
                 destruct has_text.
                 --- specialize (Hlt eq_refl). lia.
                 --- rewrite (Heq eq_refl) in H. lia.
Qed.

Lemma count_captions_returns (fuel : nat) :
  forall lines c,
    (length lines <= fuel)%nat ->
    exists c', count_captions U fuel lines c = Some c'.
Proof.
  induction fuel as [|fuel IH]; intros lines c Hlen.
  - destruct lines; cbn in *; [eauto | lia].
  - destruct lines as [|l rest]; cbn [count_captions]; [eauto|].
    cbn [length] in Hlen.
    destruct (str_strip l) as [|ch line]; [apply IH; lia|].
    destruct (negb (isdigit U (ch :: line))); [apply IH; lia|].
    destruct rest as [|ts rest2]; [eauto|]. cbn [length] in Hlen.
    destruct (negb (re_match _ _)); [apply IH; lia|].
    destruct (caption_text rest2) as [has_text rest3] eqn:Et.
    apply caption_text_rest in Et. destruct Et as (_ & Hlt & Heq).
    apply IH. destruct has_text.
    + specialize (Hlt eq_refl). lia.
    + rewrite (Heq eq_refl). lia.
Qed.

(** [validate_srt_file] returns for every file, and accepts only a file
    with enough lines: each caption takes a number line, a timing line and
    a line of text, and each but the last a blank line after it, so
    [min_captions] captions need [4 * min_captions - 1] lines. A file that
    cannot be read and an empty file are rejected whatever the minimum. *)
Lemma validate_srt_file_needs_lines (content : option (list str))
    (min_captions : Z) :
  exists valid,
    validate_srt_file U content min_captions = Some valid
    /\ (valid = true ->
        exists lines,
          content = Some lines /\ lines <> []
          /\ 4 * min_captions - 1 <= Z.of_nat (length lines)).
Proof.
  unfold validate_srt_file. destruct content as [[|l rest]|].
  - exists false. split; [reflexivity | discriminate].
  - destruct (count_captions_returns (length (l :: rest)) (l :: rest) 0)
      as [c Hc]; [lia|].
    rewrite Hc. eexists. split; [reflexivity|].
    intros Hv. apply Z.leb_le in Hv.
    exists (l :: rest). split; [reflexivity|]. split; [discriminate|].
    apply count_captions_bound in Hc.
    assert (slack (l :: rest) <= 1)%nat
      by (unfold slack; destruct (blank_line _); lia).
    lia.
  - exists false. split; [reflexivity | discriminate].
Qed.

Lemma caption_text_block (sep : str) (rest : list str) (text : list str) :
  blank_line sep = true ->
  forallb (fun l => negb (blank_line l)) text = true ->
  caption_text (text ++ sep :: rest)
    = (match text with [] => false | _ :: _ => true end, sep :: rest).
Proof.
  intros Hsep. induction text as [|l text IH]; intros Ht.
  - cbn [app caption_text]. unfold blank_line in Hsep.
    now destruct (str_strip sep).
  - cbn [forallb] in Ht. apply andb_true_iff in Ht. destruct Ht as [Hl Ht].
    cbn [app caption_text]. unfold blank_line in Hl.
    destruct (str_strip l); [discriminate|].
    now rewrite (IH Ht).
Qed.

Lemma count_captions_blocks (sep : str) (captions : list caption) :
  blank_line sep = true ->
  forallb (well_formed U) captions = true ->
  forall fuel rest c,
    (length (flat_map (caption_lines sep) captions ++ rest) <= fuel)%nat ->
    exists fuel',
      (length rest <= fuel')%nat
      /\ count_captions U fuel (flat_map (caption_lines sep) captions ++ rest) c
         = count_captions U fuel' rest (c + Z.of_nat (length captions)).
Proof.
  intros Hsep. induction captions as [|cap captions IH];
    intros Hwf fuel rest c Hlen.
  - exists fuel. cbn in *. split; [exact Hlen|]. now rewrite Z.add_0_r.
  - cbn [forallb] in Hwf. apply andb_true_iff in Hwf.
    destruct Hwf as [Hcap Hwf]. unfold well_formed in Hcap.
    apply andb_true_iff in Hcap. destruct Hcap as [Hcap Htext].
    apply andb_true_iff in Hcap. destruct Hcap as [Hcap Hne].
    apply andb_true_iff in Hcap. destruct Hcap as [Hnum Htime].
    cbn [flat_map] in *. unfold caption_lines in *.
    cbn [app length] in *. rewrite <- !app_assoc in *. cbn [app] in *.
    rewrite !length_app in Hlen. cbn [length] in Hlen.
    destruct fuel as [|fuel]; [lia|]. cbn [count_captions].
    destruct (str_strip (number cap)) as [|ch line] eqn:En;
      [discriminate|].
    rewrite Hnum, Htime. cbn [negb].
    rewrite caption_text_block by assumption.
    destruct (text_lines cap) as [|t ts] eqn:Et; [discriminate|].
    destruct fuel as [|fuel]; [cbn [length] in Hlen; lia|].
    cbn [count_captions]. unfold blank_line in Hsep.
    destruct (str_strip sep); [|discriminate].
    destruct (IH Hwf fuel rest (c + 1)) as (fuel' & Hf & Heq).
    { cbn [length] in Hlen. lia. }
    exists fuel'. split; [exact Hf|]. rewrite Heq. f_equal. lia.
Qed.

(** A file of well-formed captions, each followed by a blank line, is
    counted in full: it is valid exactly when it has at least
    [min_captions] captions. *)
Lemma validate_srt_file_counts (sep : str) (captions : list caption)
    (min_captions : Z) :
  blank_line sep = true ->
  forallb (well_formed U) captions = true ->
  captions <> [] ->
  validate_srt_file U (Some (flat_map (caption_lines sep) captions))
    min_captions
  = Some (min_captions <=? Z.of_nat (length captions)).
Proof.
  intros Hsep Hwf Hne. unfold validate_srt_file.
  destruct (flat_map (caption_lines sep) captions) as [|l rest] eqn:E.
  - destruct captions; [contradiction | discriminate].
  - rewrite <- E.
    destruct (count_captions_blocks sep captions Hsep Hwf
                (length (flat_map (caption_lines sep) captions)) [] 0)
      as (fuel' & _ & Heq).
    { rewrite app_nil_r. lia. }
    rewrite app_nil_r in Heq. rewrite Heq.
    destruct fuel'; reflexivity.
Qed.
End Subtitles.

(** ** The entries of the probe cache *)

Section Cache.
Import Py ProbeCache.
Variable float_bloat : Z -> Z -> Z.
Variable float_gb : Z -> Q.

Local Abbreviation _get_valid_entry :=
  (_get_valid_entry float_bloat float_gb).
Local Abbreviation _compute_fields :=
  (_compute_fields float_bloat float_gb).
Local Abbreviation get := (get float_bloat float_gb).
Local Abbreviation purge := (purge float_bloat float_gb).
Local Abbreviation load := (load float_bloat float_gb).

(** What [_get_valid_entry] comes to: a valid entry is returned with its
    computed fields and nothing changes; an entry that is not valid is
    removed and counted as a change. *)
Lemma _get_valid_entry_cases (e : env) (pc : t) (filepath : string) :
  _get_valid_entry e pc filepath =
    match cache_data pc !! filepath with
    | Some en =>
        if valid_entry e filepath en
        then match _compute_fields (Some (stored en)) with
             | Ok m => (Ok (Some m), pc)
             | Raise x => (Raise x, pc)
             end
        else (Ok None, delete_entry pc filepath)
    | None => (Ok None, pc)
    end.
Proof.
  unfold ProbeCache._get_valid_entry, _get_file_size_info, valid_entry,
    _load_probe_data.
  destruct (sizes e !! filepath) as [size|];
    destruct (cache_data pc !! filepath) as [en|] eqn:Hen;
    try reflexivity.
  - destruct (bool_decide (fields en = disk_fields)); cbn [negb andb];
      [|reflexivity].
    destruct (size_bytes (stored en) =? size); reflexivity.
  - now rewrite andb_false_r.
Qed.

Lemma _compute_fields_size (m m' : Meta) :
  _compute_fields (Some m) = Ok m' -> size_bytes m' = size_bytes m.
Proof. intros H. inversion H. reflexivity. Qed.

Lemma valid_entry_size (e : env) (filepath : string) (en : entry) :
  valid_entry e filepath en = true ->
  fields en = disk_fields
  /\ sizes e !! filepath = Some (size_bytes (stored en)).
Proof.
  unfold valid_entry. intros H. apply andb_true_iff in H.
  destruct H as [Hf Hs]. apply bool_decide_eq_true in Hf.
  destruct (sizes e !! filepath) as [size|]; [|discriminate].
  apply Z.eqb_eq in Hs. now subst.
Qed.

(** A call of [_get_valid_entry] changes no entry of another path. *)
Lemma _get_valid_entry_frame (e : env) (pc : t) (filepath other : string) :
  other <> filepath ->
  cache_data (snd (_get_valid_entry e pc filepath)) !! other
    = cache_data pc !! other.
Proof.
  intros Hne. rewrite _get_valid_entry_cases.
  destruct (cache_data pc !! filepath) as [en|]; [|reflexivity].
  destruct (valid_entry e filepath en).
  - now destruct (_compute_fields (Some (stored en))).
  - cbn. now apply lookup_delete_ne.
Qed.

(** The record of a fresh probe, once stored. *)
Lemma fresh_probe (e : env) (pc pc2 pc' : t) (filepath : string)
    (meta : Meta) (size w h : Z) (c spt : str) (br : Z) (dur : Q) :
  sizes e !! filepath = Some size ->
  (let pc3 :=
     _set_cache pc2 filepath
       {| anomaly := None; width := w; height := h; codec := c;
          bitrate := br; duration := dur; size_bytes := size;
          color_spt := spt; bloat := None; gb := None |} in
   match _compute_fields
           (Some {| anomaly := None; width := w; height := h; codec := c;
                    bitrate := br; duration := dur; size_bytes := size;
                    color_spt := spt; bloat := None; gb := None |}) with
   | Ok m => (Ok (Some m), pc3)
   | Raise x => (Raise x, pc3)
   end) = (Ok (Some meta), pc') ->
  Some size = Some (size_bytes meta)
  /\ (exists en,
        cache_data pc' !! filepath = Some en
        /\ valid_entry e filepath en = true
        /\ _compute_fields (Some (stored en)) = Ok meta)
  /\ (forall other, other <> filepath ->
        cache_data pc' !! other = cache_data pc2 !! other).
Proof.
  intros Hs H. cbv zeta in H. unfold ProbeCache._compute_fields in H.
  inversion H; subst; clear H. cbn [size_bytes].
  split; [reflexivity|]. split.
  - eexists. cbn [_set_cache cache_data]. rewrite lookup_insert_eq.
    split; [reflexivity|]. split; [|reflexivity].
    unfold valid_entry. cbn [fields stored size_bytes]. rewrite Hs, Z.eqb_refl.
    now rewrite bool_decide_eq_true_2.
  - intros other Hne. cbn [_set_cache cache_data].
    now rewrite lookup_insert_ne by congruence.
Qed.

(** [get] is a read-through cache. The record it returns has the size the
    file has now, and is afterwards held by a valid entry of the cache, so
    that the next [get] returns the same record without probing and without
    changing the cache; the entries of the other paths are left alone. *)
Lemma get_read_through (e : env) (pc pc' : t) (filepath : string)
    (meta : Meta) :
  get e pc filepath = (Ok (Some meta), pc') ->
  sizes e !! filepath = Some (size_bytes meta)
  /\ (exists en,
        cache_data pc' !! filepath = Some en
        /\ valid_entry e filepath en = true
        /\ _compute_fields (Some (stored en)) = Ok meta)
  /\ get e pc' filepath = (Ok (Some meta), pc')
  /\ (forall other, other <> filepath ->
        cache_data pc' !! other = cache_data pc !! other).
Proof.
  intros H.
  assert (Hhit : forall en,
            cache_data pc' !! filepath = Some en ->
            valid_entry e filepath en = true ->
            _compute_fields (Some (stored en)) = Ok meta ->
            get e pc' filepath = (Ok (Some meta), pc')).
  { intros en Hen Hv Hc. unfold ProbeCache.get.
    rewrite _get_valid_entry_cases, Hen, Hv, Hc. reflexivity. }
  pose proof (_get_valid_entry_frame e pc filepath) as Hframe.
  unfold ProbeCache.get in H. rewrite _get_valid_entry_cases in H, Hframe.
  destruct (cache_data pc !! filepath) as [en|] eqn:Hen.
  - destruct (valid_entry e filepath en) eqn:Hv.
    + (* a hit *)
      destruct (_compute_fields (Some (stored en))) as [m|x] eqn:Hc;
        inversion H; subst; clear H.
      destruct (valid_entry_size _ _ _ Hv) as [_ Hs].
      rewrite (_compute_fields_size _ _ Hc).
      split; [exact Hs|]. split; [eauto|]. split; [eauto|]. auto.
    + (* a stale entry *)
      cbn [snd] in Hframe.
      unfold _get_metadata_with_ffprobe in H.
      destruct (sizes e !! filepath) as [size|] eqn:Hs; [|discriminate].
      destruct (ffprobe e filepath) as [w h c spt br dur| |x];
        try discriminate.
      match type of H with
      | context [if (100 <=? ?n)%nat then ?a else ?b] =>
          set (pc2 := if (100 <=? n)%nat then a else b) in H
      end.
      assert (Hdata : cache_data pc2 = delete filepath (cache_data pc)).
      { unfold pc2. destruct (100 <=? _)%nat; [|reflexivity].
        unfold store. now destruct (_ && _). }
      clearbody pc2.
      destruct (fresh_probe e pc pc2 pc' filepath meta size w h c spt br dur
                  Hs H) as (H1 & H2 & H3).
      split; [exact H1|]. split; [exact H2|].
      split; [destruct H2 as (en' & ? & ? & ?); eauto|].
      intros other Hne. rewrite H3 by exact Hne. rewrite Hdata.
      now apply lookup_delete_ne.
  - (* no entry *)
    unfold _get_metadata_with_ffprobe in H.
    destruct (sizes e !! filepath) as [size|] eqn:Hs; [|discriminate].
    destruct (ffprobe e filepath) as [w h c spt br dur| |x];
      try discriminate.
    match type of H with
    | context [if (100 <=? ?n)%nat then ?a else ?b] =>
        set (pc2 := if (100 <=? n)%nat then a else b) in H
    end.
    assert (Hdata : cache_data pc2 = cache_data pc).
    { unfold pc2. destruct (100 <=? _)%nat; [|reflexivity].
      unfold store. now destruct (_ && _). }
    clearbody pc2.
    destruct (fresh_probe e pc pc2 pc' filepath meta size w h c spt br dur
                Hs H) as (H1 & H2 & H3).
    split; [exact H1|]. split; [exact H2|].
    split; [destruct H2 as (en' & ? & ? & ?); eauto|].
    intros other Hne. rewrite H3 by exact Hne. rewrite Hdata.
    reflexivity.
Qed.

(** *** Loading *)





(** *** Anomalies *)

Lemma escalated_levels (U : ucd) (n : nat) :
  (n <= 9)%nat ->
  escalated U (err_level n) (lit "Err") = 
    lit "Er" ++ str_of_int (Z.min (Z.of_nat n + 1) 9).
Proof.
  intros Hn.
  do 10 (destruct n as [|n]; [vm_compute; reflexivity|]). lia.
Qed.

(** What [set_anomaly] comes to on a path with a valid entry. *)
Lemma set_anomaly_valid (U : ucd) (e : env) (pc : t) (filepath : string)
    (requested : str) (en : entry) :
  cache_data pc !! filepath = Some en ->
  valid_entry e filepath en = true ->
  let value := escalated U (anomaly (stored en)) requested in
  exists meta pc',
    set_anomaly float_bloat float_gb U e pc filepath requested
      = (Ok (Some meta), pc')
    /\ anomaly meta = Some value
    /\ (exists en',
          cache_data pc' !! filepath = Some en'
          /\ valid_entry e filepath en' = true
          /\ anomaly (stored en') = Some value)
    /\ (anomaly (stored en) = Some value -> pc' = pc)
    /\ (anomaly (stored en) <> Some value -> write_fails e = false ->
        on_disk pc' = cache_data pc').
Proof.
  intros Hen Hv value. unfold set_anomaly.
  rewrite _get_valid_entry_cases, Hen, Hv.
  unfold ProbeCache._compute_fields. cbn [anomaly]. fold value.
  destruct (valid_entry_size _ _ _ Hv) as [Hf Hs].
  case_bool_decide as Ha; cbn [negb].
  - eexists _, pc. split; [reflexivity|]. split; [exact Ha|].
    split; [eauto|]. split; [reflexivity|]. contradiction.
  - eexists _, _. split; [reflexivity|]. split; [reflexivity|].
    assert (Hst : forall p, cache_data (store e p) = cache_data p).
    { intros p. unfold store. now destruct (_ && _). }
    split; [|split; [contradiction|]].
    + eexists. rewrite Hst. cbn [_set_cache cache_data].
      rewrite lookup_insert_eq. split; [reflexivity|].
      split; [|reflexivity].
      unfold valid_entry. cbn [fields stored size_bytes with_anomaly].
      rewrite Hs, Z.eqb_refl. now rewrite bool_decide_eq_true_2.
    + intros _ Hw. unfold store. cbn [_set_cache _dirty_count].
      rewrite Hw. reflexivity.
Qed.

Lemma after_failures_S (U : ucd) (e : env) (filepath : string) (n : nat)
    (pc : t) :
  after_failures float_bloat float_gb U e filepath (S n) pc
    = snd (set_anomaly float_bloat float_gb U e
             (after_failures float_bloat float_gb U e filepath n pc)
             filepath (lit "Err")).
Proof. reflexivity. Qed.

(** The failures of a file are counted in its anomaly: on an entry
    without anomaly the first [Err] gives [Er1], each later one the next
    count, and from the ninth on the anomaly stays [Er9]; the entry stays
    valid, and unless writing fails the cache file holds the count. An
    entry already marked [OPT] gets [Err] as it is and keeps it. *)
Lemma set_anomaly_counts (U : ucd) (e : env) (pc : t) (filepath : string)
    (en : entry) :
  cache_data pc !! filepath = Some en ->
  valid_entry e filepath en = true ->
  forall n, (1 <= n)%nat ->
    let pc' := after_failures float_bloat float_gb U e filepath n pc in
    exists en',
      cache_data pc' !! filepath = Some en'
      /\ valid_entry e filepath en' = true
      /\ (anomaly (stored en) = None ->
          anomaly (stored en')
            = Some (lit "Er" ++ str_of_int (Z.min (Z.of_nat n) 9))
          /\ (write_fails e = false -> on_disk pc' = cache_data pc'))
      /\ (anomaly (stored en) = Some (lit "OPT") ->
          anomaly (stored en') = Some (lit "Err")).
Proof.
  intros Hen Hv n Hn. cbv zeta.
  induction n as [|n IH]; [lia|].
  rewrite after_failures_S.
  destruct n as [|n].
  - (* the first failure *)
    change (after_failures float_bloat float_gb U e filepath 0 pc) with pc.
    destruct (set_anomaly_valid U e pc filepath (lit "Err") en Hen Hv)
      as (meta & pc' & -> & _ & (en' & Hl & Hv' & Ha) & _ & Hdisk).
    cbn [snd]. exists en'. split; [exact Hl|]. split; [exact Hv'|]. split.
    + intros Hnone. rewrite Hnone in Ha, Hdisk. split; [exact Ha|].
      apply Hdisk. discriminate.
    + intros Hopt. rewrite Hopt in Ha. exact Ha.
  - destruct IH as (en1 & Hl1 & Hv1 & Hcount & Hopt); [lia|].
    set (pc1 := after_failures float_bloat float_gb U e filepath (S n) pc)
      in *.
    destruct (set_anomaly_valid U e pc1 filepath (lit "Err") en1 Hl1 Hv1)
      as (meta & pc' & -> & _ & (en' & Hl & Hv' & Ha) & Hsame & Hdisk).
    cbn [snd]. exists en'. split; [exact Hl|]. split; [exact Hv'|]. split.
    + intros Hnone. destruct (Hcount Hnone) as [Hc Hd].
      set (k := Z.to_nat (Z.min (Z.of_nat (S n)) 9)).
      assert (Hk : anomaly (stored en1) = err_level k).
      { rewrite Hc. unfold err_level. subst k.
        destruct (Z.to_nat _) eqn:E; [lia|]. rewrite <- E.
        rewrite Z2Nat.id by lia. reflexivity. }
      assert (Hval : escalated U (anomaly (stored en1)) (lit "Err")
                     = lit "Er"
                       ++ str_of_int (Z.min (Z.of_nat (S (S n))) 9)).
      { rewrite Hk, escalated_levels by (subst k; lia).
        do 2 f_equal. subst k. lia. }
      rewrite Hval in *. split; [exact Ha|].
      intros Hw.
      destruct (decide (anomaly (stored en1)
                        = Some (lit "Er" ++ str_of_int
                                  (Z.min (Z.of_nat (S (S n))) 9))))
        as [Heq|Hne].
      * rewrite (Hsame Heq). now apply Hd.
      * now apply Hdisk.
    + intros Hop. rewrite (Hopt Hop) in Ha. exact Ha.
Qed.
End Cache.

Lemma validate_srt_file_counts_witness :
  Encoding.validate_srt_file Py.ascii_ucd
    (Some (flat_map (Encoding.caption_lines [10%N]) Encoding.two_captions)) 2
  = Some true.
Proof.
  exact (validate_srt_file_counts Py.ascii_ucd [10%N] Encoding.two_captions 2
           eq_refl eq_refl ltac:(discriminate)).
Defined.

Lemma get_read_through_witness :
  ProbeCache.get (fun _ _ => 0) (fun _ => 0%Q) ProbeCache.one_file_env
    ProbeCache.empty_cache "a.mkv"
  = ProbeCache.get (fun _ _ => 0) (fun _ => 0%Q) ProbeCache.one_file_env
      ProbeCache.probed_cache "a.mkv".
Proof.
  destruct (get_read_through (fun _ _ => 0) (fun _ => 0%Q)
              ProbeCache.one_file_env ProbeCache.empty_cache
              ProbeCache.probed_cache "a.mkv"
              {| ProbeCache.anomaly := None; ProbeCache.width := 1920;
                 ProbeCache.height := 1080; ProbeCache.codec := Py.lit "hevc";
                 ProbeCache.bitrate := 4000; ProbeCache.duration := 60;
                 ProbeCache.size_bytes := 1000;
                 ProbeCache.color_spt := Py.lit "bt709,~,~";
                 ProbeCache.bloat := Some 0; ProbeCache.gb := Some 0%Q |}
              eq_refl) as (_ & _ & H & _).
  rewrite H. reflexivity.
Defined.

Lemma set_anomaly_counts_witness :
  exists en,
    ProbeCache.cache_data
      (ProbeCache.after_failures (fun _ _ => 0) (fun _ => 0%Q) Py.ascii_ucd
         ProbeCache.one_file_env "a.mkv" 12 ProbeCache.probed_cache)
      !! "a.mkv"%string = Some en
    /\ ProbeCache.anomaly (ProbeCache.stored en) = Some (Py.lit "Er9").
Proof.
  destruct (set_anomaly_counts (fun _ _ => 0) (fun _ => 0%Q) Py.ascii_ucd
              ProbeCache.one_file_env ProbeCache.probed_cache "a.mkv"
              ProbeCache.probed_entry eq_refl eq_refl 12 ltac:(lia))
    as (en & Hl & _ & Hc & _).
  exists en. split; [exact Hl|]. exact (proj1 (Hc eq_refl)).
Defined.

(** ** Codec names *)

Section Names.
Import Py Re ProbeCache Encoding.
Variable U : ucd.

(** A greedy repetition succeeds exactly when the text splits into
    characters of the class and a rest the continuation accepts. *)
Lemma rep_greedy_succeeds {R : Type} (p : N -> bool) (k : str -> option R)
    (s : str) :
  rep R true p s k <> None
  <-> exists w tail,
        s = w ++ tail /\ forallb p w = true /\ k tail <> None.
Proof.
  induction s as [|c s IH]; cbn [rep].
  - split.
    + intros H. now exists [], [].
    + intros (w & tail & E & _ & H). symmetry in E.
      apply app_eq_nil in E. destruct E as [_ ->]. exact H.
  - destruct (p c) eqn:Hp.
    + destruct (rep R true p s k) as [out|] eqn:Hrep.
      * split; [|discriminate]. intros _.
        destruct (proj1 IH) as (w & tail & -> & Hw & Ht); [discriminate|].
        exists (c :: w), tail. cbn [forallb app]. now rewrite Hp, Hw.
      * split.
        -- intros H. now exists [], (c :: s).
        -- intros (w & tail & E & Hw & Ht).
           destruct w as [|c' w]; cbn [app] in E.
           ++ now subst tail.
           ++ inversion E; subst. exfalso.
              apply (proj2 IH); [|reflexivity].
              exists w, tail. cbn [forallb] in Hw.
              apply andb_true_iff in Hw. tauto.
    + split.
      * intros H. now exists [], (c :: s).
      * intros (w & tail & E & Hw & Ht).
        destruct w as [|c' w]; cbn [app] in E.
        -- now subst tail.
        -- inversion E; subst. cbn [forallb] in Hw. rewrite Hp in Hw.
           discriminate.
Qed.

(** The codec-name test accepts exactly a letter (of either case) followed
    by word characters, with at most one line feed after them. *)
Lemma is_codec_name_shape (codec : str) :
  is_codec_name U codec = true
  <-> exists c w,
        az_ci c = true /\ forallb (is_word U) w = true
        /\ (codec = c :: w \/ codec = c :: w ++ [10%N]).
Proof.
  unfold is_codec_name. cbn [run]. destruct codec as [|c s].
  - split; [discriminate|]. intros (c & w & _ & _ & [E|E]); discriminate.
  - destruct (az_ci c) eqn:Hc.
    + match goal with
      | |- context [rep caps true ?p s ?k] =>
          pose proof (rep_greedy_succeeds p k s) as Hrep;
          destruct (rep caps true p s k) as [out|]
      end; cbv beta in Hrep.
      * split; [|reflexivity]. intros _.
        destruct (proj1 Hrep) as (w & tail & -> & Hw & Ht); [discriminate|].
        exists c, w. split; [exact Hc|]. split; [exact Hw|].
        destruct tail as [|d [|? ?]]; cbn [at_end] in Ht;
          try contradiction.
        -- left. now rewrite app_nil_r.
        -- right. destruct (N.eqb_spec d 10); [now subst | contradiction].
      * split; [discriminate|].
        intros (c' & w & _ & Hw & E). exfalso.
        apply (proj2 Hrep); [|reflexivity].
        destruct E as [E|E]; inversion E; subst.
        -- exists w, []. rewrite app_nil_r. repeat split; [exact Hw|].
           discriminate.
        -- exists w, [10%N]. repeat split; [exact Hw | discriminate].
    + split; [discriminate|].
      intros (c' & w & Hc' & _ & [E|E]); inversion E; subst; congruence.
Qed.
End Names.

(** ** The snapshot line and the progress pattern *)

Section Engine.
Import Py Re.

Lemma rep_result {R : Type} (greedy : bool) (p : N -> bool)
    (k : str -> option R) (s : str) (out : R) :
  rep R greedy p s k = Some out -> exists s', k s' = Some out.
Proof.
  induction s as [|c s IH]; cbn [rep]; [eauto|].
  destruct (p c); [|eauto]. destruct greedy.
  - destruct (rep R true p s k); [|eauto].
    intros H. inversion H; subst. now apply IH.
  - destruct (k (c :: s)) eqn:E; [|exact IH].
    intros H. inversion H; subst. eauto.
Qed.

(** A match changes the captures of its own groups only. *)
Lemma run_frame (r : re) :
  forall s cs k out,
    run r s cs k = Some out ->
    exists s' cs',
      k s' cs' = Some out
      /\ forall j, sets r j = false -> cs' !! j = cs !! j.
Proof.
  induction r as [p|greedy p|ci pat|r1 IH1 r2 IH2|r1 IH1|i r1 IH1];
    intros s cs k out H; cbn [run sets] in *.
  - destruct s as [|c s]; [discriminate|].
    destruct (p c); [eauto | discriminate].
  - apply rep_result in H. destruct H as [s' H]. eauto.
  - destruct (lit_rest ci pat s); [eauto | discriminate].
  - apply IH1 in H. destruct H as (s1 & cs1 & H & F1).
    apply IH2 in H. destruct H as (s2 & cs2 & H & F2).
    exists s2, cs2. split; [exact H|]. intros j Hj.
    apply orb_false_iff in Hj. destruct Hj as [Hj1 Hj2].
    now rewrite F2, F1.
  - destruct (run r1 s cs k) as [out'|] eqn:E.
    + inversion H; subst. apply IH1 in E. exact E.
    + eauto.
  - apply IH1 in H. destruct H as (s1 & cs1 & H & F1).
    exists s1, (<[pred i := Some (take (length s - length s1) s)]> cs1).
    split; [exact H|]. intros j Hj.
    apply orb_false_iff in Hj. destruct Hj as [Hj1 Hj2].
    apply Nat.eqb_neq in Hj1.
    unfold caps in *.
    rewrite list_lookup_insert_ne by exact Hj1. now apply F1.
Qed.

(** An optional part never makes a match fail. *)
Lemma run_opt_total (r : re) (s : str) (cs : caps)
    (k : str -> caps -> option caps) :
  k s cs <> None -> run (Opt r) s cs k <> None.
Proof. intros H. cbn [run]. now destruct (run r s cs k). Qed.

(** A greedy repetition before a continuation that accepts the text
    after all the characters of the class. *)
(** A greedy repetition before a continuation that accepts the text
    after all the characters of the class. *)
Lemma rep_greedy_all {R : Type} (p : N -> bool) (k : str -> option R)
    (a b : str) (out : R) :
  forallb p a = true ->
  match b with [] => True | c :: _ => p c = false end ->
  k b = Some out ->
  rep R true p (a ++ b) k = Some out.
Proof.
  intros Ha Hb Hk. induction a as [|c a IH]; cbn [app].
  - destruct b as [|c b]; cbn [rep]; [exact Hk|]. now rewrite Hb.
  - cbn [forallb] in Ha. apply andb_true_iff in Ha. destruct Ha as [Hc Ha].
    cbn [rep]. rewrite Hc, (IH Ha). reflexivity.
Qed.

(** A lazy repetition passes the positions at which the continuation
    fails. *)
Lemma rep_lazy_skip {R : Type} (p : N -> bool) (k : str -> option R)
    (pre s : str) :
  forallb p pre = true ->
  (forall i, (i < length pre)%nat -> k (drop i pre ++ s) = None) ->
  rep R false p (pre ++ s) k = rep R false p s k.
Proof.
  induction pre as [|c pre IH]; intros Hp Hk; [reflexivity|].
  cbn [forallb] in Hp. apply andb_true_iff in Hp. destruct Hp as [Hc Hp].
  cbn [app rep]. rewrite Hc.
  pose proof (Hk 0%nat ltac:(cbn; lia)) as H0. cbn [drop app] in H0.
  rewrite H0.
  apply IH; [exact Hp|]. intros i Hi. apply (Hk (S i)). cbn. lia.
Qed.

Lemma rep_lazy_here {R : Type} (p : N -> bool) (k : str -> option R)
    (s : str) (out : R) :
  k s = Some out -> rep R false p s k = Some out.
Proof.
  intros Hk. destruct s as [|c s]; cbn [rep]; [exact Hk|].
  destruct (p c); [|exact Hk]. now rewrite Hk.
Qed.

Lemma search_from_here (r : re) (n : nat) (s : str) (out : caps) :
  run r s (replicate n None) (fun _ cs => Some cs) = Some out ->
  search_from r n s = Some out.
Proof. intros H. destruct s; cbn [search_from]; now rewrite H. Qed.

Lemma search_from_skip (r : re) (n : nat) (c : N) (s : str) :
  run r (c :: s) (replicate n None) (fun _ cs => Some cs) = None ->
  search_from r n (c :: s) = search_from r n s.
Proof. intros H. cbn [search_from]. now rewrite H. Qed.
End Engine.

Section Snapshot.
Import Py Re Models JobHandler.

Lemma digits_value_digits (s : str) :
  forall acc z, digits_value acc s = Some z -> forallb is_digit s = true.
Proof.
  induction s as [|c s IH]; intros acc z H; [reflexivity|].
  cbn [digits_value] in H. cbn [forallb].
  destruct (is_digit c); [|discriminate]. cbn. exact (IH _ _ H).
Qed.

Lemma int_of_str_digits (s : str) (z : Z) :
  int_of_str s = Ok z ->
  exists d s', s = d :: s' /\ is_digit d = true
               /\ forallb is_digit s' = true.
Proof.
  unfold int_of_str. destruct s as [|d s']; [discriminate|].
  destruct (digits_value 0 (d :: s')) as [z'|] eqn:E; [|discriminate].
  intros _. apply digits_value_digits in E. cbn [forallb] in E.
  apply andb_true_iff in E. exists d, s'. tauto.
Qed.

Lemma is_digit_not_space (c : N) : is_digit c = true -> is_space c = false.
Proof.
  unfold is_digit. intros H. apply andb_true_iff in H.
  destruct H as [H1 H2]. apply N.leb_le in H1, H2.
  assert (Hc : (c = 48 \/ c = 49 \/ c = 50 \/ c = 51 \/ c = 52 \/ c = 53
                \/ c = 54 \/ c = 55 \/ c = 56 \/ c = 57)%N) by lia.
  repeat destruct Hc as [->|Hc]; try subst c; reflexivity.
Qed.

Lemma is_digit_not_sep (c : N) :
  is_digit c = true -> eq_or_space c = false.
Proof.
  intros H. unfold eq_or_space. rewrite (is_digit_not_space c H).
  unfold is_digit in H. apply andb_true_iff in H.
  destruct H as [H1 H2]. apply N.leb_le in H1, H2.
  destruct (N.eqb_spec c 61); [lia | reflexivity].
Qed.

(** The pattern does not match at a character that is neither white
    space nor an f. *)
Lemma progress_re_head (c : N) (s : str) (cs : caps)
    (k : str -> caps -> option caps) :
  is_space c = false -> chr_matches true 102 c = false ->
  run PROGRESS_RE (c :: s) cs k = None.
Proof.
  intros Hs Hf. unfold PROGRESS_RE. cbn [run rep]. rewrite Hs.
  cbn [lit_rest lit map list_ascii_of_string]. 
  change (N_of_ascii "f") with 102%N. now rewrite Hf.
Qed.

Lemma take_consumed {A : Type} (a b : list A) :
  take (length (a ++ b) - length b) (a ++ b) = a.
Proof.
  rewrite length_app.
  replace (length a + length b - length b)%nat with (length a) by lia.
  now rewrite take_app_length.
Qed.

(** The frame section on a text [frame=<digits> <rest>]. *)
Lemma progress_re_frame (r_rest : re) (d c : N) (digits rest : str)
    (cs out : caps) (k : str -> caps -> option caps) :
  is_digit d = true -> forallb is_digit digits = true ->
  is_space c = false ->
  run r_rest (c :: rest) (<[0%nat := Some (d :: digits)]> cs) k = Some out ->
  run (Rep true is_space ;; Lit true (lit "frame") ;; Plus eq_or_space ;;
       Group 1 (Plus is_digit) ;; Plus is_space ;; r_rest)%re
      (lit "frame=" ++ d :: digits ++ 32%N :: c :: rest) cs k = Some out.
Proof.
  intros Hd Hdigits Hc Hrest.
  change (lit "frame=") with [102; 114; 97; 109; 101; 61]%N.
  change (lit "frame") with [102; 114; 97; 109; 101]%N.
  cbn [app run Plus]. cbn [rep]. change (is_space 102) with false.
  cbv beta iota. cbn [lit_rest].
  change (chr_matches true 102 102) with true.
  change (chr_matches true 114 114) with true.
  change (chr_matches true 97 97) with true.
  change (chr_matches true 109 109) with true.
  change (chr_matches true 101 101) with true.
  cbv beta iota. change (eq_or_space 61) with true. cbv beta iota.
  cbn [rep]. rewrite (is_digit_not_sep d Hd), Hd.
  rewrite (rep_greedy_all is_digit _ digits (32%N :: c :: rest) out Hdigits);
    [reflexivity | reflexivity |].
  rewrite (take_consumed (d :: digits) (32%N :: c :: rest)
           : take (length (d :: digits ++ 32%N :: c :: rest)
                   - length (32%N :: c :: rest))
               (d :: digits ++ 32%N :: c :: rest) = d :: digits).
  change (is_space 32) with true. cbv beta iota. cbn [rep]. rewrite Hc.
  exact Hrest.
Qed.

(** The time section on a text [<pre>time=HH:MM:SS.<digits> <rest>]
    whose part [pre] holds no line feed and no place where [time] could
    be read. *)
Lemma progress_re_time (r_rest : re) (pre : str) (h1 h2 m1 m2 s1 s2 f0 : N)
    (frac rest : str) (cs out : caps) (k : str -> caps -> option caps) :
  forallb dot pre = true ->
  (forall i, (i < length pre)%nat ->
     lit_rest true (lit "time")
       (drop i pre
        ++ lit "time=" ++ [h1; h2; 58; m1; m2; 58; s1; s2; 46; f0]%N
        ++ frac ++ 32%N :: rest) = None) ->
  is_digit h1 = true -> is_digit h2 = true -> is_digit m1 = true ->
  is_digit m2 = true -> is_digit s1 = true -> is_digit s2 = true ->
  is_digit f0 = true -> forallb is_digit frac = true ->
  run r_rest (32%N :: rest)
    (<[4%nat := Some (f0 :: frac)]>
       (<[3%nat := Some [s1; s2]]>
          (<[2%nat := Some [m1; m2]]>
             (<[1%nat := Some [h1; h2]]> cs)))) k = Some out ->
  run (Opt (Rep false dot ;; Lit true (lit "time") ;; Plus eq_or_space ;;
            Group 2 (Cls is_digit ;; Cls is_digit) ;; Lit true (lit ":") ;;
            Group 3 (Cls is_digit ;; Cls is_digit) ;; Lit true (lit ":") ;;
            Group 4 (Cls is_digit ;; Cls is_digit) ;; Lit true (lit ".") ;;
            Group 5 (Plus is_digit)) ;; r_rest)%re
      (pre ++ lit "time=" ++ [h1; h2; 58; m1; m2; 58; s1; s2; 46; f0]%N
       ++ frac ++ 32%N :: rest) cs k = Some out.
Proof.
  intros Hdot Hclear H1 H2 H3 H4 H5 H6 H7 Hfrac Hrest.
  cbn [run].
  match goal with
  | |- match rep caps false dot _ ?K with _ => _ end = _ =>
      assert (Hmatch : K (lit "time=" ++ [h1; h2; 58; m1; m2; 58; s1; s2; 46; f0]%N
       ++ frac ++ 32%N :: rest) = Some out);
      [|rewrite rep_lazy_skip;
        [rewrite (rep_lazy_here dot _ _ out Hmatch); reflexivity
        | exact Hdot
        | intros i Hi; cbv beta; rewrite (Hclear i Hi); reflexivity]]
  end.
  cbv beta.
  change (lit "time=") with [116; 105; 109; 101; 61]%N.
  change (lit "time") with [116; 105; 109; 101]%N.
  change (lit ":") with [58%N]. change (lit ".") with [46%N].
  cbn [app lit_rest].
  change (chr_matches true 116 116) with true.
  change (chr_matches true 105 105) with true.
  change (chr_matches true 109 109) with true.
  change (chr_matches true 101 101) with true.
  cbv beta iota. cbn [Plus run]. change (eq_or_space 61) with true.
  cbv beta iota. cbn [rep]. rewrite (is_digit_not_sep h1 H1).
  rewrite H1, H2.
  match goal with |- context [take ?n (h1 :: h2 :: ?x)] =>
    rewrite (take_consumed [h1; h2] x : take n (h1 :: h2 :: x) = [h1; h2])
  end.
  cbn [lit_rest]. change (chr_matches true 58 58) with true. cbv beta iota.
  rewrite H3, H4.
  match goal with |- context [take ?n (m1 :: m2 :: ?x)] =>
    rewrite (take_consumed [m1; m2] x : take n (m1 :: m2 :: x) = [m1; m2])
  end.
  cbn [lit_rest]. change (chr_matches true 58 58) with true. cbv beta iota.
  rewrite H5, H6.
  match goal with |- context [take ?n (s1 :: s2 :: ?x)] =>
    rewrite (take_consumed [s1; s2] x : take n (s1 :: s2 :: x) = [s1; s2])
  end.
  cbn [lit_rest]. change (chr_matches true 46 46) with true. cbv beta iota.
  rewrite H7.
  rewrite (rep_greedy_all is_digit _ frac (32%N :: rest) out Hfrac);
    [reflexivity | reflexivity |].
  match goal with |- context [take ?n (f0 :: frac ++ ?x)] =>
    rewrite (take_consumed (f0 :: frac) x
             : take n (f0 :: frac ++ x) = f0 :: frac)
  end.
  exact Hrest.
Qed.

Lemma search_lit_none (ci : bool) (pat s : str) :
  search_from (Lit ci pat) 0 s = None ->
  forall i, (i < length s)%nat -> lit_rest ci pat (drop i s) = None.
Proof.
  induction s as [|c s IH]; intros H i Hi; [cbn in Hi; lia|].
  cbn [search_from run] in H.
  destruct (lit_rest ci pat (c :: s)) eqn:E; [discriminate|].
  destruct i as [|i]; [exact E|].
  cbn [drop]. apply IH; [exact H | cbn in Hi; lia].
Qed.

(** A text in which [time] cannot be read stays so before a space. *)
Lemma no_time_before_space (x y : str) :
  lit_rest true (lit "time") x = None ->
  lit_rest true (lit "time") (x ++ 32%N :: y) = None.
Proof.
  change (lit "time") with [116; 105; 109; 101]%N.
  destruct x as [|a [|b [|c [|d x]]]]; cbn [app lit_rest];
    change (chr_matches true 116 32) with false;
    change (chr_matches true 105 32) with false;
    change (chr_matches true 109 32) with false;
    change (chr_matches true 101 32) with false;
    repeat match goal with
           | |- context [chr_matches true ?p ?q] =>
               destruct (chr_matches true p q)
           end;
    try reflexivity; try discriminate; auto.
Qed.

Lemma no_time_value (x y : str) :
  search_from (Lit true (lit "time")) 0 x = None ->
  forall i, (i < length x)%nat ->
    lit_rest true (lit "time") (drop i x ++ 32%N :: y) = None.
Proof.
  intros H i Hi. apply no_time_before_space.
  now apply search_lit_none.
Qed.

Lemma no_time_app (a b y : str) :
  (forall i, (i < length a)%nat ->
     lit_rest true (lit "time") (drop i a ++ b ++ y) = None) ->
  (forall i, (i < length b)%nat ->
     lit_rest true (lit "time") (drop i b ++ y) = None) ->
  forall i, (i < length (a ++ b))%nat ->
    lit_rest true (lit "time") (drop i (a ++ b) ++ y) = None.
Proof.
  intros Ha Hb i Hi. rewrite length_app in Hi.
  destruct (Nat.lt_ge_cases i (length a)) as [Hlt|Hge].
  - rewrite drop_app_le by lia. rewrite <- app_assoc. now apply Ha.
  - rewrite drop_app_ge by lia. apply Hb. lia.
Qed.

Lemma no_time_fps (y : str) :
  forall i, (i < length (lit "fps="))%nat ->
    lit_rest true (lit "time") (drop i (lit "fps=") ++ y) = None.
Proof.
  intros i Hi. do 4 (destruct i as [|i]; [reflexivity|]). cbn in Hi. lia.
Qed.

Lemma no_time_bitrate (y : str) :
  forall i, (i < length (lit " bitrate="))%nat ->
    lit_rest true (lit "time") (drop i (lit " bitrate=") ++ y) = None.
Proof.
  intros i Hi. do 9 (destruct i as [|i]; [reflexivity|]). cbn in Hi. lia.
Qed.

Lemma no_time_space (y : str) :
  forall i, (i < length [32%N])%nat ->
    lit_rest true (lit "time") (drop i [32%N] ++ y) = None.
Proof.
  intros i Hi. destruct i as [|i]; [reflexivity|]. cbn in Hi. lia.
Qed.

Lemma two_digits (a b : N) (z : Z) :
  int_of_str [a; b] = Ok z -> is_digit a = true /\ is_digit b = true.
Proof.
  intros H. apply int_of_str_digits in H.
  destruct H as (d & s' & E & Hd & Hs). inversion E; subst.
  cbn [forallb] in Hs. apply andb_true_iff in Hs. tauto.
Qed.

(** The snapshot line that the monitor composes is read back by the
    progress pattern: for a numeric frame count and a playback time
    [HH:MM:SS.f], with [fps] and [bitrate] fields that hold neither a line
    feed nor the word [time], the pattern matches the line, its first group
    is the frame count, and the time groups parse to the playback time in
    seconds. *)
Lemma snapshot_parses (b : gmap str str) (frame fps bitrate frac : str)
    (h1 h2 m1 m2 s1 s2 : N) (n hh mm ss f : Z) :
  FfmpegMon.get b "frame" "0" = frame ->
  FfmpegMon.get b "fps" "0" = fps ->
  FfmpegMon.get b "bitrate" "0" = bitrate ->
  FfmpegMon.get b "out_time" "00:00:00.00"
    = [h1; h2; 58; m1; m2; 58; s1; s2; 46]%N ++ frac ->
  int_of_str frame = Ok n ->
  int_of_str [h1; h2] = Ok hh ->
  int_of_str [m1; m2] = Ok mm ->
  int_of_str [s1; s2] = Ok ss ->
  int_of_str frac = Ok f ->
  forallb dot fps = true -> forallb dot bitrate = true ->
  search_from (Lit true (lit "time")) 0 fps = None ->
  search_from (Lit true (lit "time")) 0 bitrate = None ->
  exists groups,
    search_from PROGRESS_RE 6 (lit "PROGRESS:" ++ FfmpegMon.composite b)
      = Some groups
    /\ groups !! 0%nat = Some (Some frame)
    /\ parse_time groups
       = Ok (inject_Z (hh * 3600 + mm * 60 + ss)
             + inject_Z f / inject_Z (10 ^ Z.of_nat (length frac)))%Q.
Proof.
  intros Hframe Hfps Hbr Htime Hn Hhh Hmm Hss Hf Hdot1 Hdot2 Hno1 Hno2.
  destruct (int_of_str_digits _ _ Hn) as (d & digits & Ed & Hd & Hdigits).
  destruct (int_of_str_digits _ _ Hf) as (f0 & frac' & Ef & Hf0 & Hfrac).
  destruct (two_digits _ _ _ Hhh) as [H1 H2].
  destruct (two_digits _ _ _ Hmm) as [H3 H4].
  destruct (two_digits _ _ _ Hss) as [H5 H6].
  rewrite Ed in *. rewrite Ef in *. clear Ed Ef.
  unfold FfmpegMon.composite. rewrite Hframe, Hfps, Hbr, Htime.
  set (speed := FfmpegMon.get b "speed" "0").
  set (tail := lit "speed=" ++ speed ++ lit "x").
  set (cs4 := [Some (d :: digits); Some [h1; h2]; Some [m1; m2];
               Some [s1; s2]; Some (f0 :: frac'); None] : caps).
  (* the speed section never fails and leaves the other groups alone *)
  assert (Hspeed : exists out,
            run (Opt (Rep false dot ;; Lit true (lit "speed") ;;
                      Plus eq_or_space ;;
                      Group 6 (Plus is_digit ;; Lit true (lit ".") ;;
                               Plus is_digit) ;;
                      Lit true (lit "x")))%re
              (32%N :: tail) cs4 (fun _ cs => Some cs) = Some out
            /\ forall j, (j < 5)%nat -> out !! j = cs4 !! j).
  { match goal with |- exists out, ?R = _ /\ _ =>
      destruct R as [out|] eqn:E end.
    - exists out. split; [reflexivity|].
      apply run_frame in E. destruct E as (s' & cs' & E & Hkeep).
      inversion E; subst. intros j Hj. apply Hkeep.
      do 5 (destruct j as [|j]; [reflexivity|]). lia.
    - exfalso. revert E. apply run_opt_total. discriminate. }
  destruct Hspeed as (out & Hout & Hkeep).
  exists out. split; [|split].
  - change (lit "PROGRESS:") with [80; 82; 79; 71; 82; 69; 83; 83; 58]%N.
    cbn [app].
    do 9 (rewrite search_from_skip
            by (apply progress_re_head; reflexivity)).
    apply search_from_here.
    unfold PROGRESS_RE.
    change (lit " ") with [32%N].
    change (lit "fps=") with (102%N :: lit "ps=").
    cbn [app].
    apply progress_re_frame; try assumption; [reflexivity|].
    match goal with
    | |- run _ ?T _ _ = _ =>
        replace T
          with ((lit "fps=" ++ fps ++ lit " bitrate=" ++ bitrate ++ [32%N])
                ++ lit "time=" ++ [h1; h2; 58; m1; m2; 58; s1; s2; 46; f0]%N
                ++ frac' ++ 32%N :: tail)
          by (rewrite <- !app_assoc; reflexivity)
    end.
    apply progress_re_time; try assumption.
    + rewrite !forallb_app, Hdot1, Hdot2. reflexivity.
    + apply no_time_app; [apply no_time_fps|].
      apply no_time_app.
      * intros i Hi. rewrite <- !app_assoc.
        now apply (no_time_value fps).
      * apply no_time_app; [apply no_time_bitrate|].
        apply no_time_app; [|apply no_time_space].
        intros i Hi. now apply (no_time_value bitrate).
  - rewrite Hkeep by lia. reflexivity.
  - unfold parse_time, int_group, group.
    rewrite !Hkeep by lia. cbn [lookup list_lookup cs4 bind].
    rewrite Hhh, Hmm, Hss. cbn [bind]. rewrite Hf. reflexivity.
Qed.
End Snapshot.

Lemma snapshot_parses_witness :
  exists groups,
    Re.search_from JobHandler.PROGRESS_RE 6
      (Py.lit
         "PROGRESS:frame=100 fps=0 bitrate=0 time=00:01:30.50 speed=2.0x")
      = Some groups
    /\ JobHandler.parse_time groups
       = Py.Ok (inject_Z 90 + inject_Z 50 / inject_Z 100)%Q.
Proof.
  destruct (snapshot_parses FfmpegMon.snapshot_fields
              (Py.lit "100") (Py.lit "0") (Py.lit "0") (Py.lit "50")
              48 48 48 49 51 48 100 0 1 30 50
              ltac:(vm_compute; reflexivity) ltac:(vm_compute; reflexivity)
              ltac:(vm_compute; reflexivity) ltac:(vm_compute; reflexivity)
              eq_refl eq_refl eq_refl eq_refl eq_refl eq_refl eq_refl
              eq_refl eq_refl)
    as (groups & Hs & _ & Hp).
  exists groups. split; [exact Hs | exact Hp].
Defined.
